(** * agentsdk: a shallow embedding of the agent runtime core

    The development follows the Go packages of the repository:

    - [types]      pkg/types/message.go            (tool-call states, blocks, messages)
    - [core]       pkg/core/permission.go          (permission manager)
                   pkg/core/scheduler.go           (step scheduler)
                   pkg/core/room.go                (multi-agent room)
                   pkg/core/pool.go                (agent pool)
    - [sandbox]    pkg/sandbox/local.go            (dangerous command screen, Exec)
    - [builtin]    pkg/tools/builtin/bash_run.go   (bash_run tool)
    - [tools]      pkg/tools/executor.go           (executor, record builder)
    - [agent]      pkg/agent/agent.go, processor.go (engine: Send, step loop)

    Go maps are [gmap]s, Go [int] is a 64-bit two's complement integer kept
    as a [Z] with the wrap-around written out, goroutine-side effects are
    recorded in explicit logs threaded through the state. *)

From Stdlib Require Import ZArith Lia Ascii String List Bool.
From stdpp Require Import base option list gmap strings pretty fin_maps.

Set Warnings "-register-all,-clear-no-such-hyp".

Local Open Scope string_scope.
Local Open Scope list_scope.
Local Open Scope Z_scope.

(** ** Go machine integers *)

Module GoInt.

(** Go's [int] on 64-bit targets: arithmetic wraps modulo 2^64 into
    [-2^63, 2^63). *)
Definition wrap64 (z : Z) : Z := (z + 2 ^ 63) mod 2 ^ 64 - 2 ^ 63.

Definition add (a b : Z) : Z := wrap64 (a + b).
Definition sub (a b : Z) : Z := wrap64 (a - b).
Definition incr (a : Z) : Z := add a 1.

Definition in_range (z : Z) : Prop := - 2 ^ 63 <= z < 2 ^ 63.

End GoInt.

(** ** pkg/types *)

Module types.

(** [ToolCallState] (message.go). *)
Inductive ToolCallState :=
| ToolCallStatePending
| ToolCallStateApprovalRequired
| ToolCallStateApproved
| ToolCallStateExecuting
| ToolCallStateCompleted
| ToolCallStateFailed
| ToolCallStateDenied
| ToolCallStateSealed.

#[global] Instance ToolCallState_eq_dec : EqDecision ToolCallState.
Proof. solve_decision. Defined.

(** [BreakpointState] (message.go). *)
Inductive BreakpointState :=
| BreakpointReady
| BreakpointPreModel
| BreakpointStreamingModel
| BreakpointToolPending
| BreakpointAwaitingApproval
| BreakpointPreTool
| BreakpointToolExecuting
| BreakpointPostTool.

Inductive AgentRuntimeState :=
| AgentStateReady
| AgentStateWorking
| AgentStatePaused.

#[global] Instance AgentRuntimeState_eq_dec : EqDecision AgentRuntimeState.
Proof. solve_decision. Defined.

Inductive MessageRole :=
| MessageRoleUser
| MessageRoleAssistant
| MessageRoleSystem.

(** Values of Go's [interface{}] as they occur in tool inputs and outputs:
    decoded JSON.  Objects are kept as association lists. *)
Inductive Value :=
| VNil
| VBool (b : bool)
| VInt (z : Z)
| VString (s : string)
| VList (l : list Value)
| VMap (m : list (string * Value)).

(** [map[string]interface{}] *)
Abbreviation InputMap := (gmap string Value).

(** [ContentBlock]: the three block kinds, and the nil interface value
    that fills a slot of an assistant message no block was started in. *)
Inductive ContentBlock :=
| TextBlock (Text : string)
| ToolUseBlock (ID Name : string) (Input : InputMap)
| ToolResultBlock (ToolUseID : string) (Content : Value) (IsError : bool)
| NilBlock.

Record Message := {
  Role : MessageRole;
  Content : list ContentBlock;
}.

(** Modelled from the spec: the declaration of [types.PermissionMode] and of
    its three constants is not among the source files; the spec names the
    default modes allow, approval and auto.  The type is a Go string, so any
    other value can be stored as well; those are [PermissionModeOther]. *)
Inductive PermissionMode :=
| PermissionModeAllow
| PermissionModeApproval
| PermissionModeAuto
| PermissionModeOther (s : string).

(** [ToolCallAuditEntry]; timestamps are readings of a logical clock. *)
Record ToolCallAuditEntry := {
  ae_State : ToolCallState;
  ae_Timestamp : nat;
  ae_Note : string;
}.

(** [ToolCallRecord] (the approval sub-record carries only [Required]
    in the code paths modelled here). *)
Record ToolCallRecord := {
  tcr_ID : string;
  tcr_Name : string;
  tcr_Input : InputMap;
  tcr_State : ToolCallState;
  tcr_ApprovalRequired : bool;
  tcr_Result : option Value;
  tcr_Error : string;
  tcr_IsError : bool;
  tcr_StartedAt : option nat;
  tcr_CompletedAt : option nat;
  tcr_DurationMs : option Z;
  tcr_CreatedAt : nat;
  tcr_UpdatedAt : nat;
  tcr_AuditTrail : list ToolCallAuditEntry;
}.

(** The legal edges between tool-call states, as section 4.1 of the
    specification lists them. *)
Definition isTerminal (st : ToolCallState) : bool :=
  match st with
  | ToolCallStateCompleted | ToolCallStateFailed
  | ToolCallStateDenied | ToolCallStateSealed => true
  | _ => false
  end.

Definition legalEdge (a b : ToolCallState) : bool :=
  match a, b with
  | ToolCallStatePending, (ToolCallStateApprovalRequired | ToolCallStateApproved
                           | ToolCallStateFailed | ToolCallStateDenied) => true
  | ToolCallStateApprovalRequired, (ToolCallStateApproved | ToolCallStateDenied
                                    | ToolCallStateFailed) => true
  | ToolCallStateApproved, (ToolCallStateExecuting | ToolCallStateFailed) => true
  | ToolCallStateExecuting, (ToolCallStateCompleted | ToolCallStateFailed) => true
  | _, ToolCallStateSealed => negb (isTerminal a)
  | _, _ => false
  end.

(** The states a record went through, oldest first, and the transitions
    between them. *)
Definition trailStates (r : ToolCallRecord) : list ToolCallState :=
  ae_State <$> tcr_AuditTrail r.

Fixpoint edgesOf (l : list ToolCallState) : list (ToolCallState * ToolCallState) :=
  match l with
  | a :: ((b :: _) as l') => (a, b) :: edgesOf l'
  | _ => []
  end.

End types.
Import types.

(** ** pkg/core/permission.go *)

Module core_permission.

(** [PermissionDecision] is a Go string with three named constants; a rule
    may store any other string as well. *)
Inductive PermissionDecision :=
| PermissionAllow
| PermissionDeny
| PermissionAsk
| PermissionOther (s : string).

#[global] Instance PermissionDecision_eq_dec : EqDecision PermissionDecision.
Proof. solve_decision. Defined.

Record ToolPermissionRule := {
  ToolName : string;
  Decision : PermissionDecision;
  Reason : string;
}.

Record PermissionStats := {
  TotalChecks : Z;
  AllowedCount : Z;
  DeniedCount : Z;
  ApprovalCount : Z;
  HookErrorCount : Z;
}.

Record PermissionManager := {
  defaultMode : PermissionMode;
  rules : gmap string ToolPermissionRule;
  allowList : gmap string bool;
  denyList : gmap string bool;
  askList : gmap string bool;
  stats : PermissionStats;
}.

Record PermissionManagerOptions := {
  opt_DefaultMode : PermissionMode;
  opt_AllowList : list string;
  opt_DenyList : list string;
  opt_AskList : list string;
}.

(** Reading a [map[string]bool] at a key: the zero value [false] when the
    key is absent. *)
Definition index (m : gmap string bool) (k : string) : bool :=
  default false (m !! k).

Definition zeroStats : PermissionStats :=
  {| TotalChecks := 0; AllowedCount := 0; DeniedCount := 0;
     ApprovalCount := 0; HookErrorCount := 0 |}.

(** [for _, tool := range l { m[tool] = true }] *)
Definition setAll (l : list string) (m : gmap string bool) : gmap string bool :=
  fold_left (fun acc tool => <[tool := true]> acc) l m.

(** [NewPermissionManager]; a nil [opts] selects the auto mode. *)
Definition NewPermissionManager (opts : option PermissionManagerOptions)
  : PermissionManager :=
  let o := match opts with
           | Some o => o
           | None => {| opt_DefaultMode := PermissionModeAuto;
                        opt_AllowList := []; opt_DenyList := [];
                        opt_AskList := [] |}
           end in
  {| defaultMode := opt_DefaultMode o;
     rules := ∅;
     allowList := setAll (opt_AllowList o) ∅;
     denyList := setAll (opt_DenyList o) ∅;
     askList := setAll (opt_AskList o) ∅;
     stats := zeroStats |}.

Definition set_stats (pm : PermissionManager) (s : PermissionStats) :=
  {| defaultMode := defaultMode pm; rules := rules pm;
     allowList := allowList pm; denyList := denyList pm;
     askList := askList pm; stats := s |}.

Definition set_lists (pm : PermissionManager) (al dl kl : gmap string bool) :=
  {| defaultMode := defaultMode pm; rules := rules pm;
     allowList := al; denyList := dl; askList := kl; stats := stats pm |}.

Definition bumpTotal (s : PermissionStats) :=
  {| TotalChecks := GoInt.incr (TotalChecks s); AllowedCount := AllowedCount s;
     DeniedCount := DeniedCount s; ApprovalCount := ApprovalCount s;
     HookErrorCount := HookErrorCount s |}.
Definition bumpAllowed (s : PermissionStats) :=
  {| TotalChecks := TotalChecks s; AllowedCount := GoInt.incr (AllowedCount s);
     DeniedCount := DeniedCount s; ApprovalCount := ApprovalCount s;
     HookErrorCount := HookErrorCount s |}.
Definition bumpDenied (s : PermissionStats) :=
  {| TotalChecks := TotalChecks s; AllowedCount := AllowedCount s;
     DeniedCount := GoInt.incr (DeniedCount s); ApprovalCount := ApprovalCount s;
     HookErrorCount := HookErrorCount s |}.
Definition bumpApproval (s : PermissionStats) :=
  {| TotalChecks := TotalChecks s; AllowedCount := AllowedCount s;
     DeniedCount := DeniedCount s; ApprovalCount := GoInt.incr (ApprovalCount s);
     HookErrorCount := HookErrorCount s |}.

(** [SetRule] / [RemoveRule] *)
Definition SetRule (pm : PermissionManager) (toolName : string)
    (decision : PermissionDecision) (reason : string) : PermissionManager :=
  {| defaultMode := defaultMode pm;
     rules := <[toolName := {| ToolName := toolName; Decision := decision;
                               Reason := reason |}]> (rules pm);
     allowList := allowList pm; denyList := denyList pm;
     askList := askList pm; stats := stats pm |}.

Definition RemoveRule (pm : PermissionManager) (toolName : string) :=
  {| defaultMode := defaultMode pm; rules := delete toolName (rules pm);
     allowList := allowList pm; denyList := denyList pm;
     askList := askList pm; stats := stats pm |}.

(** [Check]: the decision, the reason, and the manager with its counters
    updated.  The returned error is always nil. *)
Definition Check (pm : PermissionManager) (call : ToolCallRecord)
  : PermissionDecision * string * PermissionManager :=
  let pm := set_stats pm (bumpTotal (stats pm)) in
  let toolName := tcr_Name call in
  if index (denyList pm) toolName then
    (PermissionDeny, "tool is in deny list", set_stats pm (bumpDenied (stats pm)))
  else if index (allowList pm) toolName then
    (PermissionAllow, "tool is in allow list", set_stats pm (bumpAllowed (stats pm)))
  else if index (askList pm) toolName then
    (PermissionAsk, "tool requires approval", set_stats pm (bumpApproval (stats pm)))
  else
    match rules pm !! toolName with
    | Some rule =>
        let st := match Decision rule with
                  | PermissionAllow => bumpAllowed (stats pm)
                  | PermissionDeny => bumpDenied (stats pm)
                  | PermissionAsk => bumpApproval (stats pm)
                  | PermissionOther _ => stats pm
                  end in
        (Decision rule, Reason rule, set_stats pm st)
    | None =>
        match defaultMode pm with
        | PermissionModeAllow =>
            (PermissionAllow, "default mode: allow",
             set_stats pm (bumpAllowed (stats pm)))
        | PermissionModeApproval =>
            (PermissionAsk, "default mode: approval",
             set_stats pm (bumpApproval (stats pm)))
        | PermissionModeAuto =>
            (PermissionAllow, "default mode: auto (allow)",
             set_stats pm (bumpAllowed (stats pm)))
        | PermissionModeOther _ =>
            (PermissionAllow, "default: allow",
             set_stats pm (bumpAllowed (stats pm)))
        end
    end.

(** [AddToAllowList], [AddToDenyList], [AddToAskList], [RemoveFromLists] *)
Definition AddToAllowList (pm : PermissionManager) (toolName : string) :=
  set_lists pm (<[toolName := true]> (allowList pm))
               (delete toolName (denyList pm))
               (delete toolName (askList pm)).

Definition AddToDenyList (pm : PermissionManager) (toolName : string) :=
  set_lists pm (delete toolName (allowList pm))
               (<[toolName := true]> (denyList pm))
               (delete toolName (askList pm)).

Definition AddToAskList (pm : PermissionManager) (toolName : string) :=
  set_lists pm (delete toolName (allowList pm))
               (delete toolName (denyList pm))
               (<[toolName := true]> (askList pm)).

Definition RemoveFromLists (pm : PermissionManager) (toolName : string) :=
  set_lists pm (delete toolName (allowList pm))
               (delete toolName (denyList pm))
               (delete toolName (askList pm)).

Definition IsInAllowList (pm : PermissionManager) (t : string) : bool :=
  index (allowList pm) t.
Definition IsInDenyList (pm : PermissionManager) (t : string) : bool :=
  index (denyList pm) t.
Definition IsInAskList (pm : PermissionManager) (t : string) : bool :=
  index (askList pm) t.

(** The list-editing operations a caller can issue. *)
Inductive ListOp :=
| OpAddToAllowList (toolName : string)
| OpAddToDenyList (toolName : string)
| OpAddToAskList (toolName : string)
| OpRemoveFromLists (toolName : string).

Definition applyOp (pm : PermissionManager) (op : ListOp) : PermissionManager :=
  match op with
  | OpAddToAllowList t => AddToAllowList pm t
  | OpAddToDenyList t => AddToDenyList pm t
  | OpAddToAskList t => AddToAskList pm t
  | OpRemoveFromLists t => RemoveFromLists pm t
  end.

Definition applyOps (pm : PermissionManager) (ops : list ListOp) :=
  fold_left applyOp ops pm.

(** The evaluation order as the specification words it: the first matching
    layer among deny-list, allow-list, ask-list, per-tool rule, default
    mode decides. *)
Inductive Layer :=
| LayerDeny | LayerAllow | LayerAsk | LayerRule | LayerDefault.

Definition layerOrder : list Layer :=
  [LayerDeny; LayerAllow; LayerAsk; LayerRule; LayerDefault].

Definition layerDecision (pm : PermissionManager) (toolName : string)
    (l : Layer) : option PermissionDecision :=
  match l with
  | LayerDeny => if IsInDenyList pm toolName then Some PermissionDeny else None
  | LayerAllow => if IsInAllowList pm toolName then Some PermissionAllow else None
  | LayerAsk => if IsInAskList pm toolName then Some PermissionAsk else None
  | LayerRule => Decision <$> rules pm !! toolName
  | LayerDefault =>
      Some (match defaultMode pm with
            | PermissionModeAllow => PermissionAllow
            | PermissionModeApproval => PermissionAsk
            | PermissionModeAuto => PermissionAllow
            | PermissionModeOther _ => PermissionAllow
            end)
  end.

Fixpoint firstMatch (pm : PermissionManager) (toolName : string)
    (ls : list Layer) : option PermissionDecision :=
  match ls with
  | [] => None
  | l :: ls' =>
      match layerDecision pm toolName l with
      | Some d => Some d
      | None => firstMatch pm toolName ls'
      end
  end.

(** The decision the specification dictates for a tool name. *)
Definition specCheck (pm : PermissionManager) (toolName : string)
  : option PermissionDecision :=
  firstMatch pm toolName layerOrder.

(** The number of lists among allow, deny and ask that hold [t]. *)
Definition listsHolding (pm : PermissionManager) (t : string) : nat :=
  Nat.b2n (IsInAllowList pm t) + Nat.b2n (IsInDenyList pm t)
  + Nat.b2n (IsInAskList pm t).

(** [GetStats], [ClearStats], [SetDefaultMode], [GetDefaultMode] *)
Definition GetStats (pm : PermissionManager) : PermissionStats := stats pm.

Definition ClearStats (pm : PermissionManager) : PermissionManager :=
  set_stats pm zeroStats.

Definition SetDefaultMode (pm : PermissionManager) (mode : PermissionMode)
  : PermissionManager :=
  {| defaultMode := mode; rules := rules pm; allowList := allowList pm;
     denyList := denyList pm; askList := askList pm; stats := stats pm |}.

Definition GetDefaultMode (pm : PermissionManager) : PermissionMode :=
  defaultMode pm.

(** [Check] on the calls of a list, one after the other: the decisions with
    their reasons, and the manager at the end. *)
Fixpoint checkAll (pm : PermissionManager) (calls : list ToolCallRecord)
  : list (PermissionDecision * string) * PermissionManager :=
  match calls with
  | [] => ([], pm)
  | call :: calls' =>
      let '(d, reason, pm1) := Check pm call in
      let '(ds, pm2) := checkAll pm1 calls' in
      ((d, reason) :: ds, pm2)
  end.

(** [PermissionHook]: each of the two functions may be nil.  A pre-hook
    returns a call (or nil) or an error; a post-hook is given the call, the
    result and the error of the execution and returns an error or nil. *)
Record PermissionHook := {
  PreToolUse : option (ToolCallRecord → option ToolCallRecord + string);
  PostToolUse : option (ToolCallRecord → Value → option string → option string);
}.

Definition bumpHookError (s : PermissionStats) :=
  {| TotalChecks := TotalChecks s; AllowedCount := AllowedCount s;
     DeniedCount := DeniedCount s; ApprovalCount := ApprovalCount s;
     HookErrorCount := GoInt.incr (HookErrorCount s) |}.

(** [RunPreHooks]; [hooks] is the field [pm.hooks], to which [AddHook]
    appends.  The result is the call as the hooks leave it, or the error. *)
Fixpoint RunPreHooks (hooks : list PermissionHook) (pm : PermissionManager)
    (call : ToolCallRecord) : (ToolCallRecord + string) * PermissionManager :=
  match hooks with
  | [] => (inl call, pm)
  | hook :: hooks' =>
      match PreToolUse hook with
      | None => RunPreHooks hooks' pm call
      | Some pre =>
          match pre call with
          | inr err =>
              (inr ("pre-hook error: " +:+ err),
               set_stats pm (bumpHookError (stats pm)))
          | inl (Some newCall) => RunPreHooks hooks' pm newCall
          | inl None => RunPreHooks hooks' pm call
          end
      end
  end.

(** [RunPostHooks] *)
Fixpoint RunPostHooks (hooks : list PermissionHook) (pm : PermissionManager)
    (call : ToolCallRecord) (result : Value) (callErr : option string)
  : option string * PermissionManager :=
  match hooks with
  | [] => (None, pm)
  | hook :: hooks' =>
      match PostToolUse hook with
      | None => RunPostHooks hooks' pm call result callErr
      | Some post =>
          match post call result callErr with
          | Some err =>
              (Some ("post-hook error: " +:+ err),
               set_stats pm (bumpHookError (stats pm)))
          | None => RunPostHooks hooks' pm call result callErr
          end
      end
  end.

(** [RequestApproval]; [approvalFunc] is the field of that name, nil or a
    function that returns a decision with a reason, or an error.  The
    result is the decision, the reason and the error. *)
Definition RequestApproval
    (approvalFunc : option (ToolCallRecord → PermissionDecision * string + string))
    (call : ToolCallRecord) : PermissionDecision * string * option string :=
  match approvalFunc with
  | None => (PermissionDeny, "no approval function configured", None)
  | Some f =>
      match f call with
      | inr err => (PermissionDeny, "approval error: " +:+ err, Some err)
      | inl (decision, reason) => (decision, reason, None)
      end
  end.

End core_permission.

(** ** pkg/types: configuration records

    Modelled from the spec: the file declaring [AgentConfig], [ModelConfig],
    [SandboxConfig], [SandboxKind] and [AgentTemplateDefinition] is not among
    the source files; the records below carry the fields named in section 6
    of the specification (agent configuration) and read by the code that
    uses them ([agent.Create], [sandbox.Factory.Create], the pool tests). *)

Module config.

(** Modelled from the spec: [types.SandboxKind], a Go string with the
    constants the sandbox factory switches on; the declaration is not among
    the source files. *)
Inductive SandboxKind :=
| SandboxKindLocal
| SandboxKindDocker
| SandboxKindK8s
| SandboxKindAliyun
| SandboxKindVolcengine
| SandboxKindRemote
| SandboxKindMock
| SandboxKindOther (s : string).

Definition SandboxKind_string (k : SandboxKind) : string :=
  match k with
  | SandboxKindLocal => "local"
  | SandboxKindDocker => "docker"
  | SandboxKindK8s => "k8s"
  | SandboxKindAliyun => "aliyun"
  | SandboxKindVolcengine => "volcengine"
  | SandboxKindRemote => "remote"
  | SandboxKindMock => "mock"
  | SandboxKindOther s => s
  end.

(** Modelled from the spec: [types.SandboxConfig], with the fields the
    factory and [agent.Create] read; the declaration is not among the
    source files. *)
Record SandboxConfig := {
  sc_Kind : SandboxKind;
  sc_WorkDir : string;
  sc_EnforceBoundary : bool;
  sc_AllowPaths : list string;
  sc_WatchFiles : bool;
  sc_Extra : option InputMap;
}.

(** Modelled from the spec: [types.ModelConfig]; the declaration is not
    among the source files. *)
Record ModelConfig := {
  mc_Provider : string;
  mc_Model : string;
  mc_APIKey : string;
  mc_BaseURL : string;
}.

(** The [Tools] field of a template is an [interface{}]: a [[]string], the
    string ["*"], or something else. *)
Inductive TemplateTools :=
| ToolsList (names : list string)
| ToolsAll
| ToolsOther.

(** Modelled from the spec: [types.AgentTemplateDefinition]; the
    declaration is not among the source files. *)
Record AgentTemplateDefinition := {
  tpl_ID : string;
  tpl_SystemPrompt : string;
  tpl_Model : string;
  tpl_Tools : TemplateTools;
}.

(** Modelled from the spec: [types.AgentConfig]; the declaration is not
    among the source files. *)
Record AgentConfig := {
  AgentID : string;
  TemplateID : string;
  ModelConfig_ : option ModelConfig;
  Sandbox_ : option SandboxConfig;
  Tools : option (list string);
}.

End config.

(** ** Go's [regexp], as far as the patterns of the repository use it

    A matcher by derivatives over bytes.  The classes are the ASCII ones of
    RE2 ([\s], [\w]) and [.], which excludes the newline; none of them
    separates the bytes of a multi-byte rune from one another, so matching
    bytes and matching runes agree on the patterns below. *)

Module regexp.

Inductive Class := ClsSpace | ClsAny | ClsWord.

Inductive Regexp :=
| Fail
| Empty
| Lit (c : ascii)
| Cls (k : Class)
| Cat (r1 r2 : Regexp)
| Alt (r1 r2 : Regexp)
| Star (r : Regexp)
| EndText.

Definition isSpace (c : ascii) : bool :=
  let n := nat_of_ascii c in
  (n =? 9)%nat || (n =? 10)%nat || (n =? 12)%nat || (n =? 13)%nat || (n =? 32)%nat.

Definition isWord (c : ascii) : bool :=
  let n := nat_of_ascii c in
  ((48 <=? n)%nat && (n <=? 57)%nat)
  || ((65 <=? n)%nat && (n <=? 90)%nat)
  || ((97 <=? n)%nat && (n <=? 122)%nat)
  || (n =? 95)%nat.

Definition classMem (k : Class) (c : ascii) : bool :=
  match k with
  | ClsSpace => isSpace c
  | ClsAny => negb (nat_of_ascii c =? 10)%nat
  | ClsWord => isWord c
  end.

(** [nullable atEnd r]: [r] matches the empty string at a position that
    is ([atEnd]) or is not the end of the text. *)
Fixpoint nullable (atEnd : bool) (r : Regexp) : bool :=
  match r with
  | Fail => false
  | Empty => true
  | Lit _ => false
  | Cls _ => false
  | Cat r1 r2 => nullable atEnd r1 && nullable atEnd r2
  | Alt r1 r2 => nullable atEnd r1 || nullable atEnd r2
  | Star _ => true
  | EndText => atEnd
  end.

Definition mkCat (r1 r2 : Regexp) : Regexp :=
  match r1, r2 with
  | Fail, _ => Fail
  | _, Fail => Fail
  | Empty, _ => r2
  | _, _ => Cat r1 r2
  end.

Definition mkAlt (r1 r2 : Regexp) : Regexp :=
  match r1, r2 with
  | Fail, _ => r2
  | _, Fail => r1
  | _, _ => Alt r1 r2
  end.

(** The derivative by a byte that is read, hence not at the end of text. *)
Fixpoint deriv (c : ascii) (r : Regexp) : Regexp :=
  match r with
  | Fail => Fail
  | Empty => Fail
  | Lit c' => if Ascii.eqb c c' then Empty else Fail
  | Cls k => if classMem k c then Empty else Fail
  | Cat r1 r2 =>
      mkAlt (mkCat (deriv c r1) r2)
            (if nullable false r1 then deriv c r2 else Fail)
  | Alt r1 r2 => mkAlt (deriv c r1) (deriv c r2)
  | Star r1 => mkCat (deriv c r1) (Star r1)
  | EndText => Fail
  end.

(** [r] matches a prefix of [s]. *)
Fixpoint matchPrefix (r : Regexp) (s : string) : bool :=
  match s with
  | EmptyString => nullable true r
  | String c s' => nullable false r || matchPrefix (deriv c r) s'
  end.

(** [MatchString]: [r] matches somewhere in [s]. *)
Fixpoint MatchString (r : Regexp) (s : string) : bool :=
  matchPrefix r s
  || match s with
     | EmptyString => false
     | String _ s' => MatchString r s'
     end.

(** Builders for the concrete syntax. *)
Fixpoint lit (s : string) : Regexp :=
  match s with
  | EmptyString => Empty
  | String c s' => Cat (Lit c) (lit s')
  end.

Definition plus (r : Regexp) : Regexp := Cat r (Star r).

Fixpoint seq (rs : list Regexp) : Regexp :=
  match rs with
  | [] => Empty
  | [r] => r
  | r :: rs' => Cat r (seq rs')
  end.

Definition space := Cls ClsSpace.
Definition any := Cls ClsAny.

(** [r] has no end-of-text assertion. *)
Fixpoint noEnd (r : Regexp) : bool :=
  match r with
  | EndText => false
  | Cat r1 r2 | Alt r1 r2 => noEnd r1 && noEnd r2
  | Star r1 => noEnd r1
  | _ => true
  end.

End regexp.

(** ** pkg/sandbox: interface.go, local.go, mock.go *)

Module sandbox.
Import regexp.

(** [dangerousPatterns], in the order of the source. *)
Definition dangerousPatterns : list Regexp := [
  (* rm\s+-rf\s+/($|\s) *)
  seq [lit "rm"; plus space; lit "-rf"; plus space; lit "/"; Alt EndText space];
  (* sudo\s+ *)
  seq [lit "sudo"; plus space];
  (* shutdown *)
  lit "shutdown";
  (* reboot *)
  lit "reboot";
  (* mkfs\. *)
  lit "mkfs.";
  (* dd\s+.*of= *)
  seq [lit "dd"; plus space; Star any; lit "of="];
  (* :\(\)\{\s*:\|\:&\s*\};: *)
  seq [lit ":(){"; Star space; lit ":|:&"; Star space; lit "};:"];
  (* chmod\s+777\s+/ *)
  seq [lit "chmod"; plus space; lit "777"; plus space; lit "/"];
  (* curl\s+.*\|\s*(bash|sh) *)
  seq [lit "curl"; plus space; Star any; lit "|"; Star space;
       Alt (lit "bash") (lit "sh")];
  (* wget\s+.*\|\s*(bash|sh) *)
  seq [lit "wget"; plus space; Star any; lit "|"; Star space;
       Alt (lit "bash") (lit "sh")];
  (* >\s*/dev/sda *)
  seq [lit ">"; Star space; lit "/dev/sda"];
  (* mkswap *)
  lit "mkswap";
  (* swapon *)
  lit "swapon"
].

(** [ExecOptions]; [Timeout] is a [time.Duration], in nanoseconds. *)
Record ExecOptions := {
  eo_Timeout : Z;
  eo_WorkDir : string;
  eo_Env : gmap string string;
}.

Record ExecResult := {
  Code : Z;
  Stdout : string;
  Stderr : string;
}.

(** What [exec.CommandContext(ctx, "sh", "-c", cmd)] is started with. *)
Record Spawn := {
  sp_cmd : string;
  sp_dir : string;
  sp_env : option (list string);
  sp_timeout : Z;
}.

(** How [CombinedOutput] ends: no error, an [*exec.ExitError], or another
    error. *)
Inductive ProcResult :=
| ProcDone (output : string)
| ProcExit (code : Z) (output : string)
| ProcError (msg : string).

(** The host a local sandbox runs on: what a started process answers, the
    process environment, [filepath.Join], [filepath.Abs] and [os.Getwd]
    (the last two return a path or an error). *)
Record Host := {
  run : Spawn → ProcResult;
  Environ : list string;
  filepath_Join : string → string → string;
  filepath_Abs : string → string + string;
  Getwd : string + string;
}.

Definition second : Z := 1000000000.

(** [truncate] *)
Definition truncate (s : string) (maxLen : nat) : string :=
  if (String.length s <=? maxLen)%nat then s
  else substring 0 maxLen s +:+ "...".

Record LocalSandbox := {
  workDir : string;
  enforceBoundary : bool;
  allowPaths : list string;
  watchEnabled : bool;
}.

(** [filepath.IsAbs] on a Unix host. *)
Definition filepath_IsAbs (path : string) : bool :=
  match path with
  | String "/" _ => true
  | _ => false
  end.

(** [LocalFS.Resolve] *)
Definition Resolve (h : Host) (ls : LocalSandbox) (path : string) : string :=
  if filepath_IsAbs path then path else filepath_Join h (workDir ls) path.

(** The processes started so far. *)
Abbreviation Spawned := (list Spawn).

(** [for _, pattern := range dangerousPatterns { if pattern.MatchString(cmd) ... }] *)
Definition isDangerous (cmd : string) : bool :=
  existsb (λ pattern, MatchString pattern cmd) dangerousPatterns.

(** The result of a blocked command. *)
Definition blockedResult (cmd : string) : ExecResult :=
  {| Code := 1; Stdout := "";
     Stderr := "Dangerous command blocked for security: " +:+ truncate cmd 100 |}.

(** [LocalSandbox.Exec].  The result is the [*ExecResult] (the error is
    always nil) together with the processes started. *)
Definition LocalSandbox_Exec (h : Host) (ls : LocalSandbox) (cmd : string)
    (opts : option ExecOptions) (ps : Spawned) : ExecResult * Spawned :=
  if isDangerous cmd then (blockedResult cmd, ps)
  else
    let timeout :=
      match opts with
      | Some o => if 0 <? eo_Timeout o then eo_Timeout o else 120 * second
      | None => 120 * second
      end in
    let dir :=
      match opts with
      | Some o => if String.eqb (eo_WorkDir o) "" then workDir ls
                  else Resolve h ls (eo_WorkDir o)
      | None => workDir ls
      end in
    let env :=
      match opts with
      | Some o =>
          if (0 <? size (eo_Env o))%nat then
            Some (Environ h ++
                  ((λ kv : string * string, kv.1 +:+ "=" +:+ kv.2)
                     <$> map_to_list (eo_Env o)))
          else None
      | None => None
      end in
    let p := {| sp_cmd := cmd; sp_dir := dir; sp_env := env; sp_timeout := timeout |} in
    let res :=
      match run h p with
      | ProcDone output => {| Code := 0; Stdout := output; Stderr := "" |}
      | ProcExit code output => {| Code := code; Stdout := output; Stderr := output |}
      | ProcError msg => {| Code := 1; Stdout := ""; Stderr := msg |}
      end in
    (res, ps ++ [p]).

(** [MockSandbox.Exec] *)
Definition MockSandbox_Exec (cmd : string) (opts : option ExecOptions)
    (ps : Spawned) : ExecResult * Spawned :=
  ({| Code := 0; Stdout := "Mock output for: " +:+ cmd; Stderr := "" |}, ps).

(** The [Sandbox] interface, as far as the tools use it: [Exec] returns an
    [*ExecResult] or an error. *)
Record Sandbox := {
  Kind : string;
  Exec : string → option ExecOptions → Spawned → (ExecResult + string) * Spawned;
}.

Definition LocalSandbox_Sandbox (h : Host) (ls : LocalSandbox) : Sandbox :=
  {| Kind := "local";
     Exec := λ cmd opts ps,
       let '(r, ps') := LocalSandbox_Exec h ls cmd opts ps in (inl r, ps') |}.

Definition MockSandbox_Sandbox : Sandbox :=
  {| Kind := "mock";
     Exec := λ cmd opts ps,
       let '(r, ps') := MockSandbox_Exec cmd opts ps in (inl r, ps') |}.

(** [NewLocalSandbox]; a nil [config] is the zero configuration. *)
Definition NewLocalSandbox (h : Host) (wd : string) (enforce : bool)
    (allow : list string) (watch : bool) : LocalSandbox + string :=
  let wd1 := if String.eqb wd "" then Getwd h else inl wd in
  match wd1 with
  | inr err => inr ("get working directory: " +:+ err)
  | inl wd2 =>
      match filepath_Abs h wd2 with
      | inr err => inr ("resolve work directory: " +:+ err)
      | inl wd3 =>
          inl {| workDir := wd3; enforceBoundary := enforce;
                 allowPaths :=
                   omap (λ p, match filepath_Abs h p with
                              | inl abs => Some abs
                              | inr _ => None
                              end) allow;
                 watchEnabled := watch |}
      end
  end.

(** [RemoteSandbox.Exec] of the base remote sandbox. *)
Definition RemoteSandbox_Sandbox : Sandbox :=
  {| Kind := "remote";
     Exec := λ cmd opts ps,
       (inr "exec not implemented in base RemoteSandbox", ps) |}.

(** [Factory.Create] *)
Definition Factory_Create (h : Host) (cfg : option config.SandboxConfig)
  : Sandbox + string :=
  let cfg := match cfg with
             | Some c => c
             | None => {| config.sc_Kind := config.SandboxKindLocal;
                          config.sc_WorkDir := ".";
                          config.sc_EnforceBoundary := false;
                          config.sc_AllowPaths := [];
                          config.sc_WatchFiles := false;
                          config.sc_Extra := None |}
             end in
  match config.sc_Kind cfg with
  | config.SandboxKindLocal =>
      match NewLocalSandbox h (config.sc_WorkDir cfg) (config.sc_EnforceBoundary cfg)
              (config.sc_AllowPaths cfg) (config.sc_WatchFiles cfg) with
      | inl ls => inl (LocalSandbox_Sandbox h ls)
      | inr err => inr err
      end
  | config.SandboxKindDocker => inr "docker sandbox not implemented yet"
  | config.SandboxKindK8s => inr "k8s sandbox not implemented yet"
  | config.SandboxKindAliyun =>
      inr "aliyun sandbox: use cloud.NewAliyunSandbox() directly"
  | config.SandboxKindVolcengine =>
      inr "volcengine sandbox: use cloud.NewVolcengineSandbox() directly"
  | config.SandboxKindRemote =>
      match config.sc_Extra cfg with
      | None => inr "remote sandbox requires extra configuration"
      | Some _ => inl RemoteSandbox_Sandbox
      end
  | config.SandboxKindMock => inl MockSandbox_Sandbox
  | config.SandboxKindOther k => inr ("unknown sandbox kind: " +:+ k)
  end.

End sandbox.

(** ** pkg/tools: tool.go, executor.go *)

Module tools.
Import sandbox.

Record ToolContext := {
  AgentID : string;
  Sandbox : sandbox.Sandbox;
}.

(** The [Tool] interface.  [Execute] returns Go's [(interface{}, error)]:
    an output and, when it fails, the error text; it may start processes
    through the sandbox of its context. *)
Record Tool := {
  Name : string;
  Description : string;
  Execute : InputMap → ToolContext → Spawned → (Value * option string) * Spawned;
}.

(** [NewToolCallRecord(id, name, input).Build()], created at time [now]. *)
Definition NewToolCallRecord (id name : string) (input : InputMap) (now : nat)
  : ToolCallRecord :=
  {| tcr_ID := id; tcr_Name := name; tcr_Input := input;
     tcr_State := ToolCallStatePending;
     tcr_ApprovalRequired := false;
     tcr_Result := None; tcr_Error := ""; tcr_IsError := false;
     tcr_StartedAt := None; tcr_CompletedAt := None; tcr_DurationMs := None;
     tcr_CreatedAt := now; tcr_UpdatedAt := now;
     tcr_AuditTrail := [ {| ae_State := ToolCallStatePending;
                            ae_Timestamp := now; ae_Note := "created" |} ] |}.

(** [ExecuteRequest] and [ExecuteResult]; durations in nanoseconds. *)
Record ExecuteRequest := {
  req_Tool : Tool;
  req_Input : InputMap;
  req_Context : ToolContext;
  req_Timeout : Z;
}.

Record ExecuteResult := {
  Success : bool;
  Output : Value;
  Error : option string;
  DurationMs : Z;
  StartedAt : nat;
  EndedAt : nat;
}.

End tools.

(** ** pkg/tools/builtin/bash_run.go *)

Module builtin.
Import sandbox tools.

(** [fmt.Sprintf("%d", n)] *)
Definition itoa (n : Z) : string := pretty n.

(** [BashRunTool.Execute] *)
Definition BashRunTool_Execute (input : InputMap) (tc : ToolContext)
    (ps : Spawned) : (Value * option string) * Spawned :=
  match input !! "cmd" with
  | Some (VString cmd) =>
      match Exec (Sandbox tc) cmd None ps with
      | (inr err, ps') =>
          ((VMap [("ok", VBool false);
                  ("error", VString ("failed to execute command: " +:+ err));
                  ("recommendations",
                   VList [VString "检查命令语法是否正确";
                          VString "确认命令在沙箱环境中可执行";
                          VString "验证是否有执行权限"])],
            None), ps')
      | (inl result, ps') =>
          let output := Stdout result in
          let output :=
            if String.eqb (Stderr result) "" then output
            else output +:+ String "010" "" +:+ Stderr result in
          let output := if String.eqb output "" then "(no output)" else output in
          let success := Code result =? 0 in
          let response :=
            [("ok", VBool success); ("code", VInt (Code result));
             ("output", VString output)] in
          let response :=
            if success then response
            else response ++
                 [("error",
                   VString ("command exited with code " +:+ itoa (Code result)));
                  ("recommendations",
                   VList [VString "检查命令的标准错误输出";
                          VString "验证命令参数是否正确";
                          VString "确认所需的依赖是否已安装"])] in
          ((VMap response, None), ps')
      end
  | _ => ((VNil, Some "cmd must be a string"), ps)
  end.

Definition BashRunTool : Tool :=
  {| Name := "bash_run";
     Description := "Execute bash commands in the sandbox environment";
     Execute := BashRunTool_Execute |}.

(** Reading a key of a response map. *)
Fixpoint field (k : string) (m : list (string * Value)) : option Value :=
  match m with
  | [] => None
  | (k', v) :: m' => if String.eqb k k' then Some v else field k m'
  end.

End builtin.

(** ** pkg/provider/interface.go *)

Module provider.

Record TokenUsage := {
  InputTokens : Z;
  OutputTokens : Z;
}.

(** [StreamChunk]; [Delta] is [Some m] when the [interface{}] holds a
    [map[string]interface{}], [None] for any other value. *)
Record StreamChunk := {
  Type_ : string;
  Index : Z;
  Delta : option InputMap;
  Usage : option TokenUsage;
}.

(** What a call of [Provider.Stream] answers: an error, or the chunks read
    from the channel until it is closed. *)
Inductive StreamReply :=
| StreamError (msg : string)
| StreamChunks (chunks : list StreamChunk).

End provider.

(** ** pkg/types/events.go: the events the engine emits *)

Module events.

Record ToolCallSnapshot := {
  snap_ID : string;
  snap_Name : string;
  snap_State : ToolCallState;
}.

Inductive Event :=
| ProgressTextChunkStartEvent (Step : Z)
| ProgressTextChunkEvent (Step : Z) (Delta : string)
| ProgressTextChunkEndEvent (Step : Z) (Text : string)
| ProgressToolStartEvent (Call : ToolCallSnapshot)
| ProgressToolEndEvent (Call : ToolCallSnapshot)
| ProgressToolErrorEvent (Call : ToolCallSnapshot) (Error : string)
| ProgressDoneEvent (Step : Z) (Reason : string)
| MonitorStateChangedEvent (State : AgentRuntimeState)
| MonitorErrorEvent (Severity Phase Message : string)
| MonitorTokenUsageEvent (InputTokens OutputTokens TotalTokens : Z)
| MonitorBreakpointChangedEvent (Previous Current : BreakpointState) (Timestamp : nat).

Definition isMonitorError (e : Event) : bool :=
  match e with
  | MonitorErrorEvent _ _ _ => true
  | _ => false
  end.

End events.

(** ** pkg/store/interface.go

    The store is an interface; its implementations are not part of the
    engine.  Every call is answered by the next reply of a script and is
    recorded. *)

Module store.

Inductive StoreCall :=
| SaveMessagesCall (agentID : string) (messages : list Message)
| LoadMessagesCall (agentID : string)
| SaveToolCallRecordsCall (agentID : string) (records : list ToolCallRecord)
| LoadToolCallRecordsCall (agentID : string)
| SaveInfoCall (agentID templateID : string) (createdAt : nat) (messageCount : Z).

Inductive StoreReply :=
| ReplyOk
| ReplyError (msg : string)
| ReplyMessages (messages : list Message)
| ReplyRecords (records : list ToolCallRecord).

Definition replyError (r : StoreReply) : option string :=
  match r with
  | ReplyError msg => Some msg
  | _ => None
  end.

End store.

(** ** pkg/agent: agent.go and processor.go *)

Module agent.
Import sandbox tools provider events store.

(** The fields of [Agent] the engine reads and writes; [eventBus] is the
    sequence of events emitted so far. *)
Record Agent := {
  id : string;
  systemPrompt : string;
  sandbox : sandbox.Sandbox;
  toolMap : gmap string Tool;
  state : AgentRuntimeState;
  breakpoint : BreakpointState;
  messages : list Message;
  toolRecords : gmap string ToolCallRecord;
  stepCount : Z;
  lastSfpIndex : Z;
  createdAt : nat;
  eventBus : list Event;
}.

(** What the engine runs against: the clock read by [time.Now], the store
    script and the calls made to the store, the processes started through
    the sandbox, the calls of [Tool.Execute] made by the executor, and for
    each [select] of the executor whether the [ctx.Done()] case is taken. *)
Record Env := {
  clock : nat;
  storeScript : list StoreReply;
  storeLog : list StoreCall;
  spawned : Spawned;
  executed : list (string * InputMap);
  ctxDone : list bool;
}.

Record St := { ag : Agent; env : Env }.

(** Engine code runs in a state monad over [St]; [None] is a Go panic. *)
Definition M (A : Type) : Type := St → option (A * St).

Definition ret {A} (x : A) : M A := λ s, Some (x, s).
Definition bind {A B} (m : M A) (k : A → M B) : M B :=
  λ s, match m s with
       | Some (x, s') => k x s'
       | None => None
       end.
Definition panic {A} : M A := λ _, None.

Declare Scope engine_scope.
Delimit Scope engine_scope with engine.
Notation "'let*' x ':=' m 'in' k" := (bind m (λ x, k))
  (at level 10, x pattern, m at level 100, k at level 200) : engine_scope.
Notation "m ';;' k" := (bind m (λ _, k))
  (at level 100, k at level 200, right associativity) : engine_scope.
Local Open Scope engine_scope.

Definition getAgent : M Agent := λ s, Some (ag s, s).
Definition modifyAgent (f : Agent → Agent) : M unit :=
  λ s, Some (tt, {| ag := f (ag s); env := env s |}).
Definition modifyEnv (f : Env → Env) : M unit :=
  λ s, Some (tt, {| ag := ag s; env := f (env s) |}).

Fixpoint mapM {A B} (f : A → M B) (l : list A) : M (list B) :=
  match l with
  | [] => ret []
  | x :: l' => let* y := f x in let* ys := mapM f l' in ret (y :: ys)
  end.

Fixpoint foldM {A B} (f : B → A → M B) (l : list A) (b : B) : M B :=
  match l with
  | [] => ret b
  | x :: l' => let* b' := f b x in foldM f l' b'
  end.

(** Field updates of [Agent]. *)
Definition set_state (v : AgentRuntimeState) (a : Agent) : Agent :=
  {| id := id a; systemPrompt := systemPrompt a; sandbox := sandbox a;
     toolMap := toolMap a; state := v; breakpoint := breakpoint a;
     messages := messages a; toolRecords := toolRecords a;
     stepCount := stepCount a; lastSfpIndex := lastSfpIndex a;
     createdAt := createdAt a; eventBus := eventBus a |}.
Definition set_breakpoint (v : BreakpointState) (a : Agent) : Agent :=
  {| id := id a; systemPrompt := systemPrompt a; sandbox := sandbox a;
     toolMap := toolMap a; state := state a; breakpoint := v;
     messages := messages a; toolRecords := toolRecords a;
     stepCount := stepCount a; lastSfpIndex := lastSfpIndex a;
     createdAt := createdAt a; eventBus := eventBus a |}.
Definition set_messages (v : list Message) (a : Agent) : Agent :=
  {| id := id a; systemPrompt := systemPrompt a; sandbox := sandbox a;
     toolMap := toolMap a; state := state a; breakpoint := breakpoint a;
     messages := v; toolRecords := toolRecords a;
     stepCount := stepCount a; lastSfpIndex := lastSfpIndex a;
     createdAt := createdAt a; eventBus := eventBus a |}.
Definition set_toolRecords (v : gmap string ToolCallRecord) (a : Agent) : Agent :=
  {| id := id a; systemPrompt := systemPrompt a; sandbox := sandbox a;
     toolMap := toolMap a; state := state a; breakpoint := breakpoint a;
     messages := messages a; toolRecords := v;
     stepCount := stepCount a; lastSfpIndex := lastSfpIndex a;
     createdAt := createdAt a; eventBus := eventBus a |}.
Definition set_stepCount (v : Z) (a : Agent) : Agent :=
  {| id := id a; systemPrompt := systemPrompt a; sandbox := sandbox a;
     toolMap := toolMap a; state := state a; breakpoint := breakpoint a;
     messages := messages a; toolRecords := toolRecords a;
     stepCount := v; lastSfpIndex := lastSfpIndex a;
     createdAt := createdAt a; eventBus := eventBus a |}.
Definition set_eventBus (v : list Event) (a : Agent) : Agent :=
  {| id := id a; systemPrompt := systemPrompt a; sandbox := sandbox a;
     toolMap := toolMap a; state := state a; breakpoint := breakpoint a;
     messages := messages a; toolRecords := toolRecords a;
     stepCount := stepCount a; lastSfpIndex := lastSfpIndex a;
     createdAt := createdAt a; eventBus := v |}.

(** [time.Now()]: the clock is read and moves on. *)
Definition timeNow : M nat :=
  λ s, let e := env s in
       Some (clock e,
             {| ag := ag s;
                env := {| clock := S (clock e); storeScript := storeScript e;
                          storeLog := storeLog e; spawned := spawned e;
                          executed := executed e; ctxDone := ctxDone e |} |}).

(** A call of a [Store] method: the next reply of the script ([ReplyOk]
    once it is used up). *)
Definition storeCall (c : StoreCall) : M StoreReply :=
  λ s, let e := env s in
       Some (hd ReplyOk (storeScript e),
             {| ag := ag s;
                env := {| clock := clock e; storeScript := tl (storeScript e);
                          storeLog := storeLog e ++ [c]; spawned := spawned e;
                          executed := executed e; ctxDone := ctxDone e |} |}).

(** [eventBus.EmitProgress] / [eventBus.EmitMonitor] *)
Definition emit (ev : Event) : M unit :=
  modifyAgent (λ a, set_eventBus (eventBus a ++ [ev]) a).

(** [setBreakpoint] *)
Definition setBreakpoint (st : BreakpointState) : M unit :=
  let* a := getAgent in
  let previous := breakpoint a in
  modifyAgent (set_breakpoint st);;
  let* now := timeNow in
  emit (MonitorBreakpointChangedEvent previous st now).

(** [updateToolRecord] *)
Definition updateToolRecord (id : string) (st : ToolCallState)
    (errorMsg : string) : M unit :=
  let* a := getAgent in
  match toolRecords a !! id with
  | None => ret tt
  | Some record =>
      let* now := timeNow in
      let failed := negb (String.eqb errorMsg "") in
      let record' :=
        {| tcr_ID := tcr_ID record; tcr_Name := tcr_Name record;
           tcr_Input := tcr_Input record;
           tcr_State := st;
           tcr_ApprovalRequired := tcr_ApprovalRequired record;
           tcr_Result := tcr_Result record;
           tcr_Error := if failed then errorMsg else tcr_Error record;
           tcr_IsError := if failed then true else tcr_IsError record;
           tcr_StartedAt := tcr_StartedAt record;
           tcr_CompletedAt := tcr_CompletedAt record;
           tcr_DurationMs := tcr_DurationMs record;
           tcr_CreatedAt := tcr_CreatedAt record;
           tcr_UpdatedAt := now;
           tcr_AuditTrail := tcr_AuditTrail record ++
             [ {| ae_State := st; ae_Timestamp := now; ae_Note := "" |} ] |} in
      modifyAgent (λ a, set_toolRecords (<[id := record']> (toolRecords a)) a)
  end.

(** [Executor.Execute] *)
Definition Executor_Execute (defaultTimeout : Z) (req : ExecuteRequest)
  : M ExecuteResult :=
  let* startTime := timeNow in
  let* done :=
    (λ s, let e := env s in
          Some (hd false (ctxDone e),
                {| ag := ag s;
                   env := {| clock := clock e; storeScript := storeScript e;
                             storeLog := storeLog e; spawned := spawned e;
                             executed := executed e;
                             ctxDone := tl (ctxDone e) |} |})) in
  if done : bool then
    let* endTime := timeNow in
    ret {| Success := false; Output := VNil; Error := Some "context canceled";
           DurationMs := 0; StartedAt := startTime; EndedAt := endTime |}
  else
    let* out :=
      (λ s, let e := env s in
            let '(r, ps) := Execute (req_Tool req) (req_Input req)
                                    (req_Context req) (spawned e) in
            Some (r,
                  {| ag := ag s;
                     env := {| clock := clock e; storeScript := storeScript e;
                               storeLog := storeLog e; spawned := ps;
                               executed := executed e ++
                                 [(Name (req_Tool req), req_Input req)];
                               ctxDone := ctxDone e |} |})) in
    let* endTime := timeNow in
    ret {| Success := match out.2 with None => true | Some _ => false end;
           Output := out.1; Error := out.2;
           DurationMs := Z.of_nat (endTime - startTime);
           StartedAt := startTime; EndedAt := endTime |}.

(** The content of an error tool result: [{"ok": false, "error": msg}]. *)
Definition errorContent (msg : string) : Value :=
  VMap [("ok", VBool false); ("error", VString msg)].

Definition errorText (e : option string) : string := default "" e.

(** [executeSingleTool], on the block [ToolUseBlock tuID tuName tuInput]. *)
Definition executeSingleTool (tuID tuName : string) (tuInput : InputMap)
  : M ContentBlock :=
  let* now := timeNow in
  let record := NewToolCallRecord tuID tuName tuInput now in
  modifyAgent (λ a, set_toolRecords (<[tuID := record]> (toolRecords a)) a);;
  emit (ProgressToolStartEvent
          {| snap_ID := tcr_ID record; snap_Name := tcr_Name record;
             snap_State := tcr_State record |});;
  let* a := getAgent in
  match toolMap a !! tuName with
  | None =>
      let errorMsg := "tool not found: " +:+ tuName in
      updateToolRecord tuID ToolCallStateFailed errorMsg;;
      emit (ProgressToolErrorEvent
              {| snap_ID := tuID; snap_Name := tuName;
                 snap_State := ToolCallStateFailed |} errorMsg);;
      ret (ToolResultBlock tuID (errorContent errorMsg) true)
  | Some tool =>
      setBreakpoint BreakpointPreTool;;
      updateToolRecord tuID ToolCallStateExecuting "";;
      setBreakpoint BreakpointToolExecuting;;
      let* startTime := timeNow in
      let toolCtx := {| AgentID := id a; Sandbox := sandbox a |} in
      let* execResult :=
        Executor_Execute (60 * second)
          {| req_Tool := tool; req_Input := tuInput; req_Context := toolCtx;
             req_Timeout := 60 * second |} in
      let* endTime := timeNow in
      (if Success execResult then
         updateToolRecord tuID ToolCallStateCompleted "";;
         modifyAgent (λ a,
           set_toolRecords
             (alter (λ r,
                {| tcr_ID := tcr_ID r; tcr_Name := tcr_Name r;
                   tcr_Input := tcr_Input r; tcr_State := tcr_State r;
                   tcr_ApprovalRequired := tcr_ApprovalRequired r;
                   tcr_Result := Some (Output execResult);
                   tcr_Error := tcr_Error r; tcr_IsError := tcr_IsError r;
                   tcr_StartedAt := Some startTime;
                   tcr_CompletedAt := Some endTime;
                   tcr_DurationMs := Some (DurationMs execResult);
                   tcr_CreatedAt := tcr_CreatedAt r;
                   tcr_UpdatedAt := tcr_UpdatedAt r;
                   tcr_AuditTrail := tcr_AuditTrail r |}) tuID (toolRecords a)) a)
       else
         updateToolRecord tuID ToolCallStateFailed (errorText (Error execResult)));;
      let* a' := getAgent in
      let* r := match toolRecords a' !! tuID with
                | Some r => ret r
                | None => panic
                end in
      emit (ProgressToolEndEvent
              {| snap_ID := tuID; snap_Name := tuName;
                 snap_State :=
                   tcr_State r |});;
      setBreakpoint BreakpointPostTool;;
      if Success execResult then
        ret (ToolResultBlock tuID (Output execResult) false)
      else
        ret (ToolResultBlock tuID (errorContent (errorText (Error execResult))) true)
  end.

(** *** The step loop *)

Section StepLoop.

(** [json.Unmarshal] into a [map[string]interface{}]: the decoded object,
    or [None] when it reports an error.  It belongs to Go's library. *)
Variable json_Unmarshal : string → option InputMap.

(** The local variables of the chunk loop of [runModelStep]. *)
Record Assembly := {
  assistantContent : list ContentBlock;
  currentBlockIndex : Z;
  textBuffers : gmap Z string;
  inputJSONBuffers : gmap Z string;
}.

Definition emptyAssembly : Assembly :=
  {| assistantContent := []; currentBlockIndex := -1;
     textBuffers := ∅; inputJSONBuffers := ∅ |}.

(** [v, _ := delta[k].(string)] *)
Definition stringAt (delta : InputMap) (k : string) : string :=
  match delta !! k with
  | Some (VString s) => s
  | _ => ""
  end.

(** [delta[k].(string)], which panics on anything but a string. *)
Definition mustStringAt (delta : InputMap) (k : string) : M string :=
  match delta !! k with
  | Some (VString s) => ret s
  | _ => panic
  end.

(** [for len(c) <= i { c = append(c, nil) }], for [0 <= i]. *)
Definition padTo (c : list ContentBlock) (i : nat) : list ContentBlock :=
  c ++ replicate (S i - length c) NilBlock.

(** [c[i]], which panics out of range. *)
Definition slot (c : list ContentBlock) (i : Z) : M ContentBlock :=
  if i <? 0 then panic
  else match c !! Z.to_nat i with
       | Some b => ret b
       | None => panic
       end.

(** [c[i] = b] after the padding loop; a negative index panics. *)
Definition setSlot (c : list ContentBlock) (i : Z) (b : ContentBlock)
  : M (list ContentBlock) :=
  if i <? 0 then panic
  else ret (<[Z.to_nat i := b]> (padTo c (Z.to_nat i))).

Definition bufferAt (m : gmap Z string) (i : Z) : string := default "" (m !! i).

Definition withContent (asm : Assembly) (c : list ContentBlock) : Assembly :=
  {| assistantContent := c; currentBlockIndex := currentBlockIndex asm;
     textBuffers := textBuffers asm; inputJSONBuffers := inputJSONBuffers asm |}.

(** [case "content_block_start"] *)
Definition onBlockStart (asm : Assembly) (chunk : StreamChunk) : M Assembly :=
  let idx := Index chunk in
  let asm :=
    {| assistantContent := assistantContent asm; currentBlockIndex := idx;
       textBuffers := textBuffers asm;
       inputJSONBuffers := inputJSONBuffers asm |} in
  match Delta chunk with
  | None => ret asm
  | Some delta =>
      let blockType := stringAt delta "type" in
      if String.eqb blockType "text" then
        let* a := getAgent in
        emit (ProgressTextChunkStartEvent (stepCount a));;
        let* c := setSlot (assistantContent asm) idx (TextBlock "") in
        ret {| assistantContent := c; currentBlockIndex := idx;
               textBuffers := <[idx := ""]> (textBuffers asm);
               inputJSONBuffers := inputJSONBuffers asm |}
      else if String.eqb blockType "tool_use" then
        let* tid := mustStringAt delta "id" in
        let* tname := mustStringAt delta "name" in
        let* c := setSlot (assistantContent asm) idx (ToolUseBlock tid tname ∅) in
        ret (withContent asm c)
      else ret asm
  end.

(** [case "content_block_delta"] *)
Definition onBlockDelta (asm : Assembly) (chunk : StreamChunk) : M Assembly :=
  match Delta chunk with
  | None => ret asm
  | Some delta =>
      let cur := currentBlockIndex asm in
      let deltaType := stringAt delta "type" in
      if String.eqb deltaType "text_delta" then
        let text := stringAt delta "text" in
        let tb := <[cur := bufferAt (textBuffers asm) cur +:+ text]> (textBuffers asm) in
        let* b := slot (assistantContent asm) cur in
        let c := match b with
                 | TextBlock _ =>
                     <[Z.to_nat cur := TextBlock (bufferAt tb cur)]> (assistantContent asm)
                 | _ => assistantContent asm
                 end in
        let* a := getAgent in
        emit (ProgressTextChunkEvent (stepCount a) text);;
        ret {| assistantContent := c; currentBlockIndex := cur;
               textBuffers := tb; inputJSONBuffers := inputJSONBuffers asm |}
      else if String.eqb deltaType "input_json_delta" then
        let partialJSON := stringAt delta "partial_json" in
        ret {| assistantContent := assistantContent asm; currentBlockIndex := cur;
               textBuffers := textBuffers asm;
               inputJSONBuffers :=
                 <[cur := bufferAt (inputJSONBuffers asm) cur +:+ partialJSON]>
                   (inputJSONBuffers asm) |}
      else ret asm
  end.

(** [case "content_block_stop"] *)
Definition onBlockStop (asm : Assembly) (chunk : StreamChunk) : M Assembly :=
  let cur := currentBlockIndex asm in
  let* b := slot (assistantContent asm) cur in
  match b with
  | TextBlock text =>
      let* a := getAgent in
      emit (ProgressTextChunkEndEvent (stepCount a) text);;
      ret asm
  | ToolUseBlock tid tname input0 =>
      match inputJSONBuffers asm !! cur with
      | Some jsonStr =>
          if String.eqb jsonStr "" then ret asm
          else match json_Unmarshal jsonStr with
               | Some input =>
                   ret (withContent asm
                          (<[Z.to_nat cur := ToolUseBlock tid tname input]>
                             (assistantContent asm)))
               | None => ret asm
               end
      | None => ret asm
      end
  | _ => ret asm
  end.

(** [case "message_delta"] *)
Definition onMessageDelta (asm : Assembly) (chunk : StreamChunk) : M Assembly :=
  match Usage chunk with
  | Some u =>
      emit (MonitorTokenUsageEvent (InputTokens u) (OutputTokens u)
              (GoInt.add (InputTokens u) (OutputTokens u)));;
      ret asm
  | None => ret asm
  end.

(** The body of [for chunk := range stream]. *)
Definition onChunk (asm : Assembly) (chunk : StreamChunk) : M Assembly :=
  if String.eqb (Type_ chunk) "content_block_start" then onBlockStart asm chunk
  else if String.eqb (Type_ chunk) "content_block_delta" then onBlockDelta asm chunk
  else if String.eqb (Type_ chunk) "content_block_stop" then onBlockStop asm chunk
  else if String.eqb (Type_ chunk) "message_delta" then onMessageDelta asm chunk
  else ret asm.

(** The tool-use blocks of an assistant message, in order. *)
Definition toolUsesOf (c : list ContentBlock) : list (string * string * InputMap) :=
  omap (λ b, match b with
             | ToolUseBlock tid tname input => Some (tid, tname, input)
             | _ => None
             end) c.

(** [Store.SaveMessages(ctx, a.id, a.messages)] *)
Definition saveMessages : M (option string) :=
  let* a := getAgent in
  let* r := storeCall (SaveMessagesCall (id a) (messages a)) in
  ret (replyError r).

(** [executeTools]; [continue] is the call of [runModelStep] that ends it. *)
Definition executeTools (continue : M (option string))
    (toolUses : list (string * string * InputMap)) : M (option string) :=
  let* toolResults :=
    mapM (λ tu : string * string * InputMap,
            executeSingleTool tu.1.1 tu.1.2 tu.2) toolUses in
  modifyAgent (λ a,
    set_stepCount (GoInt.incr (stepCount a))
      (set_messages (messages a ++
         [ {| Role := MessageRoleUser; Content := toolResults |} ]) a));;
  let* err := saveMessages in
  match err with
  | Some e => ret (Some ("save messages: " +:+ e))
  | None =>
      let* a := getAgent in
      let records := (map_to_list (toolRecords a)).*2 in
      let* r := storeCall (SaveToolCallRecordsCall (id a) records) in
      match replyError r with
      | Some e => ret (Some ("save tool records: " +:+ e))
      | None => continue
      end
  end.

(** [runModelStep].  The provider answers the successive calls of [Stream]
    with the replies of [script], and with an error once it is used up. *)
Fixpoint runModelStep (script : list StreamReply) : M (option string) :=
  setBreakpoint BreakpointStreamingModel;;
  match script with
  | [] => ret (Some ("stream model: " +:+ "no reply"))
  | StreamError e :: _ => ret (Some ("stream model: " +:+ e))
  | StreamChunks chunks :: script' =>
      let* asm := foldM onChunk chunks emptyAssembly in
      modifyAgent (λ a,
        set_messages (messages a ++
          [ {| Role := MessageRoleAssistant;
               Content := assistantContent asm |} ]) a);;
      let* err := saveMessages in
      match err with
      | Some e => ret (Some ("save messages: " +:+ e))
      | None =>
          let toolUses := toolUsesOf (assistantContent asm) in
          if (0 <? length toolUses)%nat then
            setBreakpoint BreakpointToolPending;;
            executeTools (runModelStep script') toolUses
          else ret None
      end
  end.

(** [processMessages] *)
Definition processMessages (script : list StreamReply) : M unit :=
  let* a := getAgent in
  if decide (state a = AgentStateReady) then
    modifyAgent (set_state AgentStateWorking);;
    emit (MonitorStateChangedEvent AgentStateWorking);;
    setBreakpoint BreakpointPreModel;;
    let* err := runModelStep script in
    match err with
    | Some e => emit (MonitorErrorEvent "error" "model" e)
    | None => ret tt
    end;;
    let* a := getAgent in
    emit (ProgressDoneEvent (stepCount a) "completed");;
    emit (MonitorStateChangedEvent AgentStateReady);;
    modifyAgent (set_state AgentStateReady)
  else ret tt.

(** [Send]: the error it returns; without an error the step loop is started
    in a goroutine. *)
Definition Send (text : string) : M (option string) :=
  modifyAgent (λ a,
    set_stepCount (GoInt.incr (stepCount a))
      (set_messages (messages a ++
         [ {| Role := MessageRoleUser; Content := [TextBlock text] |} ]) a));;
  let* err := saveMessages in
  match err with
  | Some e => ret (Some ("save messages: " +:+ e))
  | None => ret None
  end.

(** [Send] followed by the run of the goroutine it starts. *)
Definition SendAndProcess (script : list StreamReply) (text : string)
  : M (option string) :=
  let* err := Send text in
  match err with
  | Some e => ret (Some e)
  | None => processMessages script;; ret None
  end.

End StepLoop.

(** *** Streams that start a tool-use slot *)

(** [c] is a [content_block_start] chunk that opens a tool-use block with
    the id [tid] and the name [tname] at a slot that exists. *)
Definition startsToolUse (c : StreamChunk) (tid tname : string) : Prop :=
  Type_ c = "content_block_start"
  ∧ 0 ≤ Index c
  ∧ ∃ d, Delta c = Some d
         ∧ stringAt d "type" = "tool_use"
         ∧ d !! "id" = Some (VString tid)
         ∧ d !! "name" = Some (VString tname).

(** The JSON text buffered for the current slot after the delta chunks
    [deltas], from the text [b0] buffered before. *)
Definition jsonBuffered (b0 : string) (deltas : list StreamChunk) : string :=
  fold_left (λ b c,
               match Delta c with
               | Some d =>
                   if String.eqb (stringAt d "type") "text_delta" then b
                   else if String.eqb (stringAt d "type") "input_json_delta"
                        then b +:+ stringAt d "partial_json"
                        else b
               | None => b
               end) deltas b0.

(** The slot [idx] is the current one, holds the tool-use block [tid],
    [tname] with the empty input it was started with, and [b] is the JSON
    text buffered for it. *)
Definition toolSlotOpen (idx : Z) (tid tname : string) (asm : Assembly)
    (b : string) : Prop :=
  currentBlockIndex asm = idx
  ∧ assistantContent asm !! Z.to_nat idx = Some (ToolUseBlock tid tname ∅)
  ∧ bufferAt (inputJSONBuffers asm) idx = b.

(** *** Construction *)

(** Modelled from the spec: the declaration of [Dependencies] and the
    template, provider and tool registries behind it are not among the
    source files.  [agent.Create] only calls [TemplateRegistry.Get],
    [ProviderFactory.Create], [SandboxFactory.Create], [ToolRegistry.Create]
    and [ToolRegistry.List]; each is a function returning its result or an
    error.  The store of the dependencies is the scripted store of [Env]. *)
Record Dependencies := {
  TemplateRegistry_Get : string → config.AgentTemplateDefinition + string;
  ProviderFactory_Create : config.ModelConfig → unit + string;
  ToolRegistry_Create : string → Tool + string;
  ToolRegistry_List : list string;
}.

(** [generateAgentID], from the UUID drawn. *)
Definition generateAgentID (uuid : string) : string := "agt:" +:+ uuid.

(** [for _, name := range toolNames { ... toolMap[name] = tool }] *)
Definition buildToolMap (deps : Dependencies) (toolNames : list string)
  : gmap string Tool :=
  fold_left (λ m name,
               match ToolRegistry_Create deps name with
               | inl tool => <[name := tool]> m
               | inr _ => m
               end) toolNames ∅.

(** [initialize] *)
Definition initialize (templateID : string) : M (option string) :=
  let* a := getAgent in
  let* r := storeCall (LoadMessagesCall (id a)) in
  match r with
  | ReplyMessages (m :: ms) => modifyAgent (set_messages (m :: ms))
  | _ => ret tt
  end;;
  let* r := storeCall (LoadToolCallRecordsCall (id a)) in
  match r with
  | ReplyRecords rs =>
      modifyAgent (λ a,
        set_toolRecords
          (fold_left (λ m record, <[tcr_ID record := record]> m) rs (toolRecords a)) a)
  | ReplyError _ => ret tt
  | _ => ret tt
  end;;
  let* a := getAgent in
  let* r := storeCall (SaveInfoCall (id a) templateID (createdAt a)
                         (Z.of_nat (length (messages a)))) in
  ret (replyError r).

(** [Create]: the configuration as the call leaves it (an empty [AgentID]
    is filled in), the agent or the error, and the environment. *)
Definition Create (h : Host) (deps : Dependencies) (uuid : string)
    (cfg : config.AgentConfig) (e : Env)
  : config.AgentConfig * (Agent + string) * Env :=
  let cfg :=
    if String.eqb (config.AgentID cfg) "" then
      {| config.AgentID := generateAgentID uuid;
         config.TemplateID := config.TemplateID cfg;
         config.ModelConfig_ := config.ModelConfig_ cfg;
         config.Sandbox_ := config.Sandbox_ cfg;
         config.Tools := config.Tools cfg |}
    else cfg in
  match TemplateRegistry_Get deps (config.TemplateID cfg) with
  | inr err => (cfg, inr ("get template: " +:+ err), e)
  | inl template =>
      let modelConfig :=
        match config.ModelConfig_ cfg with
        | Some mc => Some mc
        | None =>
            if String.eqb (config.tpl_Model template) "" then None
            else Some {| config.mc_Provider := "anthropic";
                         config.mc_Model := config.tpl_Model template;
                         config.mc_APIKey := ""; config.mc_BaseURL := "" |}
        end in
      match modelConfig with
      | None => (cfg, inr "model config is required", e)
      | Some mc =>
          match ProviderFactory_Create deps mc with
          | inr err => (cfg, inr ("create provider: " +:+ err), e)
          | inl _ =>
              let sandboxConfig :=
                match config.Sandbox_ cfg with
                | Some sc => sc
                | None => {| config.sc_Kind := config.SandboxKindLocal;
                             config.sc_WorkDir := ".";
                             config.sc_EnforceBoundary := false;
                             config.sc_AllowPaths := [];
                             config.sc_WatchFiles := false;
                             config.sc_Extra := None |}
                end in
              match Factory_Create h (Some sandboxConfig) with
              | inr err => (cfg, inr ("create sandbox: " +:+ err), e)
              | inl sb =>
                  let toolNames :=
                    match config.Tools cfg with
                    | Some names => names
                    | None =>
                        match config.tpl_Tools template with
                        | config.ToolsList names => names
                        | config.ToolsAll => ToolRegistry_List deps
                        | config.ToolsOther => []
                        end
                    end in
                  let a :=
                    {| id := config.AgentID cfg;
                       systemPrompt := config.tpl_SystemPrompt template;
                       sandbox := sb;
                       toolMap := buildToolMap deps toolNames;
                       state := AgentStateReady;
                       breakpoint := BreakpointReady;
                       messages := [];
                       toolRecords := ∅;
                       stepCount := 0;
                       lastSfpIndex := 0;
                       createdAt := clock e;
                       eventBus := [] |} in
                  let e1 :=
                    {| clock := S (clock e); storeScript := storeScript e;
                       storeLog := storeLog e; spawned := spawned e;
                       executed := executed e; ctxDone := ctxDone e |} in
                  match initialize (config.tpl_ID template) {| ag := a; env := e1 |} with
                  | Some (Some err, s) =>
                      (cfg, inr ("initialize agent: " +:+ err), env s)
                  | Some (None, s) => (cfg, inl (ag s), env s)
                  | None => (cfg, inr "initialize agent: panic", e1)
                  end
              end
          end
      end
  end.

(** *** What the claims about the engine speak of *)

(** The transitions [executeSingleTool] performs on a record. *)
Definition engineEdge (a b : ToolCallState) : bool :=
  match a, b with
  | ToolCallStatePending, (ToolCallStateFailed | ToolCallStateExecuting) => true
  | ToolCallStateExecuting, (ToolCallStateCompleted | ToolCallStateFailed) => true
  | _, _ => false
  end.

(** The states the record of call [tuID] went through. *)
Definition trailOf (s : St) (tuID : string) : option (list ToolCallState) :=
  trailStates <$> toolRecords (ag s) !! tuID.

(** A message of tool results, as [executeTools] appends one per round. *)
Definition toolResultMessage (m : Message) : bool :=
  match Role m, Content m with
  | MessageRoleUser, ToolResultBlock _ _ _ :: _ => true
  | _, _ => false
  end.

(** The number of completed tool rounds recorded in a history. *)
Definition toolRounds (msgs : list Message) : Z :=
  Z.of_nat (length (List.filter toolResultMessage msgs)).

(** A computation that leaves the step count and the message history as
    they are. *)
Definition keepsHistory {A} (m : M A) : Prop :=
  ∀ s x s', m s = Some (x, s') →
            stepCount (ag s') = stepCount (ag s)
            ∧ messages (ag s') = messages (ag s).

(** The [MonitorError] events emitted so far. *)
Definition monitorErrors (s : St) : list Event :=
  List.filter isMonitorError (eventBus (ag s)).

(** The outcome the specification gives for a denied call: the record goes
    from PENDING to DENIED, the result block carries the denial, and the
    executor is not invoked. *)
Definition deniedOutcome (tuID tuName : string) (tuInput : InputMap) (s : St)
  : Prop :=
  ∃ res s',
    executeSingleTool tuID tuName tuInput s = Some (res, s')
    ∧ trailOf s' tuID = Some [ToolCallStatePending; ToolCallStateDenied]
    ∧ res = ToolResultBlock tuID (errorContent "tool is in deny list") true
    ∧ executed (env s') = executed (env s).

(** Every transition of the record of call [tuID] is a legal edge. *)
Definition legalTrail (s : St) (tuID : string) : Prop :=
  ∃ trail, trailOf s tuID = Some trail
           ∧ forallb (λ e, legalEdge e.1 e.2) (edgesOf trail) = true.

(** The step count has grown by the number of tool rounds, and by nothing
    else. *)
Definition grownByRounds (s s' : St) : Prop :=
  stepCount (ag s')
  = GoInt.add (stepCount (ag s))
      (toolRounds (messages (ag s')) - toolRounds (messages (ag s))).

(** A [MonitorError] event of severity warn is among the events emitted
    between [s] and [s']. *)
Definition warnEmitted (s s' : St) : Prop :=
  ∃ phase msg,
    MonitorErrorEvent "warn" phase msg
    ∈ drop (length (eventBus (ag s))) (eventBus (ag s')).

(** What a run shows of its final state: the step count with the number of
    tool rounds, and the events. *)
Definition stepsAndRounds {A} (o : option (A * St)) : option (Z * Z) :=
  match o with
  | Some (_, s') => Some (stepCount (ag s'), toolRounds (messages (ag s')))
  | None => None
  end.

Definition eventsOf {A} (o : option (A * St)) : option (list Event) :=
  match o with
  | Some (_, s') => Some (eventBus (ag s'))
  | None => None
  end.

(** The chunks are assembled and a warning is emitted on the way. *)
Definition parseFailureReported (json : string → option InputMap)
    (chunks : list StreamChunk) (asm : Assembly) (s : St) : Prop :=
  ∃ asm' s',
    foldM (onChunk json) chunks asm s = Some (asm', s') ∧ warnEmitted s s'.

(** *** What the further properties of the engine speak of *)

(** A computation every run of which takes the agent to one related to
    it by [R]. *)
Definition respects {A} (R : relation Agent) (m : M A) : Prop :=
  ∀ s x s', m s = Some (x, s') → R (ag s) (ag s').

(** The agent is the same as far as its identity and its equipment go. *)
Definition sameEquipment : relation Agent :=
  λ a a', id a' = id a ∧ systemPrompt a' = systemPrompt a
          ∧ sandbox a' = sandbox a ∧ toolMap a' = toolMap a
          ∧ createdAt a' = createdAt a.

(** The runtime state is the same. *)
Definition sameState : relation Agent := λ a a', state a' = state a.

(** The history and the events have only been appended to. *)
Definition grown : relation Agent :=
  λ a a', messages a `prefix_of` messages a'
          ∧ eventBus a `prefix_of` eventBus a'.

(** The ids the tool-result blocks of a message answer, in order. *)
Definition resultIDs (c : list ContentBlock) : list string :=
  omap (λ b, match b with
             | ToolResultBlock tid _ _ => Some tid
             | _ => None
             end) c.

(** The ids of the tool-use blocks of a message, in order. *)
Definition toolUseIDs (c : list ContentBlock) : list string :=
  (λ tu : string * string * InputMap, tu.1.1) <$> toolUsesOf c.

(** [m] answers [asked]: it is a user message made of tool results only,
    one for each tool use of [asked], in the same order. *)
Definition answers (asked m : Message) : bool :=
  match Role m with
  | MessageRoleUser =>
      bool_decide (resultIDs (Content m) = toolUseIDs (Content asked))
      && bool_decide (length (Content m) = length (toolUseIDs (Content asked)))
  | _ => false
  end.

(** In a stretch of history every assistant message that asks for tools is
    followed at once by the message that answers it, unless it is the last
    message of the stretch. *)
Fixpoint resultsFollow (msgs : list Message) : bool :=
  match msgs with
  | [] => true
  | m :: rest =>
      match Role m, toolUseIDs (Content m), rest with
      | MessageRoleAssistant, _ :: _, r :: _ => answers m r
      | _, _, _ => true
      end && resultsFollow rest
  end.

(** The texts of the [text_delta] chunks among [deltas], in order. *)
Definition deltaTexts (deltas : list StreamChunk) : list string :=
  omap (λ c, match Delta c with
             | Some d =>
                 if String.eqb (stringAt d "type") "text_delta"
                 then Some (stringAt d "text") else None
             | None => None
             end) deltas.

(** [c] is a [content_block_start] chunk that opens a text block at a slot
    that exists. *)
Definition startsText (c : StreamChunk) : Prop :=
  Type_ c = "content_block_start"
  ∧ 0 ≤ Index c
  ∧ ∃ d, Delta c = Some d ∧ stringAt d "type" = "text".

(** The slot [idx] is the current one, holds the text block with the text
    [b], and [b] is the text buffered for it. *)
Definition textSlotOpen (idx : Z) (asm : Assembly) (b : string) : Prop :=
  currentBlockIndex asm = idx
  ∧ assistantContent asm !! Z.to_nat idx = Some (TextBlock b)
  ∧ bufferAt (textBuffers asm) idx = b.

(** The texts [texts] appended to [b], in order. *)
Definition joined (b : string) (texts : list string) : string :=
  fold_left String.append texts b.

End agent.

(** ** pkg/core/pool.go *)

Module core_pool.
Import agent.

Record PoolOptions := {
  opt_Dependencies : Dependencies;
  opt_MaxAgents : Z;
}.

Record Pool := {
  agents : gmap string Agent;
  deps : Dependencies;
  maxAgents : Z;
}.

(** [NewPool] *)
Definition NewPool (opts : PoolOptions) : Pool :=
  {| agents := ∅;
     deps := opt_Dependencies opts;
     maxAgents := if opt_MaxAgents opts =? 0 then 50 else opt_MaxAgents opts |}.

(** [len(p.agents)] *)
Definition Size (p : Pool) : Z := Z.of_nat (size (agents p)).

(** [Pool.Create]: the configuration as the call leaves it, the agent or
    the error, the pool, and the environment. *)
Definition Create (h : sandbox.Host) (uuid : string) (p : Pool)
    (cfg : config.AgentConfig) (e : Env)
  : config.AgentConfig * (Agent + string) * Pool * Env :=
  match agents p !! config.AgentID cfg with
  | Some _ =>
      (cfg, inr ("agent already exists: " +:+ config.AgentID cfg), p, e)
  | None =>
      if Size p >=? maxAgents p then
        (cfg, inr ("pool is full (max " +:+ builtin.itoa (maxAgents p) +:+ " agents)"),
         p, e)
      else
        match agent.Create h (deps p) uuid cfg e with
        | (cfg', inr err, e') => (cfg', inr ("create agent: " +:+ err), p, e')
        | (cfg', inl a, e') =>
            (cfg', inl a,
             {| agents := <[config.AgentID cfg' := a]> (agents p);
                deps := deps p; maxAgents := maxAgents p |}, e')
        end
  end.

(** [Pool.Get] *)
Definition Get (p : Pool) (agentID : string) : option Agent :=
  agents p !! agentID.

(** [Pool.Remove]; [closeErr] is what [ag.Close()] returns. *)
Definition Remove (closeErr : option string) (p : Pool) (agentID : string)
  : string + Pool :=
  match agents p !! agentID with
  | None => inl ("agent not found: " +:+ agentID)
  | Some _ =>
      match closeErr with
      | Some err => inl ("close agent: " +:+ err)
      | None =>
          inr {| agents := delete agentID (agents p);
                 deps := deps p; maxAgents := maxAgents p |}
      end
  end.

(** The pool a call of [Create] leaves. *)
Definition poolAfter (h : sandbox.Host) (uuid : string) (p : Pool)
    (cfg : config.AgentConfig) (e : Env) : Pool :=
  (Create h uuid p cfg e).1.2.

(** The outcome the specification gives for a call of [Create] that meets
    neither a duplicate id nor a full pool: one new entry under the id. *)
Definition insertedOne (h : sandbox.Host) (uuid : string) (p : Pool)
    (cfg : config.AgentConfig) (e : Env) : Prop :=
  ∃ a, agents (poolAfter h uuid p cfg e)
       = <[config.AgentID cfg := a]> (agents p).

(** [Pool.List]: the ids that start with [prefix], in the order in which
    the map is ranged over. *)
Definition List (p : Pool) (prefix : string) : list string :=
  List.filter (λ id, String.eqb prefix "" || String.prefix prefix id)
    (map_to_list (agents p)).*1.

(** [Pool.Delete]; [closeErr] is what [ag.Close()] returns. *)
Definition Delete (closeErr : option string) (p : Pool) (agentID : string)
  : option string * Pool :=
  match agents p !! agentID with
  | Some _ =>
      match closeErr with
      | Some err => (Some ("close agent: " +:+ err), p)
      | None =>
          (None, {| agents := delete agentID (agents p);
                    deps := deps p; maxAgents := maxAgents p |})
      end
  | None => (None, p)
  end.

(** [Pool.Shutdown]; [closeErr id] is what [Close()] returns on the agent
    stored under [id]. *)
Definition Shutdown (closeErr : string → option string) (p : Pool)
  : option string * Pool :=
  let lastErr :=
    fold_left (λ (lastErr : option string) (kv : string * Agent),
                 match closeErr kv.1 with
                 | Some err => Some ("close agent " +:+ kv.1 +:+ ": " +:+ err)
                 | None => lastErr
                 end) (map_to_list (agents p)) None in
  (lastErr, {| agents := ∅; deps := deps p; maxAgents := maxAgents p |}).

(** [Pool.ForEach], for a function that returns an error or nil. *)
Definition ForEach (p : Pool) (fn : string → Agent → option string)
  : option string :=
  (fix loop (l : list (string * Agent)) : option string :=
     match l with
     | [] => None
     | (id, ag) :: l' =>
         match fn id ag with
         | Some err => Some err
         | None => loop l'
         end
     end) (map_to_list (agents p)).

(** [Pool.Resume]: the configuration as the call leaves it, the agent or
    the error, the pool, and the environment. *)
Definition Resume (h : sandbox.Host) (uuid : string) (p : Pool)
    (agentID : string) (cfg : config.AgentConfig) (e : Env)
  : config.AgentConfig * (Agent + string) * Pool * Env :=
  match agents p !! agentID with
  | Some ag => (cfg, inl ag, p, e)
  | None =>
      if Size p >=? maxAgents p then
        (cfg, inr ("pool is full (max " +:+ builtin.itoa (maxAgents p) +:+ " agents)"),
         p, e)
      else
        let r := hd store.ReplyOk (storeScript e) in
        let e1 :=
          {| clock := clock e; storeScript := tl (storeScript e);
             storeLog := storeLog e ++ [store.LoadMessagesCall agentID];
             spawned := spawned e; executed := executed e;
             ctxDone := ctxDone e |} in
        match store.replyError r with
        | Some _ => (cfg, inr ("agent not found in store: " +:+ agentID), p, e1)
        | None =>
            let cfg1 :=
              {| config.AgentID := agentID;
                 config.TemplateID := config.TemplateID cfg;
                 config.ModelConfig_ := config.ModelConfig_ cfg;
                 config.Sandbox_ := config.Sandbox_ cfg;
                 config.Tools := config.Tools cfg |} in
            match agent.Create h (deps p) uuid cfg1 e1 with
            | (cfg', inr err, e') => (cfg', inr ("resume agent: " +:+ err), p, e')
            | (cfg', inl a, e') =>
                (cfg', inl a,
                 {| agents := <[agentID := a]> (agents p);
                    deps := deps p; maxAgents := maxAgents p |}, e')
            end
        end
  end.

(** The calls that change a pool, and a run of them. *)
Inductive PoolCall :=
| CallCreate (uuid : string) (cfg : config.AgentConfig)
| CallResume (uuid agentID : string) (cfg : config.AgentConfig)
| CallRemove (closeErr : option string) (agentID : string)
| CallDelete (closeErr : option string) (agentID : string)
| CallShutdown (closeErr : string → option string).

Definition runCall (h : sandbox.Host) (pe : Pool * Env) (c : PoolCall)
  : Pool * Env :=
  let '(p, e) := pe in
  match c with
  | CallCreate uuid cfg =>
      let '(_, _, p', e') := Create h uuid p cfg e in (p', e')
  | CallResume uuid agentID cfg =>
      let '(_, _, p', e') := Resume h uuid p agentID cfg e in (p', e')
  | CallRemove closeErr agentID =>
      match Remove closeErr p agentID with
      | inr p' => (p', e)
      | inl _ => (p, e)
      end
  | CallDelete closeErr agentID => ((Delete closeErr p agentID).2, e)
  | CallShutdown closeErr => ((Shutdown closeErr p).2, e)
  end.

Definition runCalls (h : sandbox.Host) (pe : Pool * Env) (cs : list PoolCall)
  : Pool * Env :=
  fold_left (runCall h) cs pe.

End core_pool.

(** ** pkg/core/room.go *)

Module core_room.
Import core_pool.

Record RoomMessage := {
  From : string;
  To : list string;
  Text : string;
  Sent : Z;
}.

(** [Room]; the pool it points to is passed to the operations. *)
Record Room := {
  members : gmap string string;
  history : list RoomMessage;
}.

Definition NewRoom : Room := {| members := ∅; history := [] |}.

(** [Join] *)
Definition Join (p : Pool) (r : Room) (name agentID : string) : string + Room :=
  match members r !! name with
  | Some _ => inl ("member already exists: " +:+ name)
  | None =>
      match Get p agentID with
      | None => inl ("agent not found: " +:+ agentID)
      | Some _ => inr {| members := <[name := agentID]> (members r);
                         history := history r |}
      end
  end.

(** [Leave] *)
Definition Leave (r : Room) (name : string) : string + Room :=
  match members r !! name with
  | None => inl ("member not found: " +:+ name)
  | Some _ => inr {| members := delete name (members r); history := history r |}
  end.

(** The first submatches of [mentionRegex.FindAllStringSubmatch(text, -1)]
    for the pattern [@(\w+)]: the successive leftmost matches, each an [@]
    followed by the longest run of word bytes, which is not empty.  [cur]
    is the run being read after an [@], if any. *)
Fixpoint scanMentions (text : string) (cur : option string) (acc : list string)
  : list string :=
  let close (cur : option string) (acc : list string) :=
    match cur with
    | Some w => if String.eqb w "" then acc else acc ++ [w]
    | None => acc
    end in
  match text with
  | EmptyString => close cur acc
  | String c text' =>
      match cur with
      | Some w =>
          if regexp.isWord c then scanMentions text' (Some (w +:+ String c "")) acc
          else if Ascii.eqb c "@" then scanMentions text' (Some "") (close cur acc)
          else scanMentions text' None (close cur acc)
      | None =>
          if Ascii.eqb c "@" then scanMentions text' (Some "") acc
          else scanMentions text' None acc
      end
  end.

(** The loop of [extractMentions]: names not seen before are appended. *)
Fixpoint dedupe (names : list string) (seen : gset string) : list string :=
  match names with
  | [] => []
  | name :: names' =>
      if decide (name ∈ seen) then dedupe names' seen
      else name :: dedupe names' ({[name]} ∪ seen)
  end.

(** [extractMentions] *)
Definition extractMentions (text : string) : list string :=
  dedupe (scanMentions text None []) ∅.

(** A goroutine started by [Say]: [agent.Send(ctx, txt)] on the agent
    [agentID] of the pool, for the member [memberName]. *)
Record Delivery := {
  memberName : string;
  agentID : string;
  txt : string;
}.

(** [targets] of [Say]. *)
Definition sayTargets (r : Room) (from : string) (mentions : list string)
  : gmap string string :=
  if (0 <? length mentions)%nat then
    fold_left (λ targets mention,
                 match members r !! mention with
                 | Some agentID => <[mention := agentID]> targets
                 | None => targets
                 end) mentions ∅
  else
    filter (λ kv : string * string, kv.1 ≠ from) (members r).

(** [Say] at time [now]: an error, or the room and the goroutines started,
    in the order in which the map of targets is ranged over. *)
Definition Say (p : Pool) (r : Room) (from text : string) (now : Z)
  : string + (Room * list Delivery) :=
  match members r !! from with
  | None => inl ("sender is not a member: " +:+ from)
  | Some _ =>
      let mentions := extractMentions text in
      let msg := {| From := from;
                    To := if (0 <? length mentions)%nat then mentions else [];
                    Text := text; Sent := now |} in
      let targets := sayTargets r from mentions in
      let formattedText := "[from:" +:+ from +:+ "] " +:+ text in
      let sends :=
        omap (λ kv : string * string,
                match Get p kv.2 with
                | Some _ => Some {| memberName := kv.1; agentID := kv.2;
                                    txt := formattedText |}
                | None => None
                end) (map_to_list targets) in
      inr ({| members := members r; history := history r ++ [msg] |}, sends)
  end.

(** The members a run of [Say] delivers to. *)
Definition delivered (ds : list Delivery) : gset string :=
  list_to_set (memberName <$> ds).

(** The routing the specification states for a message with mentions: it
    is delivered exactly to the mentioned names that are members. *)
Definition routedToMentions (p : Pool) (r : Room) (from text : string)
    (now : Z) : Prop :=
  ∃ r' ds,
    Say p r from text now = inr (r', ds)
    ∧ delivered ds = list_to_set (extractMentions text) ∩ dom (members r).

(** The names a run of [Say] delivers to, if it runs. *)
Definition deliveredNames (o : string + (Room * list Delivery))
  : option (list string) :=
  match o with
  | inr (_, ds) => Some (memberName <$> ds)
  | inl _ => None
  end.

(** [Broadcast] at time [now]: the room and the goroutines started, one for
    each entry of the copy of the members whose agent the pool holds; the
    text is sent as it is. *)
Definition Broadcast (p : Pool) (r : Room) (text : string) (now : Z)
  : Room * list Delivery :=
  let targets := members r in
  let msg := {| From := "system"; To := []; Text := text; Sent := now |} in
  let sends :=
    omap (λ kv : string * string,
            match Get p kv.2 with
            | Some _ => Some {| memberName := kv.1; agentID := kv.2; txt := text |}
            | None => None
            end) (map_to_list targets) in
  ({| members := members r; history := history r ++ [msg] |}, sends).

(** [SendTo] at time [now]: the error returned, the room, and the call of
    [ag.Send] made, if any; [sendErr] is what that call returns. *)
Definition SendTo (sendErr : option string) (p : Pool) (r : Room)
    (from to text : string) (now : Z) : option string * Room * list Delivery :=
  if negb (bool_decide (is_Some (members r !! from)))
     && negb (String.eqb from "system") then
    (Some ("sender is not a member: " +:+ from), r, [])
  else
    match members r !! to with
    | None => (Some ("recipient not found: " +:+ to), r, [])
    | Some agentID =>
        let msg := {| From := from; To := [to]; Text := text; Sent := now |} in
        let r' := {| members := members r; history := history r ++ [msg] |} in
        match Get p agentID with
        | None => (Some ("agent not found for member " +:+ to), r', [])
        | Some _ =>
            let formattedText := "[from:" +:+ from +:+ "] " +:+ text in
            (sendErr, r',
             [ {| memberName := to; agentID := agentID; txt := formattedText |} ])
        end
    end.

(** [GetMemberCount], [IsMember], [GetAgentID], [GetHistory], [ClearHistory] *)
Definition GetMemberCount (r : Room) : Z := Z.of_nat (size (members r)).

Definition IsMember (r : Room) (name : string) : bool :=
  bool_decide (is_Some (members r !! name)).

Definition GetAgentID (r : Room) (name : string) : option string :=
  members r !! name.

Definition GetHistory (r : Room) : list RoomMessage := history r.

Definition ClearHistory (r : Room) : Room :=
  {| members := members r; history := [] |}.

(** The bytes of [s] are word bytes, the class [\w]. *)
Definition allWord (s : string) : bool :=
  forallb regexp.isWord (list_ascii_of_string s).

(** [s] does not go on with a word byte. *)
Definition wordEnds (s : string) : bool :=
  match s with
  | EmptyString => true
  | String c _ => negb (regexp.isWord c)
  end.

(** What a mention is: a non-empty run of word bytes that stands in the
    text right after an [@] and is not followed by a word byte. *)
Definition isMention (text m : string) : Prop :=
  m ≠ "" ∧ allWord m = true
  ∧ ∃ pre post, text = pre +:+ "@" +:+ m +:+ post ∧ wordEnds post = true.

End core_room.

(** ** pkg/core/scheduler.go *)

Module core_scheduler.

(** A [StepCallback] is known by a name; running it is recorded. *)
Abbreviation StepCallback := string (only parsing).

Record StepTask := {
  ID : string;
  Every : Z;
  Callback : StepCallback;
  LastTriggered : Z;
}.

(** A goroutine started by [NotifyStep]: the listener in slot [slot] or the
    callback of the task [taskID], called with [stepCount]. *)
Inductive Dispatch :=
| ListenerCall (slot : nat) (cb : StepCallback) (stepCount : Z)
| TaskCall (taskID : string) (cb : StepCallback) (stepCount : Z).

(** [Scheduler]: the step tasks, the listeners ([None] is a nil slot left by
    a cancellation), the [cancelled] flags of the cancel functions handed
    out, and the goroutines started so far. *)
Record Scheduler := {
  stepTasks : gmap string StepTask;
  stepListeners : list (option StepCallback);
  cancelledFlags : list bool;
  dispatched : list Dispatch;
}.

Definition NewScheduler : Scheduler :=
  {| stepTasks := ∅; stepListeners := []; cancelledFlags := []; dispatched := [] |}.

(** [EverySteps]; [id] is the task id [generateTaskID] builds from the
    clock. *)
Definition EverySteps (s : Scheduler) (id : string) (every : Z)
    (callback : StepCallback) : string + (string * Scheduler) :=
  if every <=? 0 then
    inl ("every must be positive, got " +:+ builtin.itoa every)
  else
    inr (id,
         {| stepTasks := <[id := {| ID := id; Every := every; Callback := callback;
                                    LastTriggered := 0 |}]> (stepTasks s);
            stepListeners := stepListeners s;
            cancelledFlags := cancelledFlags s;
            dispatched := dispatched s |}).

(** The cancel function [OnStep] returns: the slot index it captured and
    the place of its [cancelled] flag. *)
Record CancelFunc := {
  index : nat;
  flag : nat;
}.

(** [OnStep] *)
Definition OnStep (s : Scheduler) (callback : StepCallback)
  : CancelFunc * Scheduler :=
  ({| index := length (stepListeners s); flag := length (cancelledFlags s) |},
   {| stepTasks := stepTasks s;
      stepListeners := stepListeners s ++ [Some callback];
      cancelledFlags := cancelledFlags s ++ [false];
      dispatched := dispatched s |}).

(** Calling the function returned by [OnStep]. *)
Definition cancel (s : Scheduler) (f : CancelFunc) : Scheduler :=
  if default false (cancelledFlags s !! flag f) then s
  else
    {| stepTasks := stepTasks s;
       stepListeners :=
         if (index f <? length (stepListeners s))%nat
         then <[index f := None]> (stepListeners s)
         else stepListeners s;
       cancelledFlags := <[flag f := true]> (cancelledFlags s);
       dispatched := dispatched s |}.

(** The listener loop of [NotifyStep], from slot [i] on. *)
Fixpoint notifyListeners (listeners : list (option StepCallback)) (i : nat)
    (stepCount : Z) : list Dispatch :=
  match listeners with
  | [] => []
  | None :: ls => notifyListeners ls (S i) stepCount
  | Some cb :: ls => ListenerCall i cb stepCount :: notifyListeners ls (S i) stepCount
  end.

(** One round of the task loop of [NotifyStep], on the task stored under
    [kv.1]: the task record, which the map shares, is updated in place and
    its callback started. *)
Definition notifyTask (stepCount : Z) (s : Scheduler) (kv : string * StepTask)
  : Scheduler :=
  let task := kv.2 in
  let shouldTrigger := GoInt.sub stepCount (LastTriggered task) >=? Every task in
  if shouldTrigger then
    {| stepTasks :=
         alter (λ t, {| ID := ID t; Every := Every t; Callback := Callback t;
                        LastTriggered := stepCount |}) kv.1 (stepTasks s);
       stepListeners := stepListeners s;
       cancelledFlags := cancelledFlags s;
       dispatched := dispatched s ++ [TaskCall (ID task) (Callback task) stepCount] |}
  else s.

(** [NotifyStep] *)
Definition NotifyStep (s : Scheduler) (stepCount : Z) : Scheduler :=
  let listeners := stepListeners s in
  let tasks := map_to_list (stepTasks s) in
  let s1 :=
    {| stepTasks := stepTasks s; stepListeners := stepListeners s;
       cancelledFlags := cancelledFlags s;
       dispatched := dispatched s ++ notifyListeners listeners 0 stepCount |} in
  fold_left (notifyTask stepCount) tasks s1.

(** [NotifyStep(1)], ..., [NotifyStep(N)], one after the other. *)
Definition notifySteps (s : Scheduler) (N : nat) : Scheduler :=
  fold_left NotifyStep (Z.of_nat <$> seq 1 N) s.

(** How often the callback of task [id] was started. *)
Definition isTaskCall (id : string) (d : Dispatch) : bool :=
  match d with
  | TaskCall id' _ _ => String.eqb id' id
  | _ => false
  end.

Definition triggerCount (id : string) (ds : list Dispatch) : nat :=
  length (List.filter (isTaskCall id) ds).

(** How often the listener of slot [i] was started. *)
Definition isListenerCall (i : nat) (d : Dispatch) : bool :=
  match d with
  | ListenerCall i' _ _ => Nat.eqb i' i
  | _ => false
  end.

Definition listenerCount (i : nat) (ds : list Dispatch) : nat :=
  length (List.filter (isListenerCall i) ds).

(** The test [stepCount - task.LastTriggered >= task.Every] of the task
    loop, and the update [task.LastTriggered = stepCount]. *)
Definition fire (step : Z) (t : StepTask) : bool :=
  GoInt.sub step (LastTriggered t) >=? Every t.

Definition setLast (step : Z) (t : StepTask) : StepTask :=
  {| ID := ID t; Every := Every t; Callback := Callback t; LastTriggered := step |}.

(** The tasks of a snapshot that carry the id [id] and fire at [step]. *)
Definition fires (id : string) (step : Z) (l : list (string * StepTask)) : nat :=
  length (List.filter (λ kv, String.eqb (ID kv.2) id && fire step kv.2) l).

(** Every task is stored under its own id, as [EverySteps] stores it. *)
Definition wellKeyed (s : Scheduler) : Prop :=
  ∀ k t, stepTasks s !! k = Some t → ID t = k.

Definition taskOf (id : string) (n : Z) (cb : StepCallback) (last : Z) : StepTask :=
  {| ID := id; Every := n; Callback := cb; LastTriggered := last |}.

(** [Cancel].  The interval tasks, whose tickers run on goroutines of
    their own, are kept beside the scheduler as the set of their ids.  The
    result is the error, if any, the scheduler and the interval tasks. *)
Definition Cancel (s : Scheduler) (intervalTasks : gset string) (taskID : string)
  : option string * Scheduler * gset string :=
  match stepTasks s !! taskID with
  | Some _ =>
      (None,
       {| stepTasks := delete taskID (stepTasks s);
          stepListeners := stepListeners s;
          cancelledFlags := cancelledFlags s;
          dispatched := dispatched s |},
       intervalTasks)
  | None =>
      if decide (taskID ∈ intervalTasks) then
        (None, s, intervalTasks ∖ {[taskID]})
      else (Some ("task not found: " +:+ taskID), s, intervalTasks)
  end.

(** [Clear], on the step tasks and the listeners. *)
Definition Clear (s : Scheduler) : Scheduler :=
  {| stepTasks := ∅; stepListeners := [];
     cancelledFlags := cancelledFlags s; dispatched := dispatched s |}.

(** [GetStepTaskCount], [GetStepListenerCount] *)
Definition GetStepTaskCount (s : Scheduler) : Z := Z.of_nat (size (stepTasks s)).

Definition GetStepListenerCount (s : Scheduler) : Z :=
  Z.of_nat (length (stepListeners s)).

End core_scheduler.

(** ** Concrete hosts, sandboxes and inputs used in the examples below *)

Module examples.
Import sandbox tools.

(** A host on which every process ends without error and prints nothing. *)
Definition quietHost : Host :=
  {| run := λ _, ProcDone "";
     Environ := [];
     filepath_Join := λ a b, a +:+ "/" +:+ b;
     filepath_Abs := λ p, inl p;
     Getwd := inl "/work" |}.

Definition workSandbox : LocalSandbox :=
  {| workDir := "/work"; enforceBoundary := false; allowPaths := [];
     watchEnabled := false |}.

Definition cmdInput (cmd : string) : InputMap := {[ "cmd" := VString cmd ]}.

(** A manager whose deny list holds [bash_run]. *)
Definition denyBash : core_permission.PermissionManager :=
  core_permission.AddToDenyList (core_permission.NewPermissionManager None) "bash_run".

(** An agent bound to [bash_run] on the local sandbox, at rest. *)
Definition bashAgent : agent.Agent :=
  {| agent.id := "agt:1";
     agent.systemPrompt := "";
     agent.sandbox := LocalSandbox_Sandbox quietHost workSandbox;
     agent.toolMap := {[ "bash_run" := builtin.BashRunTool ]};
     agent.state := AgentStateReady;
     agent.breakpoint := BreakpointReady;
     agent.messages := [];
     agent.toolRecords := ∅;
     agent.stepCount := 0;
     agent.lastSfpIndex := 0;
     agent.createdAt := 0%nat;
     agent.eventBus := [] |}.

(** An environment whose store never fails and whose context is live. *)
Definition calmEnv : agent.Env :=
  {| agent.clock := 1%nat; agent.storeScript := []; agent.storeLog := [];
     agent.spawned := []; agent.executed := []; agent.ctxDone := [] |}.

Definition atRest : agent.St := {| agent.ag := bashAgent; agent.env := calmEnv |}.

(** A decoder of flat JSON objects whose values are strings without
    escapes; anything else is reported as an error.  It stands for
    [json.Unmarshal] in the examples. *)
Definition dq : ascii := "034".

Fixpoint readQuoted (s : string) : option (string * string) :=
  match s with
  | EmptyString => None
  | String c s' =>
      if Ascii.eqb c dq then Some ("", s')
      else if Ascii.eqb c "092" then None
      else match readQuoted s' with
           | Some (w, rest) => Some (String c w, rest)
           | None => None
           end
  end.

Fixpoint readPairs (fuel : nat) (s : string) (acc : InputMap) : option InputMap :=
  match fuel, s with
  | S fuel', String c s1 =>
      if Ascii.eqb c dq then
        match readQuoted s1 with
        | Some (k, String ":" (String c2 s2)) =>
            if Ascii.eqb c2 dq then
              match readQuoted s2 with
              | Some (v, "}") => Some (<[k := VString v]> acc)
              | Some (v, String "," rest) =>
                  readPairs fuel' rest (<[k := VString v]> acc)
              | _ => None
              end
            else None
        | _ => None
        end
      else None
  | _, _ => None
  end.

Definition flatObject (s : string) : option InputMap :=
  match s with
  | "{}" => Some ∅
  | String "{" s' => readPairs (String.length s) s' ∅
  | _ => None
  end.

Definition quoted (s : string) : string := String dq s +:+ String dq "".

(** Chunks of a stream. *)
Definition startTool (idx : Z) (tid tname : string) : provider.StreamChunk :=
  {| provider.Type_ := "content_block_start"; provider.Index := idx;
     provider.Delta := Some {[ "type" := VString "tool_use";
                               "id" := VString tid; "name" := VString tname ]};
     provider.Usage := None |}.

Definition jsonDelta (idx : Z) (partialJSON : string) : provider.StreamChunk :=
  {| provider.Type_ := "content_block_delta"; provider.Index := idx;
     provider.Delta := Some {[ "type" := VString "input_json_delta";
                               "partial_json" := VString partialJSON ]};
     provider.Usage := None |}.

Definition startText (idx : Z) : provider.StreamChunk :=
  {| provider.Type_ := "content_block_start"; provider.Index := idx;
     provider.Delta := Some {[ "type" := VString "text" ]};
     provider.Usage := None |}.

Definition textDelta (idx : Z) (text : string) : provider.StreamChunk :=
  {| provider.Type_ := "content_block_delta"; provider.Index := idx;
     provider.Delta := Some {[ "type" := VString "text_delta";
                               "text" := VString text ]};
     provider.Usage := None |}.

Definition stopBlock (idx : Z) : provider.StreamChunk :=
  {| provider.Type_ := "content_block_stop"; provider.Index := idx;
     provider.Delta := None; provider.Usage := None |}.

(** The model asks for [bash_run] with the command [ls], then answers. *)
Definition oneRound : list provider.StreamReply :=
  [ provider.StreamChunks
      [ startTool 0 "call-1" "bash_run";
        jsonDelta 0 ("{" +:+ quoted "cmd" +:+ ":" +:+ quoted "ls" +:+ "}");
        stopBlock 0 ];
    provider.StreamChunks [ startText 0; textDelta 0 "done"; stopBlock 0 ] ].

(** The model answers at once. *)
Definition textOnly : list provider.StreamReply :=
  [ provider.StreamChunks [ startText 0; textDelta 0 "hello"; stopBlock 0 ] ].

(** A tool-use block whose input is cut off. *)
Definition cutOffInput : list provider.StreamChunk :=
  [ startTool 0 "call-1" "bash_run"; jsonDelta 0 "{cmd"; stopBlock 0 ].

(** A scheduler with one listener. *)
Definition listening : core_scheduler.Scheduler :=
  (core_scheduler.OnStep core_scheduler.NewScheduler "on-step").2.

(** Dependencies with one template and the [bash_run] tool. *)
Definition testDeps : agent.Dependencies :=
  {| agent.TemplateRegistry_Get := λ tid,
       if String.eqb tid "test-template" then
         inl {| config.tpl_ID := "test-template";
                config.tpl_SystemPrompt := "You are a test assistant";
                config.tpl_Model := "claude-sonnet-4-5";
                config.tpl_Tools := config.ToolsList [] |}
       else inr ("template not found: " +:+ tid);
     agent.ProviderFactory_Create := λ _, inl tt;
     agent.ToolRegistry_Create := λ name,
       if String.eqb name "bash_run" then inl builtin.BashRunTool
       else inr ("tool not registered: " +:+ name);
     agent.ToolRegistry_List := ["bash_run"] |}.

(** A configuration for the sandbox kind [kind]. *)
Definition testConfig (agentID : string) (kind : config.SandboxKind)
  : config.AgentConfig :=
  {| config.AgentID := agentID;
     config.TemplateID := "test-template";
     config.ModelConfig_ := Some {| config.mc_Provider := "anthropic";
                                    config.mc_Model := "claude-sonnet-4-5";
                                    config.mc_APIKey := "sk-test";
                                    config.mc_BaseURL := "" |};
     config.Sandbox_ := Some {| config.sc_Kind := kind;
                                config.sc_WorkDir := "";
                                config.sc_EnforceBoundary := false;
                                config.sc_AllowPaths := [];
                                config.sc_WatchFiles := false;
                                config.sc_Extra := None |};
     config.Tools := None |}.

Definition emptyPool : core_pool.Pool :=
  core_pool.NewPool {| core_pool.opt_Dependencies := testDeps;
                       core_pool.opt_MaxAgents := 5 |}.

(** A pool that holds the agent A only, and a room whose member bob points
    to an agent B that has left the pool. *)
Definition poolOfA : core_pool.Pool :=
  {| core_pool.agents := {[ "A" := bashAgent ]};
     core_pool.deps := testDeps; core_pool.maxAgents := 5 |}.

Definition aliceAndBob : core_room.Room :=
  {| core_room.members := {[ "alice" := "A"; "bob" := "B" ]};
     core_room.history := [] |}.

(** A scheduler with the task [t], every 3 steps, and no listener. *)
Definition oneTask : core_scheduler.Scheduler :=
  {| core_scheduler.stepTasks := {[ "t" := core_scheduler.taskOf "t" 3 "cb" 0 ]};
     core_scheduler.stepListeners := [];
     core_scheduler.cancelledFlags := [];
     core_scheduler.dispatched := [] |}.

(** A host on which every process exits with code 2, and the agent at rest
    on it. *)
Definition grumpyHost : Host :=
  {| run := λ _, ProcExit 2 "no such file";
     Environ := [];
     filepath_Join := λ a b, a +:+ "/" +:+ b;
     filepath_Abs := λ p, inl p;
     Getwd := inl "/work" |}.

Definition onGrumpyHost : agent.St :=
  {| agent.ag :=
       {| agent.id := "agt:2";
          agent.systemPrompt := "";
          agent.sandbox := LocalSandbox_Sandbox grumpyHost workSandbox;
          agent.toolMap := {[ "bash_run" := builtin.BashRunTool ]};
          agent.state := AgentStateReady;
          agent.breakpoint := BreakpointReady;
          agent.messages := [];
          agent.toolRecords := ∅;
          agent.stepCount := 0;
          agent.lastSfpIndex := 0;
          agent.createdAt := 0%nat;
          agent.eventBus := [] |};
     agent.env := calmEnv |}.

End examples.

(** * Properties *)

(** ** Go machine integers *)

Module GoIntFacts.
Import GoInt.

Lemma wrap64_id z : in_range z → wrap64 z = z.
Proof.
  unfold in_range, wrap64. intros H.
  rewrite Z.mod_small by lia. lia.
Qed.

Lemma wrap64_range z : in_range (wrap64 z).
Proof.
  unfold in_range, wrap64.
  pose proof (Z.mod_pos_bound (z + 2 ^ 63) (2 ^ 64) ltac:(lia)). lia.
Qed.

Lemma wrap64_add_l a b : wrap64 (wrap64 a + b) = wrap64 (a + b).
Proof.
  unfold wrap64.
  replace ((a + 2 ^ 63) mod 2 ^ 64 - 2 ^ 63 + b + 2 ^ 63)
    with ((a + 2 ^ 63) mod 2 ^ 64 + b) by lia.
  rewrite Zplus_mod_idemp_l.
  replace (a + 2 ^ 63 + b) with (a + b + 2 ^ 63) by lia. reflexivity.
Qed.

Lemma incr_add a k : incr (add a k) = add a (k + 1).
Proof. unfold incr, add. rewrite wrap64_add_l. f_equal. lia. Qed.

Lemma incr_as_add a : incr a = add a 1.
Proof. reflexivity. Qed.

Lemma sub_small a b : in_range (a - b) → sub a b = a - b.
Proof. apply wrap64_id. Qed.

End GoIntFacts.

(** ** Permission manager *)

Module PermissionFacts.
Import core_permission.

Lemma index_insert (m : gmap string bool) (t t' : string) :
  index (<[t := true]> m) t' = if decide (t = t') then true else index m t'.
Proof.
  unfold index. rewrite lookup_insert. by case_decide.
Qed.

Lemma index_delete (m : gmap string bool) (t t' : string) :
  index (delete t m) t' = if decide (t = t') then false else index m t'.
Proof.
  unfold index. rewrite lookup_delete. by case_decide.
Qed.

Lemma index_empty (t : string) : index ∅ t = false.
Proof. unfold index. by rewrite lookup_empty. Qed.

Ltac unfold_lists :=
  unfold listsHolding, IsInAllowList, IsInDenyList, IsInAskList,
    AddToAllowList, AddToDenyList, AddToAskList, RemoveFromLists, set_lists;
  simpl.

Lemma applyOp_listsHolding pm op t :
  (listsHolding pm t ≤ 1)%nat → (listsHolding (applyOp pm op) t ≤ 1)%nat.
Proof.
  destruct op as [n|n|n|n]; unfold_lists;
    rewrite ?index_insert, ?index_delete;
    destruct (decide (n = t)); simpl; lia.
Qed.

Lemma applyOps_listsHolding ops pm t :
  (listsHolding pm t ≤ 1)%nat → (listsHolding (applyOps pm ops) t ≤ 1)%nat.
Proof.
  revert pm. induction ops as [|op ops IH]; intros pm H; [done|].
  simpl. apply IH. by apply applyOp_listsHolding.
Qed.

Lemma new_listsHolding mode t :
  listsHolding
    (NewPermissionManager
       (Some {| opt_DefaultMode := mode; opt_AllowList := [];
                opt_DenyList := []; opt_AskList := [] |})) t = 0%nat.
Proof. unfold_lists. by rewrite !index_empty. Qed.

(** C3.  For every manager (any deny, allow and ask lists, rules and default
    mode) and every call, the decision [Check] returns is the one of the
    first layer that matches, in the order deny-list, allow-list, ask-list,
    per-tool rule, default mode: membership of the deny list gives deny,
    of the allow list allow, of the ask list ask, a rule gives the decision
    stored in it, and the default modes allow, approval and auto give
    allow, ask and allow. *)
Theorem Check_first_match (pm : PermissionManager) (call : ToolCallRecord) :
  specCheck pm (tcr_Name call) = Some (Check pm call).1.1.
Proof.
  unfold specCheck, Check, layerOrder, firstMatch, layerDecision,
    IsInDenyList, IsInAllowList, IsInAskList. simpl.
  destruct (index (denyList pm) (tcr_Name call)); [done|].
  destruct (index (allowList pm) (tcr_Name call)); [done|].
  destruct (index (askList pm) (tcr_Name call)); [done|].
  destruct (rules pm !! tcr_Name call) as [rule|]; simpl; [done|].
  by destruct (defaultMode pm).
Qed.

(** The reason that goes with a denial by the deny list. *)
Lemma Check_deny_list (pm : PermissionManager) (call : ToolCallRecord) :
  IsInDenyList pm (tcr_Name call) = true →
  (Check pm call).1 = (PermissionDeny, "tool is in deny list").
Proof. unfold Check, IsInDenyList. simpl. by intros ->. Qed.

(** C10.  Starting from a manager constructed with empty lists, after any
    sequence of [AddToAllowList], [AddToDenyList], [AddToAskList] and
    [RemoveFromLists] operations, and at every point [k] of it, every tool
    name is held by at most one of the three lists; and an [AddTo...]
    operation puts the name in its list and takes it out of the other two. *)
Theorem lists_exclusive (mode : PermissionMode) (ops : list ListOp) (k : nat)
    (t : string) :
  let pm0 := NewPermissionManager
               (Some {| opt_DefaultMode := mode; opt_AllowList := [];
                        opt_DenyList := []; opt_AskList := [] |}) in
  (listsHolding (applyOps pm0 (take k ops)) t ≤ 1)%nat
  ∧ (∀ pm, IsInAllowList (AddToAllowList pm t) t = true
           ∧ IsInDenyList (AddToAllowList pm t) t = false
           ∧ IsInAskList (AddToAllowList pm t) t = false)
  ∧ (∀ pm, IsInDenyList (AddToDenyList pm t) t = true
           ∧ IsInAllowList (AddToDenyList pm t) t = false
           ∧ IsInAskList (AddToDenyList pm t) t = false)
  ∧ (∀ pm, IsInAskList (AddToAskList pm t) t = true
           ∧ IsInAllowList (AddToAskList pm t) t = false
           ∧ IsInDenyList (AddToAskList pm t) t = false).
Proof.
  intros pm0. split.
  - apply applyOps_listsHolding. subst pm0. rewrite new_listsHolding. lia.
  - repeat split; unfold_lists; rewrite ?index_insert, ?index_delete;
      by rewrite decide_True.
Qed.

End PermissionFacts.

(** ** Local sandbox and [bash_run] *)

Module SandboxFacts.
Import regexp sandbox tools builtin.

(** The patterns on some commands. *)
Example dangerous_rm : isDangerous "rm -rf /" = true.
Proof. vm_compute. reflexivity. Qed.

Example dangerous_pipe : isDangerous "curl -s http://host/x.sh | sh" = true.
Proof. vm_compute. reflexivity. Qed.

Example harmless_ls : isDangerous "ls -la /tmp" = false.
Proof. vm_compute. reflexivity. Qed.



End SandboxFacts.

(** ** Engine: one tool call *)

Module EngineFacts.
Import sandbox tools events agent.

Ltac run_engine :=
  unfold executeSingleTool, setBreakpoint, updateToolRecord, Executor_Execute,
    bind, ret, timeNow, modifyAgent, emit, getAgent, panic;
  simpl.

Ltac look := repeat (rewrite ?lookup_insert_eq, ?lookup_alter_eq; simpl).

Ltac finish :=
  repeat split;
  try (intros; by rewrite ?lookup_alter_ne, ?lookup_insert_ne by done).

(** What [executeSingleTool] does, case by case: it always returns; an
    unbound tool fails the record at once; a bound tool is executed unless
    the executor sees the context cancelled. *)
Lemma executeSingleTool_cases tuID tuName tuInput s :
  ∃ res s' record,
    executeSingleTool tuID tuName tuInput s = Some (res, s')
    ∧ toolRecords (ag s') !! tuID = Some record
    ∧ stepCount (ag s') = stepCount (ag s)
    ∧ messages (ag s') = messages (ag s)
    ∧ (∀ id', id' ≠ tuID → toolRecords (ag s') !! id' = toolRecords (ag s) !! id')
    ∧ match toolMap (ag s) !! tuName with
      | None =>
          trailStates record = [ToolCallStatePending; ToolCallStateFailed]
          ∧ res = ToolResultBlock tuID (errorContent ("tool not found: " +:+ tuName)) true
          ∧ executed (env s') = executed (env s)
      | Some tool =>
          if hd false (ctxDone (env s)) then
            trailStates record
              = [ToolCallStatePending; ToolCallStateExecuting; ToolCallStateFailed]
            ∧ res = ToolResultBlock tuID (errorContent "context canceled") true
            ∧ executed (env s') = executed (env s)
          else
            executed (env s') = executed (env s) ++ [(Name tool, tuInput)]
            ∧ let out := (Execute tool tuInput
                            {| AgentID := id (ag s); Sandbox := sandbox (ag s) |}
                            (spawned (env s))).1 in
              match out.2 with
              | None =>
                  trailStates record
                    = [ToolCallStatePending; ToolCallStateExecuting;
                       ToolCallStateCompleted]
                  ∧ res = ToolResultBlock tuID out.1 false
              | Some e =>
                  trailStates record
                    = [ToolCallStatePending; ToolCallStateExecuting;
                       ToolCallStateFailed]
                  ∧ res = ToolResultBlock tuID (errorContent e) true
              end
      end.
Proof.
  run_engine.
  destruct (toolMap (ag s) !! tuName) as [tool|] eqn:Htool.
  - run_engine. look.
    destruct (hd false (ctxDone (env s))); simpl.
    + look. do 3 eexists. split; [reflexivity|]. simpl. look.
      split; [reflexivity|]. finish.
    + destruct (Execute tool tuInput _ _) as [[out [e|]] ps] eqn:HE; simpl.
      * look. do 3 eexists. split; [reflexivity|]. simpl. look.
        split; [reflexivity|]. finish.
      * look. do 3 eexists. split; [reflexivity|]. simpl. look.
        split; [reflexivity|]. finish.
  - run_engine. look. do 3 eexists. split; [reflexivity|]. simpl. look.
    split; [reflexivity|]. finish.
Qed.

(** The three trails a call can leave. *)
Lemma executeSingleTool_trail tuID tuName tuInput s :
  ∃ res s' trail,
    executeSingleTool tuID tuName tuInput s = Some (res, s')
    ∧ trailOf s' tuID = Some trail
    ∧ (trail = [ToolCallStatePending; ToolCallStateFailed]
       ∨ trail = [ToolCallStatePending; ToolCallStateExecuting; ToolCallStateCompleted]
       ∨ trail = [ToolCallStatePending; ToolCallStateExecuting; ToolCallStateFailed]).
Proof.
  destruct (executeSingleTool_cases tuID tuName tuInput s)
    as (res & s' & record & Hrun & Hrec & _ & _ & _ & Hcase).
  exists res, s', (trailStates record). split; [done|].
  split; [unfold trailOf; by rewrite Hrec|].
  destruct (toolMap (ag s) !! tuName) as [tool|].
  - destruct (hd false (ctxDone (env s))).
    + right; right. apply Hcase.
    + destruct Hcase as [_ Hout]. simpl in Hout.
      destruct ((Execute tool tuInput _ _).1.2).
      * right; right. apply Hout.
      * right; left. apply Hout.
  - left. apply Hcase.
Qed.

(** The engine on [bash_run] with the command [ls], on the agent at rest. *)
Lemma bash_ls_run :
  ∃ res s',
    executeSingleTool "call-1" "bash_run" (examples.cmdInput "ls") examples.atRest
    = Some (res, s')
    ∧ trailOf s' "call-1"
      = Some [ToolCallStatePending; ToolCallStateExecuting; ToolCallStateCompleted]
    ∧ executed (env s') = [("bash_run", examples.cmdInput "ls")].
Proof.
  destruct (executeSingleTool_cases "call-1" "bash_run" (examples.cmdInput "ls")
              examples.atRest)
    as (res & s' & record & Hrun & Hrec & _ & _ & _ & Hcase).
  exists res, s'. split; [done|].
  change (toolMap (ag examples.atRest) !! "bash_run")
    with (({[ "bash_run" := builtin.BashRunTool ]} : gmap string Tool) !! "bash_run")
    in Hcase.
  rewrite lookup_singleton_eq in Hcase. simpl in Hcase.
  destruct Hcase as [Hex [Htrail _]].
  split; [unfold trailOf; by rewrite Hrec, <- Htrail|done].
Qed.

(** C1, as stated, fails: [bash_run] is on the deny list of the manager,
    yet the engine, which never consults a permission manager, executes the
    call: the record goes PENDING, EXECUTING, COMPLETED and the executor
    is invoked. *)
Lemma deny_list_not_consulted :
  core_permission.IsInDenyList examples.denyBash "bash_run" = true
  ∧ ¬ deniedOutcome "call-1" "bash_run" (examples.cmdInput "ls") examples.atRest.
Proof.
  split; [reflexivity|].
  intros (res & s' & Hrun & Htrail & _).
  destruct bash_ls_run as (res0 & s0 & Hrun0 & Htrail0 & _).
  rewrite Hrun in Hrun0. injection Hrun0 as <- <-.
  rewrite Htrail in Htrail0. discriminate.
Qed.

(** C1, amended.  [Check] answers deny, with the reason "tool is in deny
    list", for every call whose tool is on the deny list; the engine does
    not consult it.  For every tool-use block the engine processes, whatever
    the lists hold: if the tool is not bound to the agent the record goes
    from PENDING to FAILED, the result block is the error "tool not found"
    and the executor is not invoked; if it is bound the record goes from
    PENDING to EXECUTING and on to COMPLETED or FAILED, and the executor
    invokes the tool once, unless it finds the context cancelled.  No record
    reaches DENIED. *)
Theorem engine_executes_whatever_the_lists (pm : core_permission.PermissionManager)
    (call : ToolCallRecord) (tuID tuName : string) (tuInput : InputMap) (s : St) :
  (core_permission.IsInDenyList pm (tcr_Name call) = true →
     (core_permission.Check pm call).1
     = (core_permission.PermissionDeny, "tool is in deny list"))
  ∧ ∃ res s' trail,
      executeSingleTool tuID tuName tuInput s = Some (res, s')
      ∧ trailOf s' tuID = Some trail
      ∧ (ToolCallStateDenied ∉ trail)
      ∧ match toolMap (ag s) !! tuName with
        | None =>
            trail = [ToolCallStatePending; ToolCallStateFailed]
            ∧ res = ToolResultBlock tuID
                      (errorContent ("tool not found: " +:+ tuName)) true
            ∧ executed (env s') = executed (env s)
        | Some tool =>
            (trail = [ToolCallStatePending; ToolCallStateExecuting;
                      ToolCallStateCompleted]
             ∨ trail = [ToolCallStatePending; ToolCallStateExecuting;
                        ToolCallStateFailed])
            ∧ (executed (env s') = executed (env s) ++ [(Name tool, tuInput)]
               ∨ (hd false (ctxDone (env s)) = true
                  ∧ executed (env s') = executed (env s)))
        end.
Proof.
  split.
  - unfold core_permission.Check, core_permission.IsInDenyList. simpl.
    by intros ->.
  - destruct (executeSingleTool_cases tuID tuName tuInput s)
      as (res & s' & record & Hrun & Hrec & _ & _ & _ & Hcase).
    exists res, s', (trailStates record). split; [done|].
    split; [unfold trailOf; by rewrite Hrec|].
    destruct (toolMap (ag s) !! tuName) as [tool|].
    + destruct (hd false (ctxDone (env s))).
      * destruct Hcase as (-> & _ & Hex).
        split; [by rewrite !not_elem_of_cons; repeat split; try done; apply not_elem_of_nil|].
        split; [by right|]. right. by split.
      * destruct Hcase as [Hex Hout]. simpl in Hout.
        destruct ((Execute tool tuInput _ _).1.2); destruct Hout as [-> _];
          (split; [by rewrite !not_elem_of_cons; repeat split; try done; apply not_elem_of_nil|]);
          (split; [|by left]); [by right|by left].
    + destruct Hcase as (-> & Hres & Hex).
      split; [by rewrite !not_elem_of_cons; repeat split; try done; apply not_elem_of_nil|].
      done.
Qed.

(** C2, as stated, fails: on a bound tool the engine moves the record from
    PENDING straight to EXECUTING, which is not a legal edge. *)
Lemma pending_to_executing :
  legalEdge ToolCallStatePending ToolCallStateExecuting = false
  ∧ ∃ res s',
      executeSingleTool "call-1" "bash_run" (examples.cmdInput "ls") examples.atRest
      = Some (res, s')
      ∧ ¬ legalTrail s' "call-1".
Proof.
  split; [reflexivity|].
  destruct bash_ls_run as (res & s' & Hrun & Htrail & _).
  exists res, s'. split; [done|].
  intros (trail & Ht & Hlegal). rewrite Htrail in Ht. injection Ht as <-.
  discriminate.
Qed.

(** C2, amended.  Every transition the engine performs on the record of a
    call is one of PENDING to FAILED, PENDING to EXECUTING, EXECUTING to
    COMPLETED and EXECUTING to FAILED; each of them is a legal edge except
    PENDING to EXECUTING, which does not pass through APPROVED; none leaves
    a terminal state; and the records of the other calls are not touched. *)
Theorem engine_transitions (tuID tuName : string) (tuInput : InputMap) (s : St) :
  ∃ res s' trail,
    executeSingleTool tuID tuName tuInput s = Some (res, s')
    ∧ trailOf s' tuID = Some trail
    ∧ forallb (λ e, engineEdge e.1 e.2) (edgesOf trail) = true
    ∧ forallb (λ e, negb (isTerminal e.1)) (edgesOf trail) = true
    ∧ (∀ a b, engineEdge a b = true →
              legalEdge a b = true
              ∨ (a = ToolCallStatePending ∧ b = ToolCallStateExecuting))
    ∧ (∀ id', id' ≠ tuID → toolRecords (ag s') !! id' = toolRecords (ag s) !! id').
Proof.
  destruct (executeSingleTool_cases tuID tuName tuInput s)
    as (res & s' & record & Hrun & Hrec & _ & _ & Hother & _).
  destruct (executeSingleTool_trail tuID tuName tuInput s)
    as (res1 & s1 & trail & Hrun1 & Htrail & Hshape).
  rewrite Hrun in Hrun1. injection Hrun1 as <- <-.
  exists res, s', trail. split; [done|]. split; [done|].
  split; [by destruct Hshape as [->|[->| ->]]|].
  split; [by destruct Hshape as [->|[->| ->]]|].
  split; [|done].
  intros a b. destruct a, b; simpl; intros H; try discriminate; auto.
Qed.

End EngineFacts.

(** ** Engine: the step loop *)

Module StepLoopFacts.
Import sandbox tools provider events store agent.
Import EngineFacts.

Lemma bind_Some {A B} (m : M A) (k : A → M B) s r s' :
  bind m k s = Some (r, s') → ∃ x s1, m s = Some (x, s1) ∧ k x s1 = Some (r, s').
Proof.
  unfold bind. destruct (m s) as [[x s1]|]; [|done]. intros H. by exists x, s1.
Qed.

Lemma foldM_app {A B} (f : B → A → M B) l1 l2 b s :
  foldM f (l1 ++ l2) b s
  = match foldM f l1 b s with
    | Some (b', s') => foldM f l2 b' s'
    | None => None
    end.
Proof.
  revert b s. induction l1 as [|x l1 IH]; intros b s; simpl; [done|].
  unfold bind. destruct (f b x s) as [[b' s']|]; [apply IH|done].
Qed.

(** *** What leaves the step count and the history alone *)

Lemma keeps_ret {A} (x : A) : keepsHistory (ret x).
Proof. intros s y s' H. by injection H as <- <-. Qed.

Lemma keeps_panic {A} : keepsHistory (@panic A).
Proof. by intros s y s' H. Qed.

Lemma keeps_bind {A B} (m : M A) (k : A → M B) :
  keepsHistory m → (∀ x, keepsHistory (k x)) → keepsHistory (bind m k).
Proof.
  intros Hm Hk s r s' H. apply bind_Some in H as (x & s1 & H1 & H2).
  destruct (Hm _ _ _ H1) as [E1 E2]. destruct (Hk x _ _ _ H2) as [E3 E4].
  split; congruence.
Qed.

Lemma keeps_getAgent : keepsHistory getAgent.
Proof. intros s y s' H. by injection H as <- <-. Qed.

Lemma keeps_emit ev : keepsHistory (emit ev).
Proof. intros s y s' H. by injection H as <- <-. Qed.

Lemma keeps_timeNow : keepsHistory timeNow.
Proof. intros s y s' H. by injection H as <- <-. Qed.

Lemma keeps_storeCall c : keepsHistory (storeCall c).
Proof. intros s y s' H. by injection H as <- <-. Qed.

Lemma keeps_set_breakpoint b : keepsHistory (modifyAgent (set_breakpoint b)).
Proof. intros s y s' H. by injection H as <- <-. Qed.

Lemma keeps_set_state b : keepsHistory (modifyAgent (set_state b)).
Proof. intros s y s' H. by injection H as <- <-. Qed.

Ltac keeps :=
  repeat first
    [ apply keeps_ret | apply keeps_panic | apply keeps_emit
    | apply keeps_getAgent | apply keeps_timeNow | apply keeps_storeCall
    | apply keeps_set_breakpoint | apply keeps_set_state
    | apply keeps_bind; [|intros ?]
    | match goal with
      | |- keepsHistory (match ?x with _ => _ end) => destruct x
      end ].

Lemma keeps_setBreakpoint b : keepsHistory (setBreakpoint b).
Proof. unfold setBreakpoint. keeps. Qed.

Lemma keeps_saveMessages : keepsHistory saveMessages.
Proof. unfold saveMessages. keeps. Qed.

Lemma keeps_executeSingleTool i n inp : keepsHistory (executeSingleTool i n inp).
Proof.
  intros s x s' H.
  destruct (executeSingleTool_cases i n inp s)
    as (r & s1 & rec & Hrun & _ & H1 & H2 & _).
  rewrite H in Hrun. injection Hrun as <- <-. done.
Qed.

Lemma keeps_mapM {A B} (f : A → M B) l :
  (∀ x, keepsHistory (f x)) → keepsHistory (mapM f l).
Proof. intros Hf. induction l as [|x l IH]; simpl; keeps; auto. Qed.

Lemma keeps_foldM {A B} (f : B → A → M B) l b :
  (∀ b x, keepsHistory (f b x)) → keepsHistory (foldM f l b).
Proof.
  intros Hf. revert b. induction l as [|x l IH]; intros b; simpl; keeps; auto.
Qed.

Lemma keeps_onChunk json asm chunk : keepsHistory (onChunk json asm chunk).
Proof.
  unfold onChunk, onBlockStart, onBlockDelta, onBlockStop, onMessageDelta,
    slot, setSlot, mustStringAt.
  keeps.
Qed.

(** *** The step count *)

Lemma toolRounds_app l m :
  toolRounds (l ++ [m]) = toolRounds l + (if toolResultMessage m then 1 else 0).
Proof.
  unfold toolRounds. rewrite List.filter_app, length_app. simpl.
  destruct (toolResultMessage m); simpl; lia.
Qed.

Lemma mapM_results tus s rs s' :
  mapM (λ tu : string * string * InputMap, executeSingleTool tu.1.1 tu.1.2 tu.2) tus s
  = Some (rs, s') →
  length rs = length tus
  ∧ Forall (λ b, ∃ i c e, b = ToolResultBlock i c e) rs.
Proof.
  revert s rs s'. induction tus as [|tu tus IH]; intros s rs s' H; simpl in H.
  - injection H as <- <-. by split.
  - apply bind_Some in H as (y & s1 & H1 & H2).
    apply bind_Some in H2 as (ys & s2 & H2 & H3).
    injection H3 as <- <-. destruct (IH _ _ _ H2) as [Hl Hf].
    split; [simpl; by rewrite Hl|].
    constructor; [|done].
    destruct (executeSingleTool_cases tu.1.1 tu.1.2 tu.2 s)
      as (r & s0 & rec & Hrun & _ & _ & _ & _ & Hcase).
    rewrite H1 in Hrun. injection Hrun as <- <-.
    destruct (toolMap (ag s) !! tu.1.2) as [tool|].
    + destruct (hd false (ctxDone (env s))).
      * destruct Hcase as (_ & -> & _). eauto.
      * destruct Hcase as [_ Hout]. simpl in Hout.
        destruct ((Execute tool tu.2 _ _).1.2); destruct Hout as [_ ->]; eauto.
    + destruct Hcase as (_ & -> & _). eauto.
Qed.

(** A run of [runModelStep] that started at [base + j] ends at
    [base + j + k], where [k] tool rounds were recorded. *)
Lemma runModelStep_count json script :
  ∀ s r s' base j,
    runModelStep json script s = Some (r, s') →
    stepCount (ag s) = GoInt.add base j →
    ∃ k, 0 ≤ k
         ∧ stepCount (ag s') = GoInt.add base (j + k)
         ∧ toolRounds (messages (ag s')) = toolRounds (messages (ag s)) + k.
Proof.
  induction script as [|reply script IH]; intros s r s' base j H Hbase; simpl in H.
  - apply bind_Some in H as (x & s1 & H1 & H2).
    destruct (keeps_setBreakpoint _ _ _ _ H1) as [E1 E2].
    injection H2 as <- <-. exists 0. rewrite E1, E2, Z.add_0_r. auto with lia.
  - apply bind_Some in H as (x & s1 & H1 & H2).
    destruct (keeps_setBreakpoint _ _ _ _ H1) as [E1 E2].
    destruct reply as [e|chunks].
    + injection H2 as <- <-. exists 0. rewrite E1, E2, Z.add_0_r. auto with lia.
    + apply bind_Some in H2 as (asm & s2 & H2 & H3).
      destruct (keeps_foldM _ _ _ (keeps_onChunk json) _ _ _ H2) as [E3 E4].
      apply bind_Some in H3 as (u & s3 & H3 & H4).
      injection H3 as <- <-.
      apply bind_Some in H4 as (err & s4 & H4 & H5).
      destruct (keeps_saveMessages _ _ _ H4) as [E5 E6]. simpl in E5, E6.
      assert (Hs4 : stepCount (ag s4) = GoInt.add base j) by congruence.
      assert (Hm4 : toolRounds (messages (ag s4)) = toolRounds (messages (ag s))).
      { rewrite E6, toolRounds_app. simpl. rewrite E4, E2. lia. }
      destruct err as [e|].
      { injection H5 as <- <-. exists 0. rewrite Z.add_0_r. auto with lia. }
      destruct (0 <? length (toolUsesOf (assistantContent asm)))%nat eqn:Hlen.
      2:{ injection H5 as <- <-. exists 0. rewrite Z.add_0_r. auto with lia. }
      apply bind_Some in H5 as (u5 & s5 & H5 & H6).
      destruct (keeps_setBreakpoint _ _ _ _ H5) as [E7 E8].
      unfold executeTools in H6.
      apply bind_Some in H6 as (rs & s6 & H6 & H7).
      destruct (keeps_mapM _ _ (λ tu, keeps_executeSingleTool _ _ _) _ _ _ H6)
        as [E9 E10].
      destruct (mapM_results _ _ _ _ H6) as [Hl Hf].
      apply bind_Some in H7 as (u7 & s7 & H7 & H8).
      injection H7 as <- <-.
      apply bind_Some in H8 as (err8 & s8 & H8 & H9).
      destruct (keeps_saveMessages _ _ _ H8) as [E11 E12]. simpl in E11, E12.
      assert (Hs8 : stepCount (ag s8) = GoInt.add base (j + 1)).
      { rewrite E11, E9, E7, Hs4. apply GoIntFacts.incr_add. }
      assert (Hm8 : toolRounds (messages (ag s8))
                    = toolRounds (messages (ag s)) + 1).
      { rewrite E12, toolRounds_app, E10, E8, Hm4.
        destruct rs as [|b rs].
        - apply Nat.ltb_lt in Hlen. simpl in Hl. lia.
        - apply Forall_cons in Hf as [(i & c & e & ->) _]. reflexivity. }
      destruct err8 as [e|].
      { injection H9 as <- <-. exists 1. auto with lia. }
      apply bind_Some in H9 as (a9 & s9 & H9 & H10).
      injection H9 as <- <-.
      apply bind_Some in H10 as (r10 & s10 & H10 & H11).
      destruct (keeps_storeCall _ _ _ _ H10) as [E13 E14].
      destruct (replyError r10) as [e|].
      { injection H11 as <- <-. exists 1. rewrite E13, E14. auto with lia. }
      destruct (IH _ _ _ base (j + 1) H11) as (k & Hk & Hc & Hr); [congruence|].
      exists (1 + k). split; [lia|]. split.
      * rewrite Hc. f_equal. lia.
      * rewrite Hr, E14, Hm8. lia.
Qed.

Lemma keeps_afterModel (err : option string) :
  keepsHistory
    (bind (match err with
           | Some e => emit (MonitorErrorEvent "error" "model" e)
           | None => ret tt
           end)
       (λ _, bind getAgent (λ a,
          bind (emit (ProgressDoneEvent (stepCount a) "completed")) (λ _,
          bind (emit (MonitorStateChangedEvent AgentStateReady)) (λ _,
          modifyAgent (set_state AgentStateReady)))))).
Proof. keeps. Qed.

Lemma processMessages_count json script s u s' base j :
  processMessages json script s = Some (u, s') →
  stepCount (ag s) = GoInt.add base j →
  ∃ k, 0 ≤ k
       ∧ stepCount (ag s') = GoInt.add base (j + k)
       ∧ toolRounds (messages (ag s')) = toolRounds (messages (ag s)) + k.
Proof.
  intros H Hbase. unfold processMessages in H.
  apply bind_Some in H as (a & s1 & H1 & H2). injection H1 as <- <-.
  destruct (decide (state (ag s) = AgentStateReady)).
  2:{ injection H2 as <- <-. exists 0. rewrite Z.add_0_r. auto with lia. }
  apply bind_Some in H2 as (u2 & s2 & H2 & H3). injection H2 as <- <-.
  apply bind_Some in H3 as (u3 & s3 & H3 & H4). injection H3 as <- <-.
  apply bind_Some in H4 as (u4 & s4 & H4 & H5).
  destruct (keeps_setBreakpoint _ _ _ _ H4) as [E1 E2]. simpl in E1, E2.
  apply bind_Some in H5 as (err & s5 & H5 & H6).
  destruct (runModelStep_count json script _ _ _ base j H5) as (k & Hk & Hc & Hr);
    [congruence|].
  exists k. split; [done|].
  destruct (keeps_afterModel err _ _ _ H6) as [-> ->]. rewrite Hr, E2. done.
Qed.

Lemma stepsAndRounds_Some {A} (o : option (A * St)) (c k : Z) :
  stepsAndRounds o = Some (c, k) →
  ∃ r s', o = Some (r, s')
          ∧ stepCount (ag s') = c ∧ toolRounds (messages (ag s')) = k.
Proof.
  destruct o as [[r s']|]; [|done]. simpl. intros H. injection H as <- <-.
  by exists r, s'.
Qed.

(** C5, amended.  [Send] itself increments the step count, once, and every
    completed tool round increments it once more: after a send that starts
    a step loop with k completed tool rounds the step count has grown by
    exactly k + 1 (in Go's 64-bit arithmetic), k being the number of
    tool-result messages the loop appended to the history. *)
Theorem step_count_send_and_rounds (json : string → option InputMap)
    (script : list StreamReply) (text : string) (s : St)
    (r : option string) (s' : St) :
  SendAndProcess json script text s = Some (r, s') →
  stepCount (ag s')
  = GoInt.add (stepCount (ag s))
      (1 + (toolRounds (messages (ag s')) - toolRounds (messages (ag s))))
  ∧ 0 ≤ toolRounds (messages (ag s')) - toolRounds (messages (ag s))
  ∧ ∃ err s1,
      Send text s = Some (err, s1)
      ∧ stepCount (ag s1) = GoInt.incr (stepCount (ag s))
      ∧ toolRounds (messages (ag s1)) = toolRounds (messages (ag s)).
Proof.
  intros H. unfold SendAndProcess in H.
  apply bind_Some in H as (err & s1 & H1 & H2).
  assert (Hsend : stepCount (ag s1) = GoInt.incr (stepCount (ag s))
                  ∧ toolRounds (messages (ag s1)) = toolRounds (messages (ag s))).
  { unfold Send in H1.
    apply bind_Some in H1 as (u & s2 & H1 & H3). injection H1 as <- <-.
    apply bind_Some in H3 as (e & s3 & H3 & H4).
    destruct (keeps_saveMessages _ _ _ H3) as [E1 E2]. simpl in E1, E2.
    assert (s1 = s3) as -> by (destruct e; by injection H4 as <- <-).
    rewrite E1, E2, toolRounds_app. simpl. split; [done|lia]. }
  destruct Hsend as [Hs1 Hm1].
  assert (∃ k, 0 ≤ k
               ∧ stepCount (ag s') = GoInt.add (stepCount (ag s)) (1 + k)
               ∧ toolRounds (messages (ag s')) = toolRounds (messages (ag s)) + k)
    as (k & Hk & Hc & Hr).
  { destruct err as [e|].
    - injection H2 as <- <-. exists 0. rewrite Hs1, Hm1. auto with lia.
    - apply bind_Some in H2 as (u & s2 & H2 & H3). injection H3 as <- <-.
      destruct (processMessages_count json script s1 u s2 (stepCount (ag s)) 1 H2 Hs1)
        as (k & Hk & Hc & Hr).
      exists k. rewrite Hc, Hr, Hm1. auto. }
  split; [rewrite Hc, Hr; f_equal; lia|].
  split; [lia|]. eauto.
Qed.

Lemma step_count_send_and_rounds_witness :
  ∃ r s',
    SendAndProcess examples.flatObject examples.oneRound "hi" examples.atRest
    = Some (r, s')
    ∧ toolRounds (messages (ag s')) = 1
    ∧ stepCount (ag s') = GoInt.add 0 (1 + (1 - 0)).
Proof.
  destruct (stepsAndRounds_Some
              (SendAndProcess examples.flatObject examples.oneRound "hi"
                 examples.atRest) 2 1)
    as (r & s' & H & Hc & Hr); [vm_compute; reflexivity|].
  exists r, s'. split; [exact H|]. split; [exact Hr|].
  destruct (step_count_send_and_rounds _ _ _ _ _ _ H) as [Hth _].
  rewrite Hth, Hr. reflexivity.
Defined.

(** C5, as stated, fails: a send whose step loop completes no tool round
    still leaves the step count one higher. *)
Lemma send_bumps_step_count :
  ∃ r s',
    SendAndProcess examples.flatObject examples.textOnly "hi" examples.atRest
    = Some (r, s')
    ∧ toolRounds (messages (ag s')) = 0
    ∧ stepCount (ag s') = 1
    ∧ ¬ grownByRounds examples.atRest s'.
Proof.
  destruct (stepsAndRounds_Some
              (SendAndProcess examples.flatObject examples.textOnly "hi"
                 examples.atRest) 1 0)
    as (r & s' & H & Hc & Hr); [vm_compute; reflexivity|].
  exists r, s'. split; [exact H|]. split; [exact Hr|]. split; [exact Hc|].
  unfold grownByRounds. rewrite Hc, Hr. vm_compute. discriminate.
Qed.

(** *** Chunk assembly of a tool-use block *)

Section ToolSlot.
Variable json : string → option InputMap.
Variables (idx : Z) (tid tname : string).
Hypothesis Hidx : 0 ≤ idx.

Lemma start_step asm c s :
  startsToolUse c tid tname → Index c = idx →
  ∃ asm', onChunk json asm c s = Some (asm', s)
          ∧ toolSlotOpen idx tid tname asm' (bufferAt (inputJSONBuffers asm) idx).
Proof.
  intros (Ht & Hi & d & Hd & Hty & Hid & Hname) Hix.
  unfold onChunk. rewrite Ht. simpl.
  unfold onBlockStart. rewrite Hd, Hty. simpl.
  unfold mustStringAt, setSlot, bind, ret. rewrite Hid, Hname. simpl.
  rewrite Hix. destruct (idx <? 0) eqn:E; [lia|].
  eexists. split; [reflexivity|].
  repeat split; simpl.
  apply list_lookup_insert_eq. unfold padTo.
  rewrite length_app, length_replicate. lia.
Qed.

Lemma delta_step asm b c s :
  toolSlotOpen idx tid tname asm b → Type_ c = "content_block_delta" →
  ∃ asm' s', onChunk json asm c s = Some (asm', s')
             ∧ toolSlotOpen idx tid tname asm' (jsonBuffered b [c])
             ∧ monitorErrors s' = monitorErrors s.
Proof.
  intros (Hcur & Hslot & Hbuf) Ht.
  unfold onChunk. rewrite Ht. simpl.
  unfold onBlockDelta, jsonBuffered. simpl.
  destruct (Delta c) as [d|]; [|by exists asm, s].
  destruct (String.eqb (stringAt d "type") "text_delta") eqn:E1.
  - unfold slot, bind, ret, getAgent, emit, modifyAgent. simpl.
    rewrite Hcur. destruct (idx <? 0) eqn:E; [lia|]. rewrite Hslot. simpl.
    do 2 eexists. split; [reflexivity|]. split; [by repeat split|].
    unfold monitorErrors. simpl. rewrite List.filter_app. simpl. apply app_nil_r.
  - destruct (String.eqb (stringAt d "type") "input_json_delta") eqn:E2.
    + do 2 eexists. split; [reflexivity|]. split; [|done].
      repeat split; simpl; try done.
      unfold bufferAt at 1. rewrite Hcur, lookup_insert_eq. simpl. by rewrite Hbuf.
    + by exists asm, s.
Qed.

Lemma deltas_steps deltas : ∀ asm b s,
  toolSlotOpen idx tid tname asm b →
  Forall (λ c, Type_ c = "content_block_delta") deltas →
  ∃ asm' s', foldM (onChunk json) deltas asm s = Some (asm', s')
             ∧ toolSlotOpen idx tid tname asm' (jsonBuffered b deltas)
             ∧ monitorErrors s' = monitorErrors s.
Proof.
  induction deltas as [|c deltas IH]; intros asm b s Hinv Hall.
  - by exists asm, s.
  - apply Forall_cons in Hall as [Hc Hall].
    destruct (delta_step asm b c s Hinv Hc) as (asm1 & s1 & H1 & Hinv1 & Hm1).
    destruct (IH asm1 _ s1 Hinv1 Hall) as (asm2 & s2 & H2 & Hinv2 & Hm2).
    exists asm2, s2. simpl. unfold bind. rewrite H1. split; [done|].
    split; [done|congruence].
Qed.

Lemma stop_step asm b c s :
  toolSlotOpen idx tid tname asm b → Type_ c = "content_block_stop" →
  json b = None →
  onChunk json asm c s = Some (asm, s).
Proof.
  intros (Hcur & Hslot & Hbuf) Ht Hjson.
  unfold onChunk. rewrite Ht. simpl.
  unfold onBlockStop, slot, bind, ret. rewrite Hcur.
  destruct (idx <? 0) eqn:E; [lia|]. rewrite Hslot.
  unfold bufferAt in Hbuf.
  destruct (inputJSONBuffers asm !! idx) as [jsonStr|]; [|done].
  simpl in Hbuf. subst jsonStr.
  destruct (String.eqb b ""); [done|]. by rewrite Hjson.
Qed.

End ToolSlot.

(** C4, amended.  During chunk assembly, when a tool-use slot is started, fed
    by delta chunks and finalized by [content_block_stop], and the JSON
    buffered for it fails to parse, the assembly goes through, the block's
    input mapping is the empty mapping it was started with, and no
    [MonitorError] event is emitted: the failure is passed over in silence. *)
Theorem parse_failure_silent (json : string → option InputMap)
    (asm : Assembly) (s : St) (start : StreamChunk) (deltas : list StreamChunk)
    (stop : StreamChunk) (tid tname : string) :
  startsToolUse start tid tname →
  Forall (λ c, Type_ c = "content_block_delta") deltas →
  Type_ stop = "content_block_stop" →
  json (jsonBuffered (bufferAt (inputJSONBuffers asm) (Index start)) deltas) = None →
  ∃ asm' s',
    foldM (onChunk json) (start :: deltas ++ [stop]) asm s = Some (asm', s')
    ∧ assistantContent asm' !! Z.to_nat (Index start)
      = Some (ToolUseBlock tid tname ∅)
    ∧ monitorErrors s' = monitorErrors s.
Proof.
  intros Hstart Hdeltas Hstop Hjson.
  assert (Hidx : 0 ≤ Index start) by apply Hstart.
  destruct (start_step json (Index start) tid tname Hidx asm start s Hstart eq_refl)
    as (asm1 & H1 & Hinv1).
  destruct (deltas_steps json (Index start) tid tname Hidx deltas asm1 _ s
              Hinv1 Hdeltas)
    as (asm2 & s2 & H2 & Hinv2 & Hm2).
  exists asm2, s2.
  change (start :: deltas ++ [stop]) with ([start] ++ (deltas ++ [stop])).
  rewrite foldM_app. simpl. unfold bind at 1. rewrite H1. unfold ret at 1.
  rewrite foldM_app, H2. simpl. unfold bind.
  rewrite (stop_step json (Index start) tid tname Hidx asm2 _ stop s2
             Hinv2 Hstop Hjson).
  split; [done|]. split; [apply Hinv2|done].
Qed.

Lemma parse_failure_silent_witness :
  ∃ asm' s',
    foldM (onChunk examples.flatObject) examples.cutOffInput emptyAssembly
      examples.atRest
    = Some (asm', s')
    ∧ assistantContent asm' !! 0%nat = Some (ToolUseBlock "call-1" "bash_run" ∅)
    ∧ monitorErrors s' = monitorErrors examples.atRest.
Proof.
  apply (parse_failure_silent examples.flatObject emptyAssembly examples.atRest
           (examples.startTool 0 "call-1" "bash_run")
           [examples.jsonDelta 0 "{cmd"] (examples.stopBlock 0)
           "call-1" "bash_run").
  - split; [reflexivity|]. split; [simpl; lia|].
    eexists. split; [reflexivity|]. repeat split.
  - repeat constructor.
  - reflexivity.
  - vm_compute. reflexivity.
Defined.

(** C4, as stated, fails: on a tool-use block whose buffered JSON does not
    parse, no event at all is emitted, hence no [MonitorError] of severity
    warn. *)
Lemma parse_failure_not_reported :
  examples.flatObject "{cmd" = None
  ∧ ¬ parseFailureReported examples.flatObject examples.cutOffInput
        emptyAssembly examples.atRest.
Proof.
  split; [vm_compute; reflexivity|].
  intros (asm' & s' & Hrun & phase & msg & Hin).
  assert (He : eventsOf (foldM (onChunk examples.flatObject) examples.cutOffInput
                           emptyAssembly examples.atRest) = Some [])
    by (vm_compute; reflexivity).
  rewrite Hrun in He. simpl in He. injection He as He.
  rewrite He in Hin. simpl in Hin. by apply elem_of_nil in Hin.
Qed.

End StepLoopFacts.

(** ** Scheduler *)

Module SchedulerFacts.
Import core_scheduler.

Lemma triggerCount_app id l1 l2 :
  triggerCount id (l1 ++ l2) = (triggerCount id l1 + triggerCount id l2)%nat.
Proof. unfold triggerCount. by rewrite List.filter_app, length_app. Qed.

Lemma listenerCount_app i l1 l2 :
  listenerCount i (l1 ++ l2) = (listenerCount i l1 + listenerCount i l2)%nat.
Proof. unfold listenerCount. by rewrite List.filter_app, length_app. Qed.

Lemma notifyTask_listeners step s kv :
  stepListeners (notifyTask step s kv) = stepListeners s.
Proof. unfold notifyTask. by destruct (_ >=? _). Qed.

Lemma notifyTask_listenerCount step s kv i :
  listenerCount i (dispatched (notifyTask step s kv)) = listenerCount i (dispatched s).
Proof.
  unfold notifyTask. destruct (_ >=? _); [|done]. simpl.
  unfold listenerCount. rewrite List.filter_app, length_app. simpl. lia.
Qed.

Lemma notifyTask_triggerCount step s kv id :
  triggerCount id (dispatched (notifyTask step s kv))
  = (triggerCount id (dispatched s)
     + if String.eqb (ID kv.2) id && fire step kv.2 then 1 else 0)%nat.
Proof.
  unfold notifyTask, fire. destruct (_ >=? _); simpl.
  - rewrite triggerCount_app, andb_true_r. unfold triggerCount at 2. simpl.
    by destruct (String.eqb (ID kv.2) id).
  - rewrite andb_false_r. lia.
Qed.

Lemma notifyTask_tasks step s kv :
  stepTasks (notifyTask step s kv)
  = if fire step kv.2 then alter (setLast step) kv.1 (stepTasks s) else stepTasks s.
Proof. unfold notifyTask, fire. by destruct (_ >=? _). Qed.

Lemma fold_tasks_log step l : ∀ s,
  let s' := fold_left (notifyTask step) l s in
  stepListeners s' = stepListeners s
  ∧ (∀ i, listenerCount i (dispatched s') = listenerCount i (dispatched s))
  ∧ (∀ id, triggerCount id (dispatched s')
           = (triggerCount id (dispatched s) + fires id step l)%nat).
Proof.
  induction l as [|kv l IH]; intros s; simpl.
  - repeat split; intros; unfold fires; simpl; try done; lia.
  - destruct (IH (notifyTask step s kv)) as (H1 & H2 & H3).
    split; [by rewrite H1, notifyTask_listeners|].
    split; [intros i; by rewrite H2, notifyTask_listenerCount|].
    intros id. rewrite H3, notifyTask_triggerCount. unfold fires. simpl.
    destruct (String.eqb (ID kv.2) id && fire step kv.2); simpl; lia.
Qed.

Lemma fold_tasks_lookup step l : ∀ s k,
  NoDup l.*1 →
  stepTasks (fold_left (notifyTask step) l s) !! k
  = match list_find (λ kv, kv.1 = k) l with
    | Some (_, kv) => if fire step kv.2 then setLast step <$> stepTasks s !! k
                      else stepTasks s !! k
    | None => stepTasks s !! k
    end.
Proof.
  induction l as [|kv l IH]; intros s k Hnd; simpl; [done|].
  apply NoDup_cons in Hnd as [Hnotin Hnd].
  rewrite IH by done. rewrite notifyTask_tasks.
  destruct (decide (kv.1 = k)) as [<-|Hne]; simpl.
  - destruct (list_find (λ kv0, kv0.1 = kv.1) l) as [[j kv']|] eqn:Hfind.
    { apply list_find_Some in Hfind as (Hl & He & _).
      exfalso. apply Hnotin. rewrite <- He.
      apply list_elem_of_fmap. exists kv'. split; [done|].
      by eapply list_elem_of_lookup_2. }
    simpl. destruct (fire step kv.2); simpl; [|done].
    by rewrite lookup_alter_eq.
  - destruct (list_find (λ kv0, kv0.1 = k) l) as [[j kv']|] eqn:Hfind; simpl;
      destruct (fire step kv.2); simpl; try done; by rewrite lookup_alter_ne.
Qed.

Lemma fires_absent id step l :
  (∀ kv, kv ∈ l → ID kv.2 = kv.1) → id ∉ l.*1 → fires id step l = 0%nat.
Proof.
  induction l as [|kv l IH]; intros Hkey Hnotin; [done|].
  unfold fires. simpl.
  rewrite (Hkey kv) by left.
  destruct (String.eqb_spec kv.1 id) as [He|Hne].
  - exfalso. apply Hnotin. simpl. rewrite He. left.
  - simpl. apply IH.
    + intros kv0 H0. apply Hkey. by right.
    + intros Hin. apply Hnotin. simpl. by right.
Qed.

Lemma fires_unique id step l t :
  NoDup l.*1 → (∀ kv, kv ∈ l → ID kv.2 = kv.1) → (id, t) ∈ l →
  fires id step l = if fire step t then 1%nat else 0%nat.
Proof.
  induction l as [|kv l IH]; intros Hnd Hkey Hin.
  - by apply elem_of_nil in Hin.
  - simpl in Hnd. apply NoDup_cons in Hnd as [Hnotin Hnd].
    assert (Hkey' : ∀ kv0, kv0 ∈ l → ID kv0.2 = kv0.1)
      by (intros kv0 H0; apply Hkey; by right).
    pose proof (Hkey kv ltac:(left)) as Hid.
    apply elem_of_cons in Hin as [<-|Hin].
    + unfold fires. simpl in *. rewrite Hid, String.eqb_refl. simpl.
      pose proof (fires_absent id step l Hkey' Hnotin) as Hz.
      unfold fires in Hz. destruct (fire step t); simpl; by rewrite Hz.
    + assert (Hne : kv.1 ≠ id).
      { intros He. apply Hnotin. rewrite He.
        apply list_elem_of_fmap. by exists (id, t). }
      unfold fires. simpl. rewrite Hid.
      destruct (String.eqb_spec kv.1 id) as [He|_]; [done|]. simpl.
      by apply IH.
Qed.

Lemma triggerCount_listeners id ls j step :
  triggerCount id (notifyListeners ls j step) = 0%nat.
Proof.
  revert j. induction ls as [|[cb|] ls IH]; intros j; simpl; [done| |apply IH].
  unfold triggerCount. simpl. apply IH.
Qed.

(** One notification, seen from the task [id]. *)
Lemma NotifyStep_task s step id t :
  wellKeyed s → stepTasks s !! id = Some t →
  let s' := NotifyStep s step in
  stepTasks s' !! id = Some (if fire step t then setLast step t else t)
  ∧ triggerCount id (dispatched s')
    = (triggerCount id (dispatched s) + if fire step t then 1 else 0)%nat.
Proof.
  intros Hwk Ht. simpl. unfold NotifyStep.
  set (s1 := {| stepTasks := stepTasks s; stepListeners := stepListeners s;
                cancelledFlags := cancelledFlags s;
                dispatched := dispatched s ++ notifyListeners (stepListeners s) 0 step |}).
  assert (Hnd : NoDup (map_to_list (stepTasks s)).*1) by apply NoDup_fst_map_to_list.
  assert (Hin : (id, t) ∈ map_to_list (stepTasks s)) by by apply elem_of_map_to_list.
  split.
  - rewrite fold_tasks_lookup by done.
    destruct (list_find _ _) as [[j kv]|] eqn:Hfind.
    + apply list_find_Some in Hfind as (Hl & He & _).
      assert (kv ∈ map_to_list (stepTasks s)) as Hkv by by eapply list_elem_of_lookup_2.
      destruct kv as [k t']. simpl in He. subst k.
      apply elem_of_map_to_list in Hkv. rewrite Ht in Hkv. injection Hkv as <-.
      simpl. subst s1. simpl. rewrite Ht. by destruct (fire step t).
    + exfalso. eapply list_find_None in Hfind.
      rewrite Forall_forall in Hfind. by apply (Hfind (id, t)).
  - destruct (fold_tasks_log step (map_to_list (stepTasks s)) s1) as (_ & _ & H3).
    rewrite H3. subst s1. simpl.
    rewrite triggerCount_app.
    rewrite triggerCount_listeners, (fires_unique id step _ t); [lia|done| |done].
    intros [k t'] Hkv. apply elem_of_map_to_list in Hkv. simpl. by apply Hwk.
Qed.

Lemma NotifyStep_wellKeyed s step : wellKeyed s → wellKeyed (NotifyStep s step).
Proof.
  intros Hwk k t. unfold NotifyStep.
  rewrite fold_tasks_lookup by apply NoDup_fst_map_to_list. simpl.
  destruct (list_find _ _) as [[j kv]|]; [|apply Hwk].
  destruct (fire step kv.2); [|apply Hwk].
  destruct (stepTasks s !! k) as [t0|] eqn:Ht0; [|done].
  simpl. intros H. injection H as <-. simpl. by apply Hwk.
Qed.

Lemma notifyListeners_count i step ls : ∀ j,
  listenerCount i (notifyListeners ls j step)
  = if decide (j ≤ i)%nat
    then match ls !! (i - j)%nat with Some (Some _) => 1%nat | _ => 0%nat end
    else 0%nat.
Proof.
  induction ls as [|x ls IH]; intros j.
  - simpl. by destruct (decide _).
  - assert (Hrest : listenerCount i (notifyListeners ls (S j) step)
                    = if decide (j < i)%nat
                      then match ls !! (i - S j)%nat with
                           | Some (Some _) => 1%nat | _ => 0%nat end
                      else 0%nat).
    { rewrite IH. destruct (decide (S j ≤ i)%nat), (decide (j < i)%nat); try done; lia. }
    destruct (decide (j ≤ i)%nat) as [Hle|Hgt].
    + destruct (decide (j = i)) as [->|Hne].
      * rewrite Nat.sub_diag. simpl.
        destruct (decide (i < i)%nat); [lia|].
        destruct x as [cb|]; simpl.
        -- unfold listenerCount in *. simpl. rewrite Nat.eqb_refl. simpl.
           by rewrite Hrest.
        -- done.
      * destruct (decide (j < i)%nat); [|lia].
        replace (i - j)%nat with (S (i - S j)) by lia. simpl.
        destruct x as [cb|]; simpl; [|done].
        unfold listenerCount in *. simpl.
        destruct (Nat.eqb_spec j i); [done|]. simpl. done.
    + destruct (decide (j < i)%nat); [lia|].
      destruct x as [cb|]; simpl; [|done].
      unfold listenerCount in *. simpl.
      destruct (Nat.eqb_spec j i); [lia|]. simpl. done.
Qed.

Lemma NotifyStep_listeners s step :
  let s' := NotifyStep s step in
  stepListeners s' = stepListeners s
  ∧ ∀ i, listenerCount i (dispatched s')
         = (listenerCount i (dispatched s)
            + match stepListeners s !! i with
              | Some (Some _) => 1 | _ => 0 end)%nat.
Proof.
  simpl. unfold NotifyStep.
  destruct (fold_tasks_log step (map_to_list (stepTasks s))
              {| stepTasks := stepTasks s; stepListeners := stepListeners s;
                 cancelledFlags := cancelledFlags s;
                 dispatched := dispatched s ++ notifyListeners (stepListeners s) 0 step |})
    as (H1 & H2 & _).
  split; [done|]. intros i. rewrite H2. simpl.
  rewrite listenerCount_app, notifyListeners_count.
  destruct (decide (0 ≤ i)%nat); [|lia]. by rewrite Nat.sub_0_r.
Qed.

Lemma div_step n N :
  1 ≤ n → 0 ≤ N →
  if N + 1 - n * (N / n) >=? n
  then (N + 1) / n = N / n + 1 ∧ N + 1 = n * ((N + 1) / n)
  else (N + 1) / n = N / n.
Proof.
  intros Hn HN.
  pose proof (Z.div_mod N n ltac:(lia)) as Hdm.
  pose proof (Z.mod_pos_bound N n ltac:(lia)) as Hb.
  destruct (N + 1 - n * (N / n) >=? n) eqn:E.
  - apply Z.geb_le in E.
    assert (Hq : (N + 1) / n = N / n + 1).
    { symmetry. apply (Z.div_unique (N + 1) n (N / n + 1) 0); lia. }
    split; [done|]. rewrite Hq. lia.
  - assert (Hlt : N + 1 - n * (N / n) < n).
    { destruct (Z.geb_spec (N + 1 - n * (N / n)) n); [done|lia]. }
    symmetry. apply (Z.div_unique (N + 1) n (N / n) (N mod n + 1)); lia.
Qed.

Lemma notifySteps_S s N :
  notifySteps s (S N) = NotifyStep (notifySteps s N) (Z.of_nat (S N)).
Proof.
  unfold notifySteps. rewrite seq_S, fmap_app, fold_left_app. reflexivity.
Qed.

Lemma notifySteps_invariant s id n cb N :
  wellKeyed s → 1 ≤ n → Z.of_nat N < 2 ^ 63 →
  stepTasks s !! id = Some (taskOf id n cb 0) →
  let s' := notifySteps s N in
  wellKeyed s'
  ∧ stepTasks s' !! id = Some (taskOf id n cb (n * (Z.of_nat N / n)))
  ∧ triggerCount id (dispatched s')
    = (triggerCount id (dispatched s) + Z.to_nat (Z.of_nat N / n))%nat
  ∧ stepListeners s' = stepListeners s
  ∧ ∀ i, listenerCount i (dispatched s')
         = (listenerCount i (dispatched s)
            + match stepListeners s !! i with
              | Some (Some _) => N | _ => 0 end)%nat.
Proof.
  intros Hwk Hn. induction N as [|N IH]; intros HN Ht; simpl.
  - unfold notifySteps. simpl. rewrite Z.div_0_l by lia. rewrite Z.mul_0_r. simpl.
    repeat split; try done; try lia.
    intros i. destruct (stepListeners s !! i) as [[?|]|]; lia.
  - destruct (IH ltac:(lia) Ht) as (Hwk' & Ht' & Hc' & Hl' & Hlc'). clear IH.
    rewrite notifySteps_S.
    set (sN := notifySteps s N) in *.
    destruct (NotifyStep_task sN (Z.of_nat (S N)) id _ Hwk' Ht') as [Ht2 Hc2].
    destruct (NotifyStep_listeners sN (Z.of_nat (S N))) as [Hl2 Hlc2].
    split; [by apply NotifyStep_wellKeyed|].
    pose proof (div_step n (Z.of_nat N) Hn ltac:(lia)) as Hds.
    assert (Hfire : fire (Z.of_nat (S N)) (taskOf id n cb (n * (Z.of_nat N / n)))
                    = (Z.of_nat N + 1 - n * (Z.of_nat N / n) >=? n)).
    { unfold fire, taskOf. cbn [LastTriggered Every].
      rewrite GoIntFacts.sub_small; [f_equal; lia|].
      pose proof (Z.div_mod (Z.of_nat N) n ltac:(lia)).
      pose proof (Z.mod_pos_bound (Z.of_nat N) n ltac:(lia)).
      assert (0 ≤ n * (Z.of_nat N / n))
        by (apply Z.mul_nonneg_nonneg; [lia | apply Z.div_pos; lia]).
      unfold GoInt.in_range. lia. }
    rewrite Hfire in Ht2, Hc2.
    replace (Z.of_nat (S N)) with (Z.of_nat N + 1) in * by lia.
    pose proof (Z.div_pos (Z.of_nat N) n ltac:(lia) ltac:(lia)) as Hq0.
    destruct (Z.of_nat N + 1 - n * (Z.of_nat N / n) >=? n).
    + destruct Hds as [Hq Hlast].
      split; [rewrite Ht2; unfold setLast, taskOf; simpl; by rewrite <- Hlast|].
      split; [rewrite Hc2, Hc', Hq; lia|].
      split; [congruence|].
      intros i. rewrite Hlc2, Hlc', Hl'.
      destruct (stepListeners s !! i) as [[?|]|]; lia.
    + split; [rewrite Ht2; by rewrite Hds|].
      split; [rewrite Hc2, Hc', Hds; lia|].
      split; [congruence|].
      intros i. rewrite Hlc2, Hlc', Hl'.
      destruct (stepListeners s !! i) as [[?|]|]; lia.
Qed.

(** C7.  For every n >= 1 and N, after an [EverySteps(n)] registration and
    the notifications [NotifyStep(1)], ..., [NotifyStep(N)] delivered one
    after the other, the callback of the task has been started exactly
    N / n times (rounded down), its last firing being at step n * (N / n):
    it fires once each time the step count has grown by n since it last
    fired; and every listener that is registered and not cancelled has been
    started exactly N times. *)
Theorem scheduler_step_counts (s : Scheduler) (id : string) (n : Z)
    (cb : string) (N : nat) :
  wellKeyed s → 1 ≤ n → Z.of_nat N < 2 ^ 63 →
  ∃ s1,
    EverySteps s id n cb = inr (id, s1)
    ∧ triggerCount id (dispatched (notifySteps s1 N))
      = (triggerCount id (dispatched s) + Z.to_nat (Z.of_nat N / n))%nat
    ∧ LastTriggered <$> stepTasks (notifySteps s1 N) !! id
      = Some (n * (Z.of_nat N / n))
    ∧ ∀ i cb', stepListeners s !! i = Some (Some cb') →
               listenerCount i (dispatched (notifySteps s1 N))
               = (listenerCount i (dispatched s) + N)%nat.
Proof.
  intros Hwk Hn HN. unfold EverySteps.
  destruct (Z.leb_spec n 0) as [|_]; [lia|].
  eexists. split; [reflexivity|].
  set (s1 := {| stepTasks := _ |}).
  assert (Hwk1 : wellKeyed s1).
  { intros k t. subst s1. simpl. rewrite lookup_insert.
    case_decide as Hk; [|apply Hwk]. intros H. injection H as <-. done. }
  assert (Ht1 : stepTasks s1 !! id = Some (taskOf id n cb 0)).
  { subst s1. simpl. by rewrite lookup_insert_eq. }
  destruct (notifySteps_invariant s1 id n cb N Hwk1 Hn HN Ht1)
    as (_ & Ht & Hc & _ & Hlc).
  split; [exact Hc|]. split; [by rewrite Ht|].
  intros i cb' Hi. rewrite Hlc. subst s1. simpl. by rewrite Hi.
Qed.

Lemma scheduler_step_counts_witness :
  wellKeyed examples.listening ∧ 1 ≤ 3 ∧ Z.of_nat 10 < 2 ^ 63
  ∧ ∃ s1,
      EverySteps examples.listening "step-1" 3 "every-3" = inr ("step-1", s1)
      ∧ triggerCount "step-1" (dispatched (notifySteps s1 10))
        = (triggerCount "step-1" (dispatched examples.listening)
           + Z.to_nat (Z.of_nat 10 / 3))%nat
      ∧ LastTriggered <$> stepTasks (notifySteps s1 10) !! "step-1"
        = Some (3 * (Z.of_nat 10 / 3))
      ∧ ∀ i cb', stepListeners examples.listening !! i = Some (Some cb') →
                 listenerCount i (dispatched (notifySteps s1 10))
                 = (listenerCount i (dispatched examples.listening) + 10)%nat.
Proof.
  assert (Hwk : wellKeyed examples.listening) by (intros k t H; done).
  assert (Hn : 1 ≤ 3) by lia.
  assert (HN : Z.of_nat 10 < 2 ^ 63) by (vm_compute; reflexivity).
  split; [exact Hwk|]. split; [exact Hn|]. split; [exact HN|].
  exact (scheduler_step_counts examples.listening "step-1" 3 "every-3" 10 Hwk Hn HN).
Defined.

(** The scenario of the scheduler test: every 3 steps, 10 notifications,
    3 firings, at the steps 3, 6 and 9. *)
Example every_three_of_ten :
  match EverySteps NewScheduler "t" 3 "cb" with
  | inr (_, s1) => dispatched (notifySteps s1 10)
  | inl _ => []
  end = [TaskCall "t" "cb" 3; TaskCall "t" "cb" 6; TaskCall "t" "cb" 9].
Proof. vm_compute. reflexivity. Qed.

End SchedulerFacts.

(** ** Rooms: mention routing *)

Module RoomFacts.
Import agent core_pool core_room.

(** The loop of [extractMentions] keeps the names not seen before. *)
Lemma dedupe_spec names : ∀ seen x,
  x ∈ dedupe names seen ↔ x ∈ names ∧ x ∉ seen.
Proof.
  induction names as [|n names IH]; intros seen x; simpl.
  - rewrite elem_of_nil. naive_solver.
  - destruct (decide (n ∈ seen)).
    + rewrite IH, elem_of_cons. naive_solver.
    + rewrite elem_of_cons, IH, elem_of_cons.
      split.
      * intros [->|[H1 H2]]; [naive_solver|]. split; [by right|set_solver].
      * intros [[->|H1] H2]; [by left|].
        destruct (decide (x = n)) as [->|]; [by left|].
        right. split; [done|set_solver].
Qed.

Lemma dedupe_NoDup names : ∀ seen, NoDup (dedupe names seen).
Proof.
  induction names as [|n names IH]; intros seen; simpl; [constructor|].
  destruct (decide (n ∈ seen)); [apply IH|].
  constructor; [|apply IH]. rewrite dedupe_spec. set_solver.
Qed.

(** The targets built from the mentions: a mentioned member is mapped to
    its agent, every other name is left as it was. *)
Lemma mention_targets r mentions name : ∀ acc : gmap string string,
  fold_left (λ targets mention,
               match members r !! mention with
               | Some agentID => <[mention := agentID]> targets
               | None => targets
               end) mentions acc !! name
  = if decide (name ∈ mentions)
    then match members r !! name with Some a => Some a | None => acc !! name end
    else acc !! name.
Proof.
  induction mentions as [|m mentions IH]; intros acc.
  - simpl. destruct (decide (name ∈ [])) as [H|]; [by apply elem_of_nil in H|done].
  - cbn [fold_left]. rewrite IH.
    destruct (decide (name ∈ mentions)) as [Hin|Hnin];
      destruct (decide (name ∈ m :: mentions)) as [Hin'|Hnin'].
    + destruct (members r !! name) as [a|] eqn:Hn; [done|].
      destruct (members r !! m) as [am|] eqn:Hm; [|done].
      rewrite lookup_insert_ne; [done|]. intros ->. congruence.
    + exfalso. apply Hnin'. by right.
    + apply elem_of_cons in Hin' as [->|]; [|done].
      destruct (members r !! m) as [am|]; [by rewrite lookup_insert_eq|done].
    + assert (m ≠ name) by (intros ->; apply Hnin'; left).
      destruct (members r !! m) as [am|]; [by rewrite lookup_insert_ne|done].
Qed.

Lemma sayTargets_lookup r from mentions name a :
  sayTargets r from mentions !! name = Some a
  ↔ members r !! name = Some a
    ∧ if (0 <? length mentions)%nat then name ∈ mentions else name ≠ from.
Proof.
  unfold sayTargets. destruct (0 <? length mentions)%nat.
  - rewrite mention_targets, lookup_empty.
    destruct (decide (name ∈ mentions)); [|naive_solver].
    destruct (members r !! name); naive_solver.
  - rewrite map_lookup_filter_Some. simpl. naive_solver.
Qed.

(** Each target gives at most one goroutine. *)
Lemma sends_NoDup p (l : list (string * string)) text :
  NoDup l.*1 →
  NoDup (memberName <$>
    omap (λ kv : string * string,
            match Get p kv.2 with
            | Some _ => Some {| memberName := kv.1; agentID := kv.2; txt := text |}
            | None => None
            end) l).
Proof.
  induction l as [|kv l IH]; simpl; intros Hnd; [constructor|].
  apply NoDup_cons in Hnd as [Hnotin Hnd].
  destruct (Get p kv.2); simpl; [|by apply IH].
  constructor; [|by apply IH].
  intros Hin. apply Hnotin.
  apply list_elem_of_fmap in Hin as (d & Hd & Hin).
  apply list_elem_of_omap in Hin as (kv' & Hin' & Hf).
  destruct (Get p kv'.2); [|done]. injection Hf as <-. simpl in Hd.
  apply list_elem_of_fmap. by exists kv'.
Qed.

(** C6, amended: for a sender that is a member, [Say] succeeds; the
    mentions are collapsed to their first occurrences; every member gets at
    most one message, each is the text prefixed with [[from:<sender>] ] and
    goes to the agent the member is registered with; and the members
    delivered to are exactly the mentioned members (with no mention: the
    members other than the sender) whose agent is still held by the pool. *)
Theorem Say_routing (p : Pool) (r : Room) (from text : string) (now : Z) :
  is_Some (members r !! from) →
  ∃ r' ds,
    Say p r from text now = inr (r', ds)
    ∧ NoDup (extractMentions text)
    ∧ NoDup (memberName <$> ds)
    ∧ Forall (λ d, txt d = "[from:" +:+ from +:+ "] " +:+ text
                   ∧ members r !! memberName d = Some (agentID d)) ds
    ∧ ∀ name,
        name ∈ delivered ds
        ↔ ∃ a, members r !! name = Some a
               ∧ is_Some (Get p a)
               ∧ if (0 <? length (extractMentions text))%nat
                 then name ∈ extractMentions text
                 else name ≠ from.
Proof.
  intros [a0 Hfrom]. unfold Say. rewrite Hfrom.
  do 2 eexists. split; [reflexivity|].
  split; [apply dedupe_NoDup|].
  split; [apply sends_NoDup, NoDup_fst_map_to_list|].
  split.
  - apply Forall_forall. intros d Hd.
    apply list_elem_of_omap in Hd as ([k a] & Hin & Hf). simpl in Hf.
    destruct (Get p a); [|done]. injection Hf as <-. simpl.
    split; [done|].
    apply elem_of_map_to_list in Hin. by apply sayTargets_lookup in Hin as [? _].
  - intros name. unfold delivered. rewrite elem_of_list_to_set.
    rewrite list_elem_of_fmap. split.
    + intros (d & -> & Hd).
      apply list_elem_of_omap in Hd as ([k a] & Hin & Hf). simpl in Hf.
      destruct (Get p a) eqn:Hg; [|done]. injection Hf as <-. simpl.
      apply elem_of_map_to_list in Hin. apply sayTargets_lookup in Hin as [Hm Hc].
      exists a. rewrite Hg. eauto.
    + intros (a & Hm & [ag Hg] & Hc).
      eexists. split; [|apply list_elem_of_omap].
      2:{ exists (name, a). split.
          - apply elem_of_map_to_list. by apply sayTargets_lookup.
          - simpl. rewrite Hg. reflexivity. }
      done.
Qed.

Lemma Say_routing_witness :
  is_Some (members examples.aliceAndBob !! "bob")
  ∧ ∃ r' ds,
      Say examples.poolOfA examples.aliceAndBob "bob" "hi all" 0 = inr (r', ds)
      ∧ ("alice" ∈ delivered ds
         ↔ ∃ a, members examples.aliceAndBob !! "alice" = Some a
                ∧ is_Some (Get examples.poolOfA a)
                ∧ "alice" ≠ "bob").
Proof.
  assert (H : is_Some (members examples.aliceAndBob !! "bob"))
    by (exists "B"; vm_compute; reflexivity).
  split; [exact H|].
  destruct (Say_routing examples.poolOfA examples.aliceAndBob "bob" "hi all" 0 H)
    as (r' & ds & HS & _ & _ & _ & Hd).
  exists r', ds. split; [exact HS|]. exact (Hd "alice").
Defined.

(** bob is mentioned and is a member, but his agent has left the pool:
    nothing is delivered to him. *)
Lemma mentioned_member_skipped :
  "bob" ∈ extractMentions "hi @bob"
  ∧ members examples.aliceAndBob !! "bob" = Some "B"
  ∧ ¬ routedToMentions examples.poolOfA examples.aliceAndBob "alice" "hi @bob" 0.
Proof.
  assert (Hm : extractMentions "hi @bob" = ["bob"]) by (vm_compute; reflexivity).
  assert (Hb : members examples.aliceAndBob !! "bob" = Some "B")
    by (vm_compute; reflexivity).
  split; [rewrite Hm; by left|]. split; [exact Hb|].
  intros (r' & ds & HS & Hd).
  assert (Hn : deliveredNames
                 (Say examples.poolOfA examples.aliceAndBob "alice" "hi @bob" 0)
               = Some []) by (vm_compute; reflexivity).
  rewrite HS in Hn. simpl in Hn. injection Hn as Hn.
  assert (Hin : "bob" ∈ delivered ds).
  { rewrite Hd, Hm. apply elem_of_intersection. split.
    - apply elem_of_list_to_set. by left.
    - apply elem_of_dom. rewrite Hb. by eexists. }
  unfold delivered in Hin. rewrite Hn in Hin. clear -Hin.
  apply elem_of_list_to_set in Hin. by apply elem_of_nil in Hin.
Qed.

End RoomFacts.

(** ** The pool *)

Module PoolFacts.
Import agent core_pool.

(** [agent.Create] leaves a given id as it is and fills in an empty one. *)
Lemma agent_Create_config h deps uuid cfg e :
  config.AgentID (agent.Create h deps uuid cfg e).1.1
  = if String.eqb (config.AgentID cfg) "" then generateAgentID uuid
    else config.AgentID cfg.
Proof.
  unfold agent.Create.
  destruct (String.eqb (config.AgentID cfg) "") eqn:He;
    repeat case_match; reflexivity.
Qed.

(** C9, amended: [Pool.Create] returns an error and leaves the pool as it
    was when the id is already present, when the pool holds [maxAgents]
    agents, and also when [agent.Create] fails; when [agent.Create]
    succeeds, the agent is stored under the id of the configuration as
    [agent.Create] leaves it (an empty id is replaced by a generated one),
    and for a non-empty id the pool has grown by exactly one entry. *)
Theorem Pool_Create_outcomes (h : sandbox.Host) (uuid : string) (p : Pool)
    (cfg : config.AgentConfig) (e : Env) :
  (is_Some (agents p !! config.AgentID cfg) →
     Create h uuid p cfg e
     = (cfg, inr ("agent already exists: " +:+ config.AgentID cfg), p, e))
  ∧ (agents p !! config.AgentID cfg = None → maxAgents p ≤ Size p →
     Create h uuid p cfg e
     = (cfg, inr ("pool is full (max " +:+ builtin.itoa (maxAgents p) +:+ " agents)"),
        p, e))
  ∧ (agents p !! config.AgentID cfg = None → Size p < maxAgents p →
     match agent.Create h (deps p) uuid cfg e with
     | (cfg', inr err, e') =>
         Create h uuid p cfg e = (cfg', inr ("create agent: " +:+ err), p, e')
     | (cfg', inl a, e') =>
         ∃ p', Create h uuid p cfg e = (cfg', inl a, p', e')
               ∧ agents p' = <[config.AgentID cfg' := a]> (agents p)
               ∧ deps p' = deps p ∧ maxAgents p' = maxAgents p
               ∧ config.AgentID cfg'
                 = (if String.eqb (config.AgentID cfg) "" then generateAgentID uuid
                    else config.AgentID cfg)
               ∧ (config.AgentID cfg ≠ "" → Size p' = Size p + 1)
     end).
Proof.
  unfold Create. split; [|split].
  - intros [a Ha]. rewrite Ha. reflexivity.
  - intros Hn Hfull. rewrite Hn.
    destruct (Z.geb_spec (Size p) (maxAgents p)); [reflexivity|lia].
  - intros Hn Hroom. rewrite Hn.
    destruct (Z.geb_spec (Size p) (maxAgents p)); [lia|].
    pose proof (agent_Create_config h (deps p) uuid cfg e) as Hid.
    destruct (agent.Create h (deps p) uuid cfg e) as [[cfg' [a|err]] e'];
      [|reflexivity].
    simpl in Hid. eexists. split; [reflexivity|]. simpl.
    repeat split; [exact Hid|].
    intros Hne. rewrite Hid.
    destruct (String.eqb_spec (config.AgentID cfg) ""); [done|].
    unfold Size. simpl. rewrite map_size_insert_None by done. lia.
Qed.

(** Neither a duplicate nor a full pool, yet nothing is inserted: the
    sandbox kind of the configuration cannot be created. *)
Lemma failed_construction_inserts_nothing :
  agents examples.emptyPool !! "a1" = None
  ∧ Size examples.emptyPool < maxAgents examples.emptyPool
  ∧ ¬ insertedOne examples.quietHost "u1" examples.emptyPool
        (examples.testConfig "a1" config.SandboxKindDocker) examples.calmEnv.
Proof.
  split; [reflexivity|]. split; [reflexivity|].
  intros [a Ha].
  assert (Hs : size (agents (poolAfter examples.quietHost "u1" examples.emptyPool
                               (examples.testConfig "a1" config.SandboxKindDocker)
                               examples.calmEnv)) = 0%nat)
    by (vm_compute; reflexivity).
  rewrite Ha in Hs. clear Ha.
  apply map_size_empty_inv in Hs. by apply insert_non_empty in Hs.
Qed.

End PoolFacts.

(** ** Permission manager: counters, construction, rules and hooks *)

Module ManagerFacts.
Import types core_permission PermissionFacts.

(** The decision and the reason depend on the lists, the rules and the
    default mode only. *)
Lemma Check_frame pm1 pm2 call :
  denyList pm1 = denyList pm2 → allowList pm1 = allowList pm2 →
  askList pm1 = askList pm2 → rules pm1 = rules pm2 →
  defaultMode pm1 = defaultMode pm2 →
  (Check pm1 call).1 = (Check pm2 call).1.
Proof.
  intros Hd Ha Hk Hr Hm. unfold Check. simpl. rewrite Hd, Ha, Hk, Hr, Hm.
  destruct (index (denyList pm2) (tcr_Name call)); [done|].
  destruct (index (allowList pm2) (tcr_Name call)); [done|].
  destruct (index (askList pm2) (tcr_Name call)); [done|].
  destruct (rules pm2 !! tcr_Name call) as [rule|]; simpl; [done|].
  by destruct (defaultMode pm2).
Qed.

(** [Check] counts: the total goes up by one, the counter of the decision
    goes up by one, the other counters stay, and the hook errors, the
    lists, the rules and the default mode are left alone. *)
Theorem Check_counts (pm : PermissionManager) (call : ToolCallRecord) :
  let '(d, _, pm') := Check pm call in
  let st := stats pm in
  TotalChecks (stats pm') = GoInt.incr (TotalChecks st)
  ∧ HookErrorCount (stats pm') = HookErrorCount st
  ∧ (AllowedCount (stats pm'), DeniedCount (stats pm'), ApprovalCount (stats pm'))
    = match d with
      | PermissionAllow =>
          (GoInt.incr (AllowedCount st), DeniedCount st, ApprovalCount st)
      | PermissionDeny =>
          (AllowedCount st, GoInt.incr (DeniedCount st), ApprovalCount st)
      | PermissionAsk =>
          (AllowedCount st, DeniedCount st, GoInt.incr (ApprovalCount st))
      | PermissionOther _ => (AllowedCount st, DeniedCount st, ApprovalCount st)
      end
  ∧ denyList pm' = denyList pm ∧ allowList pm' = allowList pm
  ∧ askList pm' = askList pm ∧ rules pm' = rules pm
  ∧ defaultMode pm' = defaultMode pm.
Proof.
  unfold Check. simpl.
  destruct (index (denyList pm) (tcr_Name call)); [done|].
  destruct (index (allowList pm) (tcr_Name call)); [done|].
  destruct (index (askList pm) (tcr_Name call)); [done|].
  destruct (rules pm !! tcr_Name call) as [rule|]; simpl.
  - destruct (Decision rule); repeat split.
  - destruct (defaultMode pm) eqn:Hm; repeat split; exact Hm.
Qed.

Lemma Check_keeps pm call :
  denyList (Check pm call).2 = denyList pm
  ∧ allowList (Check pm call).2 = allowList pm
  ∧ askList (Check pm call).2 = askList pm
  ∧ rules (Check pm call).2 = rules pm
  ∧ defaultMode (Check pm call).2 = defaultMode pm
  ∧ TotalChecks (stats (Check pm call).2) = GoInt.incr (TotalChecks (stats pm)).
Proof.
  unfold Check. simpl.
  repeat case_match; simpl; repeat split; congruence.
Qed.

(** Checks do not interfere: in a sequence of checks every call gets the
    answer a single [Check] on the manager at the start gives it, and the
    total has grown by the number of calls. *)
Theorem checks_do_not_interfere (pm : PermissionManager)
    (calls : list ToolCallRecord) :
  (checkAll pm calls).1 = (λ call, (Check pm call).1) <$> calls
  ∧ TotalChecks (stats (checkAll pm calls).2)
    = Nat.iter (length calls) GoInt.incr (TotalChecks (stats pm))
  ∧ denyList (checkAll pm calls).2 = denyList pm
  ∧ allowList (checkAll pm calls).2 = allowList pm
  ∧ askList (checkAll pm calls).2 = askList pm
  ∧ rules (checkAll pm calls).2 = rules pm
  ∧ defaultMode (checkAll pm calls).2 = defaultMode pm.
Proof.
  revert pm. induction calls as [|call calls IH]; intros pm; [done|].
  simpl. destruct (Check_keeps pm call) as (Hd & Ha & Hk & Hr & Hm & Ht).
  destruct (Check pm call) as [[d reason] pm1] eqn:HC. simpl in *.
  specialize (IH pm1). destruct (checkAll pm1 calls) as [ds pm2]. simpl in *.
  destruct IH as (IH1 & IH2 & IH3 & IH4 & IH5 & IH6 & IH7).
  split.
  - f_equal. rewrite IH1. apply list_fmap_ext. intros _ c _.
    by apply Check_frame.
  - rewrite IH2, IH3, IH4, IH5, IH6, IH7, Ht.
    repeat split; try done.
    clear. induction (length calls) as [|n IHn]; [done|].
    simpl. by rewrite IHn.
Qed.

(** Membership of the lists a manager is constructed with. *)
Lemma index_setAll l : ∀ m t,
  index (setAll l m) t = true ↔ t ∈ l ∨ index m t = true.
Proof.
  unfold setAll. induction l as [|x l IH]; intros m t; simpl.
  - rewrite elem_of_nil. tauto.
  - rewrite IH, index_insert, elem_of_cons.
    destruct (decide (x = t)) as [->|]; naive_solver.
Qed.

(** A manager constructed from options holds on each list exactly the
    names given for it, has no rules and zero counters; the lists are not
    made exclusive: a name given for the deny list is denied whatever else
    it is given for. *)
Theorem constructed_lists (o : PermissionManagerOptions) (t : string) :
  let pm := NewPermissionManager (Some o) in
  (IsInAllowList pm t = true ↔ t ∈ opt_AllowList o)
  ∧ (IsInDenyList pm t = true ↔ t ∈ opt_DenyList o)
  ∧ (IsInAskList pm t = true ↔ t ∈ opt_AskList o)
  ∧ rules pm = ∅
  ∧ GetStats pm = zeroStats
  ∧ GetDefaultMode pm = opt_DefaultMode o
  ∧ ∀ call, tcr_Name call = t → t ∈ opt_DenyList o →
            (Check pm call).1 = (PermissionDeny, "tool is in deny list").
Proof.
  intros pm. subst pm. unfold IsInAllowList, IsInDenyList, IsInAskList. simpl.
  rewrite !index_setAll, !index_empty.
  repeat split; try naive_solver.
  intros call <- Hin. apply Check_deny_list.
  unfold IsInDenyList. simpl. apply index_setAll. by left.
Qed.

(** A rule decides the calls of its tool as long as no list holds the
    tool; a list that holds the tool shadows the rule; the rule of one tool
    leaves the other tools alone; and removing the rule undoes it. *)
Theorem SetRule_then_Check (pm : PermissionManager) (t : string)
    (d : PermissionDecision) (reason : string) (call : ToolCallRecord) :
  (tcr_Name call = t → listsHolding pm t = 0%nat →
   (Check (SetRule pm t d reason) call).1 = (d, reason))
  ∧ (tcr_Name call = t → listsHolding pm t ≠ 0%nat →
     (Check (SetRule pm t d reason) call).1 = (Check pm call).1)
  ∧ (tcr_Name call ≠ t →
     (Check (SetRule pm t d reason) call).1 = (Check pm call).1)
  ∧ (Check (RemoveRule (SetRule pm t d reason) t) call).1
    = (Check (RemoveRule pm t) call).1.
Proof.
  unfold listsHolding, IsInAllowList, IsInDenyList, IsInAskList.
  repeat split.
  - intros <- H. unfold Check. simpl.
    destruct (index (denyList pm) (tcr_Name call));
      destruct (index (allowList pm) (tcr_Name call));
      destruct (index (askList pm) (tcr_Name call)); simpl in H; try lia.
    by rewrite lookup_insert_eq.
  - intros <- H. unfold Check. simpl.
    destruct (index (denyList pm) (tcr_Name call)); [done|].
    destruct (index (allowList pm) (tcr_Name call)); [done|].
    destruct (index (askList pm) (tcr_Name call)); [done|].
    simpl in H. lia.
  - intros Hne. unfold Check. simpl.
    rewrite lookup_insert_ne by congruence.
    destruct (index (denyList pm) (tcr_Name call)); [done|].
    destruct (index (allowList pm) (tcr_Name call)); [done|].
    destruct (index (askList pm) (tcr_Name call)); [done|].
    destruct (rules pm !! tcr_Name call) as [rule|]; simpl; [done|].
    by destruct (defaultMode pm).
  - apply Check_frame; simpl; try done. by rewrite delete_insert_eq.
Qed.

(** Hooks run in order, each on the call its predecessors left, and stop at
    the first error: running [hs1 ++ hs2] is running [hs1] and then, unless
    it failed, [hs2] on its result.  A run without error leaves the
    manager as it was; a failed run counts one hook error. *)
Theorem RunPreHooks_app (hs1 hs2 : list PermissionHook) (pm : PermissionManager)
    (call : ToolCallRecord) :
  match RunPreHooks hs1 pm call with
  | (inl call', pm') =>
      pm' = pm
      ∧ RunPreHooks (hs1 ++ hs2) pm call = RunPreHooks hs2 pm call'
  | (inr err, pm') =>
      pm' = set_stats pm (bumpHookError (stats pm))
      ∧ RunPreHooks (hs1 ++ hs2) pm call = (inr err, pm')
      ∧ ∃ e, err = "pre-hook error: " +:+ e
  end.
Proof.
  revert call. induction hs1 as [|h hs1 IH]; intros call; simpl; [done|].
  destruct (PreToolUse h) as [pre|]; [|apply IH].
  destruct (pre call) as [[newCall|]|err]; [apply IH|apply IH|].
  repeat split. by eexists.
Qed.

End ManagerFacts.

(** ** Scheduler: cancelling, clearing, one notification *)

Module SchedulerMoreFacts.
Import core_scheduler SchedulerFacts.

(** The task loop of a notification does not look at the listeners. *)
Lemma NotifyStep_triggerCount s step id :
  triggerCount id (dispatched (NotifyStep s step))
  = (triggerCount id (dispatched s)
     + fires id step (map_to_list (stepTasks s)))%nat.
Proof.
  unfold NotifyStep.
  destruct (fold_tasks_log step (map_to_list (stepTasks s))
              {| stepTasks := stepTasks s; stepListeners := stepListeners s;
                 cancelledFlags := cancelledFlags s;
                 dispatched := dispatched s
                               ++ notifyListeners (stepListeners s) 0 step |})
    as (_ & _ & H).
  rewrite H. simpl. by rewrite triggerCount_app, triggerCount_listeners, Nat.add_0_r.
Qed.



(** A notification leaves alone the ids under which no task is stored. *)
Lemma NotifyStep_absent s step id :
  wellKeyed s → stepTasks s !! id = None →
  stepTasks (NotifyStep s step) !! id = None
  ∧ triggerCount id (dispatched (NotifyStep s step))
    = triggerCount id (dispatched s).
Proof.
  intros Hwk Hnone. split.
  - unfold NotifyStep.
    rewrite fold_tasks_lookup by apply NoDup_fst_map_to_list.
    destruct (list_find _ _) as [[j kv]|] eqn:Hfind; [|done].
    apply list_find_Some in Hfind as (Hl & He & _).
    assert (kv ∈ map_to_list (stepTasks s)) as Hkv
      by by eapply list_elem_of_lookup_2.
    destruct kv as [k t]. simpl in He. subst k.
    apply elem_of_map_to_list in Hkv. congruence.
  - rewrite NotifyStep_triggerCount, fires_absent; [lia| |].
    + intros [k t] Hkv. apply elem_of_map_to_list in Hkv. simpl. by apply Hwk.
    + intros Hin. apply list_elem_of_fmap in Hin as ([k t] & -> & Hkv).
      apply elem_of_map_to_list in Hkv. simpl in Hnone. congruence.
Qed.

Lemma notifySteps_absent s id N :
  wellKeyed s → stepTasks s !! id = None →
  wellKeyed (notifySteps s N)
  ∧ stepTasks (notifySteps s N) !! id = None
  ∧ triggerCount id (dispatched (notifySteps s N))
    = triggerCount id (dispatched s).
Proof.
  intros Hwk Hnone. induction N as [|N (IH1 & IH2 & IH3)]; [done|].
  rewrite notifySteps_S.
  destruct (NotifyStep_absent (notifySteps s N) (Z.of_nat (S N)) id IH1 IH2)
    as [H1 H2].
  split; [by apply NotifyStep_wellKeyed|]. split; [done|]. congruence.
Qed.

Lemma oneTask_wellKeyed : wellKeyed examples.oneTask.
Proof.
  intros k t H.
  change (({[ "t" := taskOf "t" 3 "cb" 0 ]} : gmap string StepTask) !! k = Some t)
    in H.
  apply lookup_singleton_Some in H as [<- <-]. reflexivity.
Qed.

(** [Cancel] of a step task: the task is taken out, it is never started
    again by the notifications that follow, the other tasks and the
    listeners stay, and a second [Cancel] of the id finds no step task. *)
Theorem Cancel_stops_task (s : Scheduler) (ivs : gset string) (id : string)
    (N : nat) :
  wellKeyed s → is_Some (stepTasks s !! id) →
  ∃ s',
    Cancel s ivs id = (None, s', ivs)
    ∧ stepTasks s' = delete id (stepTasks s)
    ∧ stepListeners s' = stepListeners s
    ∧ GetStepTaskCount s' = GetStepTaskCount s - 1
    ∧ triggerCount id (dispatched (notifySteps s' N))
      = triggerCount id (dispatched s)
    ∧ (id ∉ ivs →
       Cancel s' ivs id = (Some ("task not found: " +:+ id), s', ivs)).
Proof.
  intros Hwk [t Ht]. unfold Cancel at 1. rewrite Ht.
  eexists. split; [reflexivity|]. simpl.
  split; [done|]. split; [done|].
  split.
  { unfold GetStepTaskCount. simpl.
    pose proof (map_size_delete_Some id (stepTasks s) (mk_is_Some _ _ Ht)).
    pose proof (map_size_ne_0_lookup_2 (stepTasks s) id (mk_is_Some _ _ Ht)).
    lia. }
  split.
  - match goal with |- context [notifySteps ?x N] => set (s' := x) end.
    assert (Hwk' : wellKeyed s').
    { intros k t' Hk. subst s'. simpl in Hk.
      apply lookup_delete_Some in Hk as [_ Hk]. by apply Hwk. }
    assert (Hnone : stepTasks s' !! id = None)
      by (subst s'; simpl; apply lookup_delete_eq).
    by destruct (notifySteps_absent s' id N Hwk' Hnone) as (_ & _ & ->).
  - intros Hni. unfold Cancel. simpl. rewrite lookup_delete_eq.
    by rewrite decide_False.
Qed.

Lemma Cancel_stops_task_witness :
  wellKeyed examples.oneTask ∧ is_Some (stepTasks examples.oneTask !! "t")
  ∧ ∃ s', Cancel examples.oneTask ∅ "t" = (None, s', ∅)
          ∧ triggerCount "t" (dispatched (notifySteps s' 10)) = 0%nat.
Proof.
  pose proof oneTask_wellKeyed as Hwk.
  assert (Ht : is_Some (stepTasks examples.oneTask !! "t"))
    by (eexists; apply (lookup_singleton_eq (M:=gmap string))).
  split; [exact Hwk|]. split; [exact Ht|].
  destruct (Cancel_stops_task examples.oneTask ∅ "t" 10 Hwk Ht)
    as (s' & H1 & _ & _ & _ & H2 & _).
  exists s'. split; [exact H1|exact H2].
Defined.

(** After [Clear] no callback is started by any notification, the counts
    are zero, and the cancel functions handed out before find no slot. *)
Theorem Clear_silences (s : Scheduler) (N : nat) (f : CancelFunc) :
  dispatched (notifySteps (Clear s) N) = dispatched s
  ∧ GetStepTaskCount (Clear s) = 0
  ∧ GetStepListenerCount (Clear s) = 0
  ∧ stepListeners (cancel (Clear s) f) = []
  ∧ stepTasks (cancel (Clear s) f) = ∅.
Proof.
  split.
  - assert (Hstep : ∀ s0 step, stepTasks s0 = ∅ → stepListeners s0 = [] →
              stepTasks (NotifyStep s0 step) = ∅
              ∧ stepListeners (NotifyStep s0 step) = []
              ∧ dispatched (NotifyStep s0 step) = dispatched s0).
    { intros s0 step Ht Hl. unfold NotifyStep. rewrite Ht, Hl, map_to_list_empty.
      simpl. by rewrite app_nil_r. }
    induction N as [|N IH].
    + done.
    + rewrite notifySteps_S.
      assert (Hinv : stepTasks (notifySteps (Clear s) N) = ∅
                     ∧ stepListeners (notifySteps (Clear s) N) = []).
      { clear IH. induction N as [|N [IH1 IH2]]; [done|].
        rewrite notifySteps_S.
        by destruct (Hstep _ (Z.of_nat (S N)) IH1 IH2) as (? & ? & _). }
      destruct Hinv as [H1 H2].
      destruct (Hstep _ (Z.of_nat (S N)) H1 H2) as (_ & _ & ->). exact IH.
  - repeat split.
    + unfold cancel. by destruct (default false _).
    + unfold cancel. by destruct (default false _).
Qed.

(** One notification, for one task: its callback is started at most once,
    exactly when the step count is at least [Every] past the step it last
    fired at (in the arithmetic of Go's int), and then that step is
    recorded; the period and the callback never change.  Notifying the same
    step again does not start the callback again. *)
Theorem NotifyStep_fires_once (s : Scheduler) (step : Z) (id : string)
    (t : StepTask) :
  wellKeyed s → stepTasks s !! id = Some t →
  let s' := NotifyStep s step in
  let due := GoInt.sub step (LastTriggered t) >=? Every t in
  triggerCount id (dispatched s')
  = (triggerCount id (dispatched s) + if due then 1 else 0)%nat
  ∧ stepTasks s' !! id
    = Some {| ID := ID t; Every := Every t; Callback := Callback t;
              LastTriggered := if due then step else LastTriggered t |}
  ∧ (1 ≤ Every t →
     triggerCount id (dispatched (NotifyStep s' step))
     = triggerCount id (dispatched s')).
Proof.
  intros Hwk Ht s' due.
  destruct (NotifyStep_task s step id t Hwk Ht) as [H1 H2].
  fold s' in H1, H2. unfold fire in H1, H2. fold due in H1, H2.
  split; [exact H2|].
  split. { rewrite H1. unfold setLast. destruct due; [done|by destruct t]. }
  intros Hev.
  pose proof (NotifyStep_wellKeyed s step Hwk) as Hwk'. fold s' in Hwk'.
  destruct (NotifyStep_task s' step id _ Hwk' H1) as [_ H3].
  rewrite H3.
  assert (Hno : fire step (if due then setLast step t else t) = false).
  { destruct due eqn:Hdue.
    - unfold fire, setLast. simpl. unfold GoInt.sub.
      rewrite Z.sub_diag. change (GoInt.wrap64 0) with 0.
      destruct (Z.geb_spec 0 (Every t)); [lia|done].
    - exact Hdue. }
  rewrite Hno. lia.
Qed.

Lemma NotifyStep_fires_once_witness :
  wellKeyed examples.oneTask
  ∧ stepTasks examples.oneTask !! "t" = Some (taskOf "t" 3 "cb" 0)
  ∧ triggerCount "t" (dispatched (NotifyStep examples.oneTask 3)) = 1%nat.
Proof.
  pose proof oneTask_wellKeyed as Hwk.
  assert (Ht : stepTasks examples.oneTask !! "t" = Some (taskOf "t" 3 "cb" 0))
    by apply (lookup_singleton_eq (M:=gmap string)).
  split; [exact Hwk|]. split; [exact Ht|].
  destruct (NotifyStep_fires_once examples.oneTask 3 "t" _ Hwk Ht) as [H _].
  exact H.
Defined.

End SchedulerMoreFacts.

(** ** Rooms: joining and leaving, broadcasts, direct messages, mentions *)

Module RoomMoreFacts.
Import agent core_pool core_room RoomFacts.

Lemma room_eta r : {| members := members r; history := history r |} = r.
Proof. by destruct r. Qed.

(** [Join] and [Leave] undo one another. *)
Theorem Join_then_Leave (p : Pool) (r r1 : Room) (name agentID : string) :
  Join p r name agentID = inr r1 →
  Leave r1 name = inr r
  ∧ GetAgentID r1 name = Some agentID
  ∧ GetMemberCount r1 = GetMemberCount r + 1
  ∧ is_Some (Get p agentID)
  ∧ IsMember r name = false
  ∧ (∀ other, other ≠ name → GetAgentID r1 other = GetAgentID r other)
  ∧ (∀ a, Join p r1 name a = inl ("member already exists: " +:+ name)).
Proof.
  unfold Join. destruct (members r !! name) as [a0|] eqn:Hm; [done|].
  destruct (Get p agentID) as [ag|] eqn:Hg; [|done].
  intros H. injection H as <-.
  unfold Leave, GetAgentID, GetMemberCount, IsMember. simpl.
  rewrite lookup_insert_eq, delete_insert_id by done.
  rewrite map_size_insert_None by done. rewrite Hm.
  split; [by rewrite room_eta|]. split; [done|]. split; [lia|].
  split; [done|]. split; [done|].
  split; [intros other Hne; by rewrite lookup_insert_ne|done].
Qed.

Lemma Join_then_Leave_witness :
  ∃ r1, Join examples.poolOfA NewRoom "alice" "A" = inr r1
        ∧ Leave r1 "alice" = inr NewRoom.
Proof.
  eexists. split; [reflexivity|].
  refine (proj1 (Join_then_Leave examples.poolOfA NewRoom _ "alice" "A" _)).
  reflexivity.
Defined.


(** [Broadcast] reaches every member whose agent the pool holds, the sender
    of an earlier message included, once for each name; the text is sent
    as it is, without a prefix; the message is recorded as coming from
    "system", addressed to nobody. *)
Theorem Broadcast_routing (p : Pool) (r : Room) (text : string) (now : Z) :
  let '(r', ds) := Broadcast p r text now in
  members r' = members r
  ∧ history r' = history r ++ [ {| From := "system"; To := []; Text := text;
                                   Sent := now |} ]
  ∧ NoDup (memberName <$> ds)
  ∧ Forall (λ d, txt d = text ∧ members r !! memberName d = Some (agentID d)) ds
  ∧ ∀ name, name ∈ delivered ds
            ↔ ∃ a, members r !! name = Some a ∧ is_Some (Get p a).
Proof.
  unfold Broadcast. split; [done|]. split; [done|].
  split; [apply sends_NoDup, NoDup_fst_map_to_list|].
  split.
  - apply Forall_forall. intros d Hd.
    apply list_elem_of_omap in Hd as ([k a] & Hin & Hf). simpl in Hf.
    destruct (Get p a); [|done]. injection Hf as <-. simpl.
    split; [done|]. by apply elem_of_map_to_list in Hin.
  - intros name. unfold delivered. rewrite elem_of_list_to_set.
    rewrite list_elem_of_fmap. split.
    + intros (d & -> & Hd).
      apply list_elem_of_omap in Hd as ([k a] & Hin & Hf). simpl in Hf.
      destruct (Get p a) eqn:Hg; [|done]. injection Hf as <-. simpl.
      apply elem_of_map_to_list in Hin. exists a. rewrite Hg. eauto.
    + intros (a & Hm & [ag Hg]).
      eexists. split; [|apply list_elem_of_omap].
      2:{ exists (name, a). split.
          - by apply elem_of_map_to_list.
          - simpl. rewrite Hg. reflexivity. }
      done.
Qed.

(** [SendTo]: a sender that is neither a member nor "system", or a
    recipient that is not a member, is refused and nothing is recorded; a
    recipient whose agent has left the pool is an error too, but then the
    message has been recorded; otherwise the message is recorded and the
    prefixed text is sent to the recipient's agent, and to nobody else. *)
Theorem SendTo_outcomes (sendErr : option string) (p : Pool) (r : Room)
    (from to text : string) (now : Z) :
  let '(err, r', ds) := SendTo sendErr p r from to text now in
  let recorded :=
    history r' = history r ++ [ {| From := from; To := [to]; Text := text;
                                   Sent := now |} ] in
  members r' = members r
  ∧ match members r !! from, members r !! to with
    | None, _ =>
        if String.eqb from "system" then
          match members r !! to with
          | None => err = Some ("recipient not found: " +:+ to) ∧ r' = r ∧ ds = []
          | Some a =>
              recorded
              ∧ match Get p a with
                | None => err = Some ("agent not found for member " +:+ to) ∧ ds = []
                | Some _ =>
                    err = sendErr
                    ∧ ds = [ {| memberName := to; agentID := a;
                                txt := "[from:" +:+ from +:+ "] " +:+ text |} ]
                end
          end
        else err = Some ("sender is not a member: " +:+ from) ∧ r' = r ∧ ds = []
    | Some _, None => err = Some ("recipient not found: " +:+ to) ∧ r' = r ∧ ds = []
    | Some _, Some a =>
        recorded
        ∧ match Get p a with
          | None => err = Some ("agent not found for member " +:+ to) ∧ ds = []
          | Some _ =>
              err = sendErr
              ∧ ds = [ {| memberName := to; agentID := a;
                          txt := "[from:" +:+ from +:+ "] " +:+ text |} ]
          end
    end.
Proof.
  unfold SendTo.
  destruct (members r !! from) as [af|] eqn:Hf; simpl.
  - destruct (members r !! to) as [a|] eqn:Ht; [|done].
    by destruct (Get p a).
  - destruct (String.eqb from "system"); simpl; [|done].
    destruct (members r !! to) as [a|] eqn:Ht; [|done].
    by destruct (Get p a).
Qed.

(** A member that has left gets nothing any more, neither from [Say] nor
    from [Broadcast], cannot speak, and cannot be written to. *)
Theorem left_member_unreachable (p : Pool) (r r' : Room) (name : string) :
  Leave r name = inr r' →
  (∀ from text now r'' ds,
     Say p r' from text now = inr (r'', ds) → name ∉ delivered ds)
  ∧ (∀ text now, name ∉ delivered (Broadcast p r' text now).2)
  ∧ (∀ text now,
       Say p r' name text now = inl ("sender is not a member: " +:+ name))
  ∧ (∀ sendErr from text now,
       (SendTo sendErr p r' from name text now).2 = [])
  ∧ GetMemberCount r' = GetMemberCount r - 1.
Proof.
  unfold Leave. destruct (members r !! name) as [a|] eqn:Hm; [|done].
  intros H. injection H as <-.
  assert (Hgone : ∀ h, members {| members := delete name (members r); history := h |}
                       !! name = None) by (intros; apply lookup_delete_eq).
  split; [|split; [|split; [|split]]].
  - intros from text now r'' ds. unfold Say. simpl.
    destruct (delete name (members r) !! from) eqn:Hfrom; [|done].
    intros H. injection H as _ <-.
    unfold delivered. rewrite elem_of_list_to_set, list_elem_of_fmap.
    intros (d & -> & Hd).
    apply list_elem_of_omap in Hd as ([k a'] & Hin & Hf). simpl in Hf.
    destruct (Get p a'); [|done]. injection Hf as <-. simpl in *.
    apply elem_of_map_to_list in Hin. apply sayTargets_lookup in Hin as [Hin _].
    simpl in Hin. by rewrite lookup_delete_eq in Hin.
  - intros text now. unfold Broadcast, delivered. simpl.
    rewrite elem_of_list_to_set, list_elem_of_fmap.
    intros (d & -> & Hd).
    apply list_elem_of_omap in Hd as ([k a'] & Hin & Hf). simpl in Hf.
    destruct (Get p a'); [|done]. injection Hf as <-. simpl in *.
    apply elem_of_map_to_list in Hin. by rewrite lookup_delete_eq in Hin.
  - intros text now. unfold Say. simpl. by rewrite lookup_delete_eq.
  - intros sendErr from text now. unfold SendTo. simpl.
    rewrite lookup_delete_eq. by destruct (_ && _).
  - unfold GetMemberCount. simpl.
    pose proof (map_size_delete_Some name (members r) (mk_is_Some _ _ Hm)).
    pose proof (map_size_ne_0_lookup_2 (members r) name (mk_is_Some _ _ Hm)).
    lia.
Qed.

Lemma left_member_unreachable_witness :
  ∃ r', Leave examples.aliceAndBob "bob" = inr r'
        ∧ ∀ text now, "bob" ∉ delivered (Broadcast examples.poolOfA r' text now).2.
Proof.
  eexists. split; [reflexivity|].
  refine (proj1 (proj2 (left_member_unreachable examples.poolOfA
                          examples.aliceAndBob _ "bob" _))).
  reflexivity.
Defined.

Lemma append_cons c s t : String c s +:+ t = String c (s +:+ t).
Proof. reflexivity. Qed.

Lemma append_nil_r s : s +:+ "" = s.
Proof. induction s as [|c s IH]; [done|]. by rewrite append_cons, IH. Qed.

Lemma append_assoc s t u : (s +:+ t) +:+ u = s +:+ t +:+ u.
Proof. induction s as [|c s IH]; [done|]. by rewrite !append_cons, IH. Qed.

Lemma allWord_snoc w c :
  allWord w = true → regexp.isWord c = true → allWord (w +:+ String c "") = true.
Proof.
  unfold allWord. induction w as [|c' w IH]; intros Hw Hc.
  - simpl. by rewrite Hc.
  - rewrite append_cons. simpl in *.
    apply andb_true_iff in Hw as [-> Hw]. simpl. by apply IH.
Qed.

Lemma scanMentions_sound full : ∀ text before cur acc,
  full = before +:+ match cur with Some w => "@" +:+ w | None => "" end +:+ text →
  match cur with Some w => allWord w = true | None => True end →
  (∀ m, m ∈ acc → isMention full m) →
  ∀ m, m ∈ scanMentions text cur acc → isMention full m.
Proof.
  assert (Hclose : ∀ before w rest acc,
            full = before +:+ ("@" +:+ w) +:+ rest → allWord w = true →
            wordEnds rest = true →
            (∀ m, m ∈ acc → isMention full m) →
            ∀ m, m ∈ (if String.eqb w "" then acc else acc ++ [w]) →
                 isMention full m).
  { intros before w rest acc Hfull Hw Hrest Hacc m.
    destruct (String.eqb_spec w ""); [apply Hacc|].
    rewrite elem_of_app, list_elem_of_singleton. intros [?| ->]; [by apply Hacc|].
    split; [done|]. split; [done|]. exists before, rest.
    split; [|done]. by rewrite Hfull, !append_assoc. }
  induction text as [|c text IH]; intros before cur acc Hfull Hcur Hacc m; simpl.
  - destruct cur as [w|]; [|apply Hacc].
    by apply (Hclose before w "" acc).
  - destruct cur as [w|].
    + destruct (regexp.isWord c) eqn:Hc.
      * apply (IH before); [|by apply allWord_snoc|done].
        rewrite Hfull. by rewrite !append_assoc.
      * assert (Hends : wordEnds (String c text) = true) by (simpl; by rewrite Hc).
        destruct (Ascii.eqb_spec c "@") as [->|Hne].
        -- apply (IH (before +:+ "@" +:+ w)); [|done|by apply (Hclose before w (String "@" text))].
           rewrite Hfull. by rewrite !append_assoc.
        -- apply (IH (before +:+ "@" +:+ w +:+ String c ""));
             [|done|by apply (Hclose before w (String c text))].
           rewrite Hfull. by rewrite !append_assoc.
    + destruct (Ascii.eqb_spec c "@") as [->|Hne].
      * apply (IH before); [|done|done]. by rewrite Hfull.
      * apply (IH (before +:+ String c "")); [|done|done].
        rewrite Hfull. by rewrite !append_assoc.
Qed.

(** Every name [extractMentions] returns is a mention of the text, and no
    name is returned twice. *)
Theorem extractMentions_sound (text m : string) :
  m ∈ extractMentions text →
  m ≠ "" ∧ allWord m = true
  ∧ (∃ pre post, text = pre +:+ "@" +:+ m +:+ post ∧ wordEnds post = true)
  ∧ NoDup (extractMentions text).
Proof.
  intros Hin. unfold extractMentions in *.
  apply dedupe_spec in Hin as [Hin _].
  destruct (scanMentions_sound text text "" None [] eq_refl I
              ltac:(intros ? H; by apply elem_of_nil in H) m Hin)
    as (H1 & H2 & H3).
  repeat split; try done. apply dedupe_NoDup.
Qed.

Lemma extractMentions_sound_witness :
  "bob" ∈ extractMentions "hi @bob, hi @bob!"
  ∧ NoDup (extractMentions "hi @bob, hi @bob!").
Proof.
  assert (H : "bob" ∈ extractMentions "hi @bob, hi @bob!")
    by (vm_compute; left).
  split; [exact H|].
  exact (proj2 (proj2 (proj2 (extractMentions_sound _ _ H)))).
Defined.

End RoomMoreFacts.

(** ** The pool: capacity, removal, listing, shutdown *)

Module PoolMoreFacts.
Import agent core_pool PoolFacts.

Lemma pool_eta p : {| agents := agents p; deps := deps p; maxAgents := maxAgents p |} = p.
Proof. by destruct p. Qed.

(** What [Create] does to the pool, whatever it returns. *)
Lemma Create_pool h uuid p cfg e :
  let p' := (Create h uuid p cfg e).1.2 in
  deps p' = deps p ∧ maxAgents p' = maxAgents p
  ∧ (agents p' = agents p
     ∨ Size p < maxAgents p ∧ ∃ k a, agents p' = <[k := a]> (agents p)).
Proof.
  unfold Create. destruct (agents p !! config.AgentID cfg); simpl; [by auto|].
  destruct (Z.geb_spec (Size p) (maxAgents p)); simpl; [by auto|].
  destruct (agent.Create h (deps p) uuid cfg e) as [[cfg' [a|err]] e']; simpl;
    [|by auto].
  split; [done|]. split; [done|]. right. split; [lia|]. by do 2 eexists.
Qed.

Lemma Resume_pool h uuid p agentID cfg e :
  let p' := (Resume h uuid p agentID cfg e).1.2 in
  deps p' = deps p ∧ maxAgents p' = maxAgents p
  ∧ (agents p' = agents p
     ∨ Size p < maxAgents p ∧ ∃ k a, agents p' = <[k := a]> (agents p)).
Proof.
  unfold Resume. destruct (agents p !! agentID); simpl; [by auto|].
  destruct (Z.geb_spec (Size p) (maxAgents p)); simpl; [by auto|].
  destruct (store.replyError _); simpl; [by auto|].
  destruct (agent.Create _ _ _ _ _) as [[cfg' [a|err]] e']; simpl; [|by auto].
  split; [done|]. split; [done|]. right. split; [lia|]. by do 2 eexists.
Qed.

Lemma size_insert_le (m : gmap string Agent) k a :
  (size (<[k := a]> m) ≤ S (size m))%nat.
Proof. rewrite map_size_insert. destruct (m !! k); simpl; lia. Qed.

Lemma size_delete_le (m : gmap string Agent) k :
  (size (delete k m) ≤ size m)%nat.
Proof. rewrite map_size_delete. destruct (m !! k); simpl; lia. Qed.

Lemma runCall_capacity h p e c :
  Size p ≤ maxAgents p →
  Size (runCall h (p, e) c).1 ≤ maxAgents (runCall h (p, e) c).1
  ∧ maxAgents (runCall h (p, e) c).1 = maxAgents p.
Proof.
  intros Hle. destruct c as [uuid cfg|uuid agentID cfg|closeErr agentID
                             |closeErr agentID|closeErr]; simpl.
  - pose proof (Create_pool h uuid p cfg e) as H.
    destruct (Create h uuid p cfg e) as [[[cfg' res] p'] e']. simpl in *.
    destruct H as (_ & Hm & [Ha|(Hlt & k & a & Ha)]); unfold Size in *;
      rewrite Ha, Hm; [done|].
    pose proof (size_insert_le (agents p) k a). lia.
  - pose proof (Resume_pool h uuid p agentID cfg e) as H.
    destruct (Resume h uuid p agentID cfg e) as [[[cfg' res] p'] e']. simpl in *.
    destruct H as (_ & Hm & [Ha|(Hlt & k & a & Ha)]); unfold Size in *;
      rewrite Ha, Hm; [done|].
    pose proof (size_insert_le (agents p) k a). lia.
  - unfold Remove. destruct (agents p !! agentID); simpl; [|done].
    destruct closeErr; simpl; [done|]. unfold Size in *. simpl.
    pose proof (size_delete_le (agents p) agentID). lia.
  - unfold Delete. destruct (agents p !! agentID); simpl; [|done].
    destruct closeErr; simpl; [done|]. unfold Size in *. simpl.
    pose proof (size_delete_le (agents p) agentID). lia.
  - unfold Size in *. simpl. rewrite map_size_empty. lia.
Qed.

(** The pool never holds more agents than its bound: from a new pool whose
    bound is not negative (zero selects the default of 50), after any run
    of [Create], [Resume], [Remove], [Delete] and [Shutdown] calls,
    whatever they return, the size is at most [maxAgents], and
    [maxAgents] is the one the pool was made with. *)
Theorem pool_within_capacity (h : sandbox.Host) (opts : PoolOptions) (e : Env)
    (cs : list PoolCall) :
  0 ≤ opt_MaxAgents opts →
  let p := (runCalls h (NewPool opts, e) cs).1 in
  Size p ≤ maxAgents p
  ∧ maxAgents p = (if opt_MaxAgents opts =? 0 then 50 else opt_MaxAgents opts).
Proof.
  intros Hopt.
  assert (Hgen : ∀ pe, Size pe.1 ≤ maxAgents pe.1 →
            Size (runCalls h pe cs).1 ≤ maxAgents (runCalls h pe cs).1
            ∧ maxAgents (runCalls h pe cs).1 = maxAgents pe.1).
  { unfold runCalls. induction cs as [|c cs IH]; intros [p0 e0] H0; [done|].
    simpl. destruct (runCall_capacity h p0 e0 c H0) as [H1 H2].
    destruct (IH (runCall h (p0, e0) c) H1) as [H3 H4].
    split; [done|]. simpl in *. congruence. }
  apply (Hgen (NewPool opts, e)). simpl. unfold Size. simpl.
  rewrite map_size_empty. destruct (Z.eqb_spec (opt_MaxAgents opts) 0); lia.
Qed.

Lemma pool_within_capacity_witness :
  let opts := {| opt_Dependencies := examples.testDeps; opt_MaxAgents := 1 |} in
  let p := (runCalls examples.quietHost (NewPool opts, examples.calmEnv)
              [CallCreate "u1" (examples.testConfig "a1" config.SandboxKindMock);
               CallCreate "u2" (examples.testConfig "a2" config.SandboxKindMock)]).1 in
  0 ≤ opt_MaxAgents opts ∧ Size p ≤ maxAgents p ∧ maxAgents p = 1.
Proof.
  intros opts p.
  assert (H : 0 ≤ opt_MaxAgents opts) by (simpl; lia).
  split; [exact H|].
  exact (pool_within_capacity examples.quietHost opts examples.calmEnv _ H).
Defined.


(** [Create] and [Remove] undo one another: an agent created under a
    non-empty id can be fetched, and once it is removed the pool is as it
    was before; a [Remove] whose [Close] fails keeps the agent, and a
    second [Remove] finds nothing. *)
Theorem Create_then_Remove (h : sandbox.Host) (uuid : string) (p p' : Pool)
    (cfg cfg' : config.AgentConfig) (a : Agent) (e e' : Env) :
  config.AgentID cfg ≠ "" →
  Create h uuid p cfg e = (cfg', inl a, p', e') →
  Get p' (config.AgentID cfg) = Some a
  ∧ Size p' = Size p + 1
  ∧ Remove None p' (config.AgentID cfg) = inr p
  ∧ (∀ err, Remove (Some err) p' (config.AgentID cfg)
            = inl ("close agent: " +:+ err))
  ∧ Remove None p (config.AgentID cfg)
    = inl ("agent not found: " +:+ config.AgentID cfg)
  ∧ (∀ id, id ≠ config.AgentID cfg → Get p' id = Get p id).
Proof.
  intros Hne HC. unfold Create in HC.
  destruct (agents p !! config.AgentID cfg) as [a0|] eqn:Hlk; [done|].
  destruct (Z.geb_spec (Size p) (maxAgents p)) as [Hge|Hlt]; [done|].
  pose proof (agent_Create_config h (deps p) uuid cfg e) as Hid.
  destruct (agent.Create h (deps p) uuid cfg e) as [[cfg1 [a1|err]] e1];
    [|done].
  injection HC as <- <- <- <-. simpl in Hid.
  destruct (String.eqb_spec (config.AgentID cfg) ""); [done|].
  rewrite Hid.
  unfold Get, Remove, Size. simpl. rewrite lookup_insert_eq, Hlk.
  rewrite delete_insert_id by done.
  rewrite map_size_insert_None by done.
  split; [done|]. split; [lia|].
  split; [by rewrite pool_eta|].
  split; [done|]. split; [done|].
  intros id Hid'. by rewrite lookup_insert_ne.
Qed.

Lemma inl_of_true {A B} (x : A + B) :
  match x with inl _ => true | inr _ => false end = true → ∃ a, x = inl a.
Proof. destruct x as [a|b]; [by exists a|done]. Qed.

Lemma Create_then_Remove_witness :
  ∃ cfg' a p' e',
    Create examples.quietHost "u1" examples.emptyPool
      (examples.testConfig "a1" config.SandboxKindMock) examples.calmEnv
    = (cfg', inl a, p', e')
    ∧ Remove None p' "a1" = inr examples.emptyPool.
Proof.
  assert (Hne : config.AgentID (examples.testConfig "a1" config.SandboxKindMock) ≠ "")
    by discriminate.
  destruct (inl_of_true
              (Create examples.quietHost "u1" examples.emptyPool
                 (examples.testConfig "a1" config.SandboxKindMock)
                 examples.calmEnv).1.1.2) as [a Ha]; [vm_compute; reflexivity|].
  destruct (Create examples.quietHost "u1" examples.emptyPool
              (examples.testConfig "a1" config.SandboxKindMock) examples.calmEnv)
    as [[[cfg' r] p'] e'] eqn:E.
  simpl in Ha. subst r. exists cfg', a, p', e'. split; [reflexivity|].
  exact (proj1 (proj2 (proj2 (Create_then_Remove _ _ _ _ _ _ _ _ _ Hne E)))).
Defined.

(** [List] gives each id of the pool that starts with the prefix, once;
    with the empty prefix these are all the ids. *)
Theorem List_prefix (p : Pool) (prefix id : string) :
  (id ∈ List p prefix ↔ is_Some (Get p id) ∧ String.prefix prefix id = true)
  ∧ NoDup (List p prefix)
  ∧ Z.of_nat (length (List p "")) = Size p.
Proof.
  unfold List, Get, Size.
  assert (Hkeys : ∀ k, k ∈ (map_to_list (agents p)).*1 ↔ is_Some (agents p !! k)).
  { intros k. rewrite list_elem_of_fmap. split.
    - intros ([k' a] & -> & Hin). apply elem_of_map_to_list in Hin. by eexists.
    - intros [a Ha]. exists (k, a). split; [done|]. by apply elem_of_map_to_list. }
  split; [|split].
  - rewrite list_elem_of_In, filter_In, <- list_elem_of_In, Hkeys.
    destruct (String.eqb_spec prefix "") as [->|]; simpl; [|done].
    destruct id; simpl; tauto.
  - apply NoDup_ListNoDup, List.NoDup_filter, NoDup_ListNoDup,
      NoDup_fst_map_to_list.
  - simpl. rewrite forallb_filter_id; [by rewrite length_fmap, length_map_to_list|].
    by apply forallb_forall.
Qed.


End PoolMoreFacts.

(** ** Engine: what a run keeps, appends and answers *)

Module LoopFacts.
Import types sandbox tools provider events store agent.
Import EngineFacts StepLoopFacts.

Section Respects.
Context (R : relation Agent) `{!PreOrder R}.

Lemma resp_ret {A} (x : A) : respects R (ret x).
Proof. intros s y s' H. injection H as <- <-. reflexivity. Qed.

Lemma resp_panic {A} : respects R (@panic A).
Proof. by intros s y s' H. Qed.

Lemma resp_bind {A B} (m : M A) (k : A → M B) :
  respects R m → (∀ x, respects R (k x)) → respects R (bind m k).
Proof.
  intros Hm Hk s r s' H. apply bind_Some in H as (x & s1 & H1 & H2).
  etrans; [by eapply Hm|by eapply Hk].
Qed.

(** A computation that works on the environment only. *)
Lemma resp_env {A} (m : M A) :
  (∀ s x s', m s = Some (x, s') → ag s' = ag s) → respects R m.
Proof. intros Hm s x s' H. rewrite (Hm _ _ _ H). reflexivity. Qed.

Lemma resp_modify (f : Agent → Agent) :
  (∀ a, R a (f a)) → respects R (modifyAgent f).
Proof. intros Hf s x s' H. injection H as <- <-. apply Hf. Qed.

Lemma resp_getAgent : respects R getAgent.
Proof. apply resp_env. intros s x s' H. by injection H as <- <-. Qed.

Lemma resp_timeNow : respects R timeNow.
Proof. apply resp_env. intros s x s' H. by injection H as <- <-. Qed.

Lemma resp_storeCall c : respects R (storeCall c).
Proof. apply resp_env. intros s x s' H. by injection H as <- <-. Qed.

Lemma resp_mapM {A B} (f : A → M B) l :
  (∀ x, respects R (f x)) → respects R (mapM f l).
Proof.
  intros Hf. induction l as [|x l IH]; simpl; [apply resp_ret|].
  apply resp_bind; [done|]. intros y. apply resp_bind; [done|].
  intros ys. apply resp_ret.
Qed.

Lemma resp_foldM {A B} (f : B → A → M B) l b :
  (∀ b x, respects R (f b x)) → respects R (foldM f l b).
Proof.
  intros Hf. revert b. induction l as [|x l IH]; intros b; simpl;
    [apply resp_ret|].
  apply resp_bind; [done|]. intros y. apply IH.
Qed.

End Respects.

#[local] Instance sameEquipment_preorder : PreOrder sameEquipment.
Proof.
  split.
  - by intros a.
  - intros a b c (?&?&?&?&?) (?&?&?&?&?). repeat split; congruence.
Qed.

#[local] Instance sameState_preorder : PreOrder sameState.
Proof. split; [by intros a|intros a b c ? ?; unfold sameState in *; congruence]. Qed.

#[local] Instance grown_preorder : PreOrder grown.
Proof.
  split.
  - by intros a.
  - intros a b c [? ?] [? ?]. split; by etrans.
Qed.

(** The changes the engine makes to the agent, one field at a time. *)
Ltac field_step :=
  intros ?; first
    [ by repeat split
    | split; simpl; first [reflexivity | by apply prefix_app_r] ].

Ltac resp_with tac :=
  repeat first
    [ apply resp_ret; [apply _] | apply resp_panic | apply resp_getAgent; [apply _]
    | apply resp_timeNow; [apply _] | apply resp_storeCall; [apply _]
    | apply resp_modify; tac
    | apply resp_bind; [apply _| |intros ?]
    | apply resp_mapM; [apply _|intros ?]
    | apply resp_foldM; [apply _|intros ? ?]
    | match goal with
      | |- respects _ (match ?x with _ => _ end) => destruct x
      | |- respects _ (if ?x then _ else _) => destruct x
      end
    | apply resp_env; [apply _|]; intros ? ? ? ?;
      match goal with
      | H : _ = Some _ |- _ =>
          simpl in H; repeat case_match; by injection H as <- <-
      end ].

Ltac resp := resp_with field_step.

Lemma resp_executeSingleTool R `{!PreOrder R} i n inp :
  (∀ a v, R a (set_toolRecords v a)) → (∀ a v, R a (set_breakpoint v a)) →
  (∀ a ev, R a (set_eventBus (eventBus a ++ [ev]) a)) →
  respects R (executeSingleTool i n inp).
Proof.
  intros H1 H2 H3.
  unfold executeSingleTool, setBreakpoint, updateToolRecord, Executor_Execute, emit.
  resp_with ltac:(intros ?; first [apply H1 | apply H2 | apply H3]).
Qed.

Lemma resp_onChunk R `{!PreOrder R} json asm chunk :
  (∀ a ev, R a (set_eventBus (eventBus a ++ [ev]) a)) →
  respects R (onChunk json asm chunk).
Proof.
  intros H3.
  unfold onChunk, onBlockStart, onBlockDelta, onBlockStop, onMessageDelta,
    slot, setSlot, mustStringAt, emit.
  resp_with ltac:(intros ?; apply H3).
Qed.

Lemma resp_runModelStep R `{!PreOrder R} json script :
  (∀ a v, R a (set_toolRecords v a)) → (∀ a v, R a (set_breakpoint v a)) →
  (∀ a ev, R a (set_eventBus (eventBus a ++ [ev]) a)) →
  (∀ a m, R a (set_messages (messages a ++ [m]) a)) →
  (∀ a m c, R a (set_stepCount c (set_messages (messages a ++ [m]) a))) →
  respects R (runModelStep json script).
Proof.
  intros H1 H2 H3 H4 H5.
  induction script as [|reply script IH]; simpl.
  - unfold setBreakpoint, emit.
    resp_with ltac:(intros ?; first [apply H1 | apply H2 | apply H3 | apply H4 | apply H5]).
  - apply resp_bind; [apply _| |intros ?].
    { unfold setBreakpoint, emit.
      resp_with ltac:(intros ?; first [apply H2 | apply H3]). }
    destruct reply as [e|chunks]; [apply resp_ret; apply _|].
    apply resp_bind; [apply _| |intros asm].
    { apply resp_foldM; [apply _|]. intros. by apply resp_onChunk. }
    apply resp_bind; [apply _| |intros ?].
    { apply resp_modify. intros ?. apply H4. }
    apply resp_bind; [apply _| |intros err].
    { unfold saveMessages. resp. }
    destruct err; [apply resp_ret; apply _|].
    destruct (0 <? _)%nat; [|apply resp_ret; apply _].
    apply resp_bind; [apply _| |intros ?].
    { unfold setBreakpoint, emit.
      resp_with ltac:(intros ?; first [apply H2 | apply H3]). }
    unfold executeTools.
    apply resp_bind; [apply _| |intros rs].
    { apply resp_mapM; [apply _|]. intros. by apply resp_executeSingleTool. }
    apply resp_bind; [apply _| |intros ?].
    { apply resp_modify. intros ?. apply H5. }
    apply resp_bind; [apply _| |intros err].
    { unfold saveMessages. resp. }
    destruct err; [apply resp_ret; apply _|].
    apply resp_bind; [apply _| |intros ?]; [apply resp_getAgent; apply _|].
    apply resp_bind; [apply _| |intros ?]; [apply resp_storeCall; apply _|].
    destruct (replyError _); [apply resp_ret; apply _|]. exact IH.
Qed.

Lemma equipment_runModelStep json script :
  respects sameEquipment (runModelStep json script).
Proof. apply resp_runModelStep; [apply _|..]; by intros. Qed.

Lemma state_runModelStep json script :
  respects sameState (runModelStep json script).
Proof. apply resp_runModelStep; [apply _|..]; by intros. Qed.

Lemma grown_runModelStep json script :
  respects grown (runModelStep json script).
Proof.
  apply resp_runModelStep; [apply _|..]; intros; split; simpl;
    first [reflexivity | by apply prefix_app_r].
Qed.

Lemma resp_processMessages R `{!PreOrder R} json script :
  (∀ a v, R a (set_toolRecords v a)) → (∀ a v, R a (set_breakpoint v a)) →
  (∀ a ev, R a (set_eventBus (eventBus a ++ [ev]) a)) →
  (∀ a m, R a (set_messages (messages a ++ [m]) a)) →
  (∀ a m c, R a (set_stepCount c (set_messages (messages a ++ [m]) a))) →
  (∀ a v, R a (set_state v a)) →
  respects R (processMessages json script).
Proof.
  intros H1 H2 H3 H4 H5 H6. unfold processMessages.
  apply resp_bind; [apply _|apply resp_getAgent; apply _|intros a].
  destruct (decide _); [|apply resp_ret; apply _].
  apply resp_bind; [apply _|apply resp_modify; intros; apply H6|intros ?].
  apply resp_bind; [apply _|apply resp_modify; intros; apply H3|intros ?].
  apply resp_bind; [apply _| |intros ?].
  { unfold setBreakpoint, emit.
    resp_with ltac:(intros ?; first [apply H2 | apply H3]). }
  apply resp_bind; [apply _|by apply resp_runModelStep|intros err].
  unfold emit.
  resp_with ltac:(intros ?; first [apply H3 | apply H6]).
Qed.

Lemma resp_Send R `{!PreOrder R} text :
  (∀ a m c, R a (set_stepCount c (set_messages (messages a ++ [m]) a))) →
  respects R (Send text).
Proof.
  intros H5. unfold Send, saveMessages.
  resp_with ltac:(intros ?; apply H5).
Qed.

Lemma resp_SendAndProcess R `{!PreOrder R} json script text :
  (∀ a v, R a (set_toolRecords v a)) → (∀ a v, R a (set_breakpoint v a)) →
  (∀ a ev, R a (set_eventBus (eventBus a ++ [ev]) a)) →
  (∀ a m, R a (set_messages (messages a ++ [m]) a)) →
  (∀ a m c, R a (set_stepCount c (set_messages (messages a ++ [m]) a))) →
  (∀ a v, R a (set_state v a)) →
  respects R (SendAndProcess json script text).
Proof.
  intros H1 H2 H3 H4 H5 H6. unfold SendAndProcess.
  apply resp_bind; [apply _|by apply resp_Send|intros err].
  destruct err; [apply resp_ret; apply _|].
  apply resp_bind; [apply _|by apply resp_processMessages|intros ?].
  apply resp_ret; apply _.
Qed.

(** The runtime state after [processMessages] is the one before it: a
    ready agent is ready again, whatever went wrong on the way, and an
    agent that is not ready is not touched at all. *)
Lemma processMessages_state json script s u s' :
  processMessages json script s = Some (u, s') →
  state (ag s') = state (ag s)
  ∧ (state (ag s) ≠ AgentStateReady → s' = s).
Proof.
  intros H. unfold processMessages in H.
  apply bind_Some in H as (a & s1 & H1 & H2). injection H1 as <- <-.
  destruct (decide (state (ag s) = AgentStateReady)) as [Hr|Hn].
  2:{ injection H2 as <- <-. done. }
  split; [|done]. rewrite Hr.
  apply bind_Some in H2 as (u2 & s2 & H2 & H3).
  apply bind_Some in H3 as (u3 & s3 & H3 & H4).
  apply bind_Some in H4 as (u4 & s4 & H4 & H5).
  apply bind_Some in H5 as (err & s5 & H5 & H6).
  apply bind_Some in H6 as (u6 & s6 & H6 & H7).
  apply bind_Some in H7 as (a7 & s7 & H7 & H8).
  apply bind_Some in H8 as (u8 & s8 & H8 & H9).
  apply bind_Some in H9 as (u9 & s9 & H9 & H10).
  by injection H10 as <- <-.
Qed.

(** A run of the engine on a message leaves the agent's identity and
    equipment (id, system prompt, sandbox, tool map, creation time) and its
    runtime state as they were. *)
Theorem run_keeps_equipment (json : string → option InputMap)
    (script : list StreamReply) (text : string) (s : St)
    (r : option string) (s' : St) :
  SendAndProcess json script text s = Some (r, s') →
  id (ag s') = id (ag s)
  ∧ systemPrompt (ag s') = systemPrompt (ag s)
  ∧ sandbox (ag s') = sandbox (ag s)
  ∧ toolMap (ag s') = toolMap (ag s)
  ∧ createdAt (ag s') = createdAt (ag s)
  ∧ state (ag s') = state (ag s).
Proof.
  intros H.
  destruct (resp_SendAndProcess sameEquipment json script text
              ltac:(by intros) ltac:(by intros) ltac:(by intros)
              ltac:(by intros) ltac:(by intros) ltac:(by intros) _ _ _ H)
    as (E1 & E2 & E3 & E4 & E5).
  repeat split; try done.
  unfold SendAndProcess in H. apply bind_Some in H as (err & s1 & H1 & H2).
  assert (Hs1 : state (ag s1) = state (ag s)).
  { apply (resp_Send sameState text ltac:(by intros) _ _ _ H1). }
  destruct err as [e|]; [by injection H2 as <- <-|].
  apply bind_Some in H2 as (u & s2 & H2 & H3). injection H3 as <- <-.
  destruct (processMessages_state _ _ _ _ _ H2) as [-> _]. done.
Qed.

Lemma run_keeps_equipment_witness :
  ∃ r s',
    SendAndProcess examples.flatObject examples.oneRound "hi" examples.atRest
    = Some (r, s')
    ∧ id (ag s') = "agt:1" ∧ state (ag s') = AgentStateReady.
Proof.
  destruct (stepsAndRounds_Some
              (SendAndProcess examples.flatObject examples.oneRound "hi"
                 examples.atRest) 2 1)
    as (r & s' & H & _ & _); [vm_compute; reflexivity|].
  exists r, s'. split; [exact H|].
  destruct (run_keeps_equipment _ _ _ _ _ _ H) as (H1 & _ & _ & _ & _ & H6).
  split; [exact H1|exact H6].
Defined.

(** A run of the engine on a message only appends: the history it leaves
    is the history it found, then the user message with the text, then
    what the step loop added; and the events emitted before are still
    there, in place. *)
Theorem run_appends_only (json : string → option InputMap)
    (script : list StreamReply) (text : string) (s : St)
    (r : option string) (s' : St) :
  SendAndProcess json script text s = Some (r, s') →
  (∃ rest, messages (ag s')
           = messages (ag s)
             ++ {| Role := MessageRoleUser; Content := [TextBlock text] |} :: rest)
  ∧ eventBus (ag s) `prefix_of` eventBus (ag s').
Proof.
  intros H.
  assert (Hg : ∀ json script text, respects grown (SendAndProcess json script text)).
  { intros. apply resp_SendAndProcess; [apply _|..]; intros; split; simpl;
      first [reflexivity | by apply prefix_app_r]. }
  split; [|by apply (Hg _ _ _ _ _ _ H)].
  unfold SendAndProcess in H. apply bind_Some in H as (err & s1 & H1 & H2).
  assert (Hs1 : messages (ag s1)
                = messages (ag s)
                  ++ [{| Role := MessageRoleUser; Content := [TextBlock text] |}]).
  { unfold Send in H1.
    apply bind_Some in H1 as (u & s2 & H1 & H3). injection H1 as <- <-.
    apply bind_Some in H3 as (e & s3 & H3 & H4).
    destruct (keeps_saveMessages _ _ _ H3) as [_ E2]. simpl in E2.
    assert (s1 = s3) as -> by (destruct e; by injection H4 as <- <-).
    done. }
  destruct err as [e|].
  - injection H2 as <- <-. exists []. done.
  - apply bind_Some in H2 as (u & s2 & H2 & H3). injection H3 as <- <-.
    assert (Hp : respects grown (processMessages json script)).
    { apply resp_processMessages; [apply _|..]; intros; split; simpl;
        first [reflexivity | by apply prefix_app_r]. }
    destruct (Hp _ _ _ H2) as [[rest Hrest] _].
    exists rest. rewrite Hrest, Hs1, <- app_assoc. done.
Qed.

Lemma run_appends_only_witness :
  ∃ r s',
    SendAndProcess examples.flatObject examples.oneRound "hi" examples.atRest
    = Some (r, s')
    ∧ ∃ rest, messages (ag s')
              = [] ++ {| Role := MessageRoleUser; Content := [TextBlock "hi"] |}
                   :: rest.
Proof.
  destruct (stepsAndRounds_Some
              (SendAndProcess examples.flatObject examples.oneRound "hi"
                 examples.atRest) 2 1)
    as (r & s' & H & _ & _); [vm_compute; reflexivity|].
  exists r, s'. split; [exact H|].
  exact (proj1 (run_appends_only _ _ _ _ _ _ H)).
Defined.

(** The results of a round answer the tool uses they were run for. *)
Lemma mapM_ids tus : ∀ s rs s',
  mapM (λ tu : string * string * InputMap, executeSingleTool tu.1.1 tu.1.2 tu.2) tus s
  = Some (rs, s') →
  resultIDs rs = (λ tu : string * string * InputMap, tu.1.1) <$> tus
  ∧ length rs = length tus.
Proof.
  induction tus as [|tu tus IH]; intros s rs s' H; simpl in H.
  - by injection H as <- <-.
  - apply bind_Some in H as (y & s1 & H1 & H2).
    apply bind_Some in H2 as (ys & s2 & H2 & H3).
    injection H3 as <- <-. destruct (IH _ _ _ H2) as [Hi Hl].
    assert (Hy : ∃ c e, y = ToolResultBlock tu.1.1 c e).
    { destruct (executeSingleTool_cases tu.1.1 tu.1.2 tu.2 s)
        as (r & s0 & rec & Hrun & _ & _ & _ & _ & Hcase).
      rewrite H1 in Hrun. injection Hrun as <- <-.
      destruct (toolMap (ag s) !! tu.1.2) as [tool|].
      - destruct (hd false (ctxDone (env s))).
        + destruct Hcase as (_ & -> & _). eauto.
        + destruct Hcase as [_ Hout]. simpl in Hout.
          destruct ((Execute tool tu.2 _ _).1.2); destruct Hout as [_ ->]; eauto.
      - destruct Hcase as (_ & -> & _). eauto. }
    destruct Hy as (c & e & ->). simpl. by rewrite Hi, Hl.
Qed.

Lemma resultsFollow_user m rest :
  Role m = MessageRoleUser → resultsFollow (m :: rest) = resultsFollow rest.
Proof. intros H. simpl. by rewrite H. Qed.

Lemma runModelStep_answers json script : ∀ s r s',
  runModelStep json script s = Some (r, s') →
  ∃ suffix, messages (ag s') = messages (ag s) ++ suffix
            ∧ resultsFollow suffix = true.
Proof.
  induction script as [|reply script IH]; intros s r s' H; simpl in H.
  - apply bind_Some in H as (x & s1 & H1 & H2).
    destruct (keeps_setBreakpoint _ _ _ _ H1) as [_ E2].
    injection H2 as <- <-. exists []. by rewrite app_nil_r.
  - apply bind_Some in H as (x & s1 & H1 & H2).
    destruct (keeps_setBreakpoint _ _ _ _ H1) as [_ E2].
    destruct reply as [e|chunks].
    { injection H2 as <- <-. exists []. by rewrite app_nil_r. }
    apply bind_Some in H2 as (asm & s2 & H2 & H3).
    destruct (keeps_foldM _ _ _ (keeps_onChunk json) _ _ _ H2) as [_ E4].
    apply bind_Some in H3 as (u & s3 & H3 & H4).
    injection H3 as <- <-.
    apply bind_Some in H4 as (err & s4 & H4 & H5).
    destruct (keeps_saveMessages _ _ _ H4) as [_ E6]. simpl in E6.
    set (A := {| Role := MessageRoleAssistant; Content := assistantContent asm |})
      in *.
    assert (Hm4 : messages (ag s4) = messages (ag s) ++ [A]) by congruence.
    assert (HA : ∀ rest, resultsFollow (A :: rest)
                         = match toolUseIDs (assistantContent asm), rest with
                           | _ :: _, r :: _ => answers A r
                           | _, _ => true
                           end && resultsFollow rest) by done.
    destruct err as [e|].
    { injection H5 as <- <-. exists [A]. split; [done|].
      rewrite HA. by destruct (toolUseIDs _). }
    destruct (0 <? length (toolUsesOf (assistantContent asm)))%nat eqn:Hlen.
    2:{ injection H5 as <- <-. exists [A]. split; [done|].
        rewrite HA. by destruct (toolUseIDs _). }
    apply bind_Some in H5 as (u5 & s5 & H5 & H6).
    destruct (keeps_setBreakpoint _ _ _ _ H5) as [_ E8].
    unfold executeTools in H6.
    apply bind_Some in H6 as (rs & s6 & H6 & H7).
    destruct (keeps_mapM _ _ (λ tu, keeps_executeSingleTool _ _ _) _ _ _ H6)
      as [_ E10].
    destruct (mapM_ids _ _ _ _ H6) as [Hids Hl].
    apply bind_Some in H7 as (u7 & s7 & H7 & H8).
    injection H7 as <- <-.
    apply bind_Some in H8 as (err8 & s8 & H8 & H9).
    destruct (keeps_saveMessages _ _ _ H8) as [_ E12]. simpl in E12.
    set (U := {| Role := MessageRoleUser; Content := rs |}) in *.
    assert (Hm8 : messages (ag s8) = messages (ag s) ++ [A; U]).
    { rewrite E12, E10, E8, Hm4, <- app_assoc. done. }
    assert (HU : answers A U = true).
    { unfold answers, toolUseIDs. simpl. rewrite Hids, Hl, length_fmap.
      by rewrite !bool_decide_eq_true_2. }
    assert (HAU : ∀ rest, resultsFollow (A :: U :: rest) = resultsFollow rest).
    { intros rest. rewrite HA, HU. rewrite resultsFollow_user by done.
      by destruct (toolUseIDs _). }
    destruct err8 as [e|].
    { injection H9 as <- <-. exists [A; U]. split; [done|]. by rewrite HAU. }
    apply bind_Some in H9 as (a9 & s9 & H9 & H10).
    injection H9 as <- <-.
    apply bind_Some in H10 as (r10 & s10 & H10 & H11).
    destruct (keeps_storeCall _ _ _ _ H10) as [_ E14].
    destruct (replyError r10) as [e|].
    { injection H11 as <- <-. exists [A; U]. split; [congruence|]. by rewrite HAU. }
    destruct (IH _ _ _ H11) as (suffix & Hs & Hf).
    exists (A :: U :: suffix). split; [|by rewrite HAU].
    rewrite Hs, E14, Hm8, <- app_assoc. done.
Qed.

(** Every request for tools is answered: in what a run of the engine adds
    to the history after the user message, every assistant message with
    tool-use blocks is followed at once by a user message made of one
    tool result for each of them, in the same order and with the same
    ids; it is left unanswered only when it is the last message, the
    store having refused to save it. *)
Theorem tool_uses_are_answered (json : string → option InputMap)
    (script : list StreamReply) (text : string) (s : St)
    (r : option string) (s' : St) :
  SendAndProcess json script text s = Some (r, s') →
  ∃ rest,
    messages (ag s')
    = messages (ag s)
      ++ {| Role := MessageRoleUser; Content := [TextBlock text] |} :: rest
    ∧ resultsFollow rest = true.
Proof.
  intros H.
  unfold SendAndProcess in H. apply bind_Some in H as (err & s1 & H1 & H2).
  assert (Hs1 : messages (ag s1)
                = messages (ag s)
                  ++ [{| Role := MessageRoleUser; Content := [TextBlock text] |}]).
  { unfold Send in H1.
    apply bind_Some in H1 as (u & s2 & H1 & H3). injection H1 as <- <-.
    apply bind_Some in H3 as (e & s3 & H3 & H4).
    destruct (keeps_saveMessages _ _ _ H3) as [_ E2]. simpl in E2.
    assert (s1 = s3) as -> by (destruct e; by injection H4 as <- <-).
    done. }
  destruct err as [e|].
  { injection H2 as <- <-. exists []. done. }
  apply bind_Some in H2 as (u & s2 & H2 & H3). injection H3 as <- <-.
  unfold processMessages in H2.
  apply bind_Some in H2 as (a & s3 & H2 & H3). injection H2 as <- <-.
  destruct (decide (state (ag s1) = AgentStateReady)).
  2:{ injection H3 as <- <-. exists []. done. }
  apply bind_Some in H3 as (u2 & s4 & H3 & H4). injection H3 as <- <-.
  apply bind_Some in H4 as (u3 & s5 & H4 & H5). injection H4 as <- <-.
  apply bind_Some in H5 as (u4 & s6 & H5 & H6).
  destruct (keeps_setBreakpoint _ _ _ _ H5) as [_ E2]. simpl in E2.
  apply bind_Some in H6 as (err & s7 & H6 & H7).
  destruct (runModelStep_answers json script _ _ _ H6) as (suffix & Hs & Hf).
  exists suffix. split; [|done].
  destruct (keeps_afterModel err _ _ _ H7) as [_ ->].
  rewrite Hs, E2, Hs1, <- app_assoc. done.
Qed.

Lemma tool_uses_are_answered_witness :
  ∃ r s' rest,
    SendAndProcess examples.flatObject examples.oneRound "hi" examples.atRest
    = Some (r, s')
    ∧ messages (ag s')
      = [] ++ {| Role := MessageRoleUser; Content := [TextBlock "hi"] |} :: rest
    ∧ resultsFollow rest = true.
Proof.
  destruct (stepsAndRounds_Some
              (SendAndProcess examples.flatObject examples.oneRound "hi"
                 examples.atRest) 2 1)
    as (r & s' & H & _ & _); [vm_compute; reflexivity|].
  destruct (tool_uses_are_answered _ _ _ _ _ _ H) as (rest & H1 & H2).
  exists r, s', rest. split; [exact H|]. split; [exact H1|exact H2].
Defined.

End LoopFacts.

(** ** Engine: assembling blocks from chunks *)

Module AssemblyFacts.
Import types sandbox tools provider events store agent.
Import EngineFacts StepLoopFacts.

Lemma stop_step_parsed json idx tid tname asm b c s input :
  0 ≤ idx →
  toolSlotOpen idx tid tname asm b → Type_ c = "content_block_stop" →
  b ≠ "" → json b = Some input →
  ∃ asm', onChunk json asm c s = Some (asm', s)
          ∧ assistantContent asm' !! Z.to_nat idx
            = Some (ToolUseBlock tid tname input)
          ∧ length (assistantContent asm') = length (assistantContent asm).
Proof.
  intros Hidx (Hcur & Hslot & Hbuf) Ht Hne Hjson.
  unfold onChunk. rewrite Ht. simpl.
  unfold onBlockStop, slot, bind, ret. rewrite Hcur.
  destruct (idx <? 0) eqn:E; [lia|]. rewrite Hslot.
  unfold bufferAt in Hbuf.
  destruct (inputJSONBuffers asm !! idx) as [jsonStr|]; [|done].
  simpl in Hbuf. subst jsonStr.
  destruct (String.eqb_spec b ""); [done|]. rewrite Hjson.
  eexists. split; [reflexivity|]. simpl.
  split; [|by rewrite length_insert].
  apply list_lookup_insert_eq. by eapply lookup_lt_Some.
Qed.

(** The input of a tool call is what the fragments spell: when a tool-use
    block is started, fed by delta chunks and stopped, and the
    [partial_json] fragments of its [input_json_delta] chunks, put
    together in order, are not empty and decode, the block ends up with
    the decoded input, under the id and the name it was started with, and
    no [MonitorError] is emitted. *)
Theorem tool_input_assembled (json : string → option InputMap)
    (asm : Assembly) (s : St) (start : StreamChunk) (deltas : list StreamChunk)
    (stop : StreamChunk) (tid tname : string) (input : InputMap) :
  startsToolUse start tid tname →
  Forall (λ c, Type_ c = "content_block_delta") deltas →
  Type_ stop = "content_block_stop" →
  let buffered :=
    jsonBuffered (bufferAt (inputJSONBuffers asm) (Index start)) deltas in
  buffered ≠ "" → json buffered = Some input →
  ∃ asm' s',
    foldM (onChunk json) (start :: deltas ++ [stop]) asm s = Some (asm', s')
    ∧ assistantContent asm' !! Z.to_nat (Index start)
      = Some (ToolUseBlock tid tname input)
    ∧ monitorErrors s' = monitorErrors s.
Proof.
  intros Hstart Hdeltas Hstop buffered Hne Hjson.
  assert (Hidx : 0 ≤ Index start) by apply Hstart.
  destruct (start_step json (Index start) tid tname Hidx asm start s Hstart eq_refl)
    as (asm1 & H1 & Hinv1).
  destruct (deltas_steps json (Index start) tid tname Hidx deltas asm1 _ s
              Hinv1 Hdeltas)
    as (asm2 & s2 & H2 & Hinv2 & Hm2).
  destruct (stop_step_parsed json (Index start) tid tname asm2 _ stop s2 input
              Hidx Hinv2 Hstop Hne Hjson) as (asm3 & H3 & Hslot & _).
  exists asm3, s2.
  change (start :: deltas ++ [stop]) with ([start] ++ (deltas ++ [stop])).
  rewrite foldM_app. simpl. unfold bind at 1. rewrite H1. unfold ret at 1.
  rewrite foldM_app, H2. simpl. unfold bind. rewrite H3.
  done.
Qed.

Lemma tool_input_assembled_witness :
  ∃ asm' s',
    foldM (onChunk examples.flatObject)
      [examples.startTool 0 "call-1" "bash_run";
       examples.jsonDelta 0 ("{" +:+ examples.quoted "cmd" +:+ ":");
       examples.jsonDelta 0 (examples.quoted "ls" +:+ "}");
       examples.stopBlock 0]
      emptyAssembly examples.atRest
    = Some (asm', s')
    ∧ assistantContent asm' !! 0%nat
      = Some (ToolUseBlock "call-1" "bash_run" (examples.cmdInput "ls")).
Proof.
  destruct (tool_input_assembled examples.flatObject emptyAssembly examples.atRest
           (examples.startTool 0 "call-1" "bash_run")
           [examples.jsonDelta 0 ("{" +:+ examples.quoted "cmd" +:+ ":");
            examples.jsonDelta 0 (examples.quoted "ls" +:+ "}")]
           (examples.stopBlock 0)
           "call-1" "bash_run" (examples.cmdInput "ls"))
    as (asm' & s' & H1 & H2 & _).
  - split; [reflexivity|]. split; [simpl; lia|].
    eexists. split; [reflexivity|]. repeat split.
  - repeat constructor.
  - reflexivity.
  - vm_compute. discriminate.
  - vm_compute. reflexivity.
  - exists asm', s'. split; [exact H1|exact H2].
Defined.

Section TextSlot.
Variable json : string → option InputMap.
Variable idx : Z.
Hypothesis Hidx : 0 ≤ idx.

Lemma text_start_step asm c s :
  startsText c → Index c = idx →
  ∃ asm' s', onChunk json asm c s = Some (asm', s')
             ∧ textSlotOpen idx asm' ""
             ∧ eventBus (ag s')
               = eventBus (ag s) ++ [ProgressTextChunkStartEvent (stepCount (ag s))]
             ∧ stepCount (ag s') = stepCount (ag s).
Proof.
  intros (Ht & Hi & d & Hd & Hty) Hix.
  unfold onChunk. rewrite Ht. simpl.
  unfold onBlockStart. rewrite Hd, Hty. simpl.
  unfold setSlot, bind, ret, getAgent, emit, modifyAgent. simpl.
  rewrite Hix. destruct (idx <? 0) eqn:E; [lia|].
  do 2 eexists. split; [reflexivity|]. simpl.
  split; [|done]. repeat split; simpl.
  - apply list_lookup_insert_eq. unfold padTo.
    rewrite length_app, length_replicate. lia.
  - unfold bufferAt. by rewrite lookup_insert_eq.
Qed.

Lemma text_delta_step asm b c s :
  textSlotOpen idx asm b → Type_ c = "content_block_delta" →
  ∃ asm' s', onChunk json asm c s = Some (asm', s')
             ∧ textSlotOpen idx asm' (joined b (deltaTexts [c]))
             ∧ eventBus (ag s')
               = eventBus (ag s)
                 ++ (ProgressTextChunkEvent (stepCount (ag s)) <$> deltaTexts [c])
             ∧ stepCount (ag s') = stepCount (ag s).
Proof.
  intros (Hcur & Hslot & Hbuf) Ht.
  unfold onChunk. rewrite Ht. simpl.
  unfold onBlockDelta, deltaTexts, joined. simpl.
  destruct (Delta c) as [d|]; [|exists asm, s; by rewrite app_nil_r].
  destruct (String.eqb (stringAt d "type") "text_delta") eqn:E1.
  - unfold slot, bind, ret, getAgent, emit, modifyAgent. simpl.
    rewrite Hcur. destruct (idx <? 0) eqn:E; [lia|]. rewrite Hslot. simpl.
    do 2 eexists. split; [reflexivity|]. simpl. split; [|done].
    repeat split; simpl.
    + rewrite list_lookup_insert_eq by by eapply lookup_lt_Some.
      rewrite Hbuf. unfold bufferAt. by rewrite lookup_insert_eq.
    + rewrite Hbuf. unfold bufferAt. by rewrite lookup_insert_eq.
  - destruct (String.eqb (stringAt d "type") "input_json_delta") eqn:E2.
    + do 2 eexists. split; [reflexivity|]. simpl. split; [done|].
      by rewrite app_nil_r.
    + exists asm, s. by rewrite app_nil_r.
Qed.

Lemma text_deltas_steps deltas : ∀ asm b s,
  textSlotOpen idx asm b →
  Forall (λ c, Type_ c = "content_block_delta") deltas →
  ∃ asm' s', foldM (onChunk json) deltas asm s = Some (asm', s')
             ∧ textSlotOpen idx asm' (joined b (deltaTexts deltas))
             ∧ eventBus (ag s')
               = eventBus (ag s)
                 ++ (ProgressTextChunkEvent (stepCount (ag s)) <$> deltaTexts deltas)
             ∧ stepCount (ag s') = stepCount (ag s).
Proof.
  induction deltas as [|c deltas IH]; intros asm b s Hinv Hall.
  - exists asm, s. by rewrite app_nil_r.
  - apply Forall_cons in Hall as [Hc Hall].
    destruct (text_delta_step asm b c s Hinv Hc)
      as (asm1 & s1 & H1 & Hinv1 & He1 & Hc1).
    destruct (IH asm1 _ s1 Hinv1 Hall) as (asm2 & s2 & H2 & Hinv2 & He2 & Hc2).
    assert (Hd : deltaTexts (c :: deltas) = deltaTexts [c] ++ deltaTexts deltas).
    { clear. unfold deltaTexts. simpl.
      destruct (Delta c) as [d|]; [|done]. by destruct (String.eqb _ _). }
    exists asm2, s2. rewrite Hd. cbn [foldM]. unfold bind. rewrite H1.
    split; [done|].
    unfold joined in *. rewrite fold_left_app.
    split; [done|]. split; [|congruence].
    rewrite He2, He1, Hc1, fmap_app, <- app_assoc. done.
Qed.

Lemma text_stop_step asm b c s :
  textSlotOpen idx asm b → Type_ c = "content_block_stop" →
  ∃ s', onChunk json asm c s = Some (asm, s')
        ∧ eventBus (ag s')
          = eventBus (ag s) ++ [ProgressTextChunkEndEvent (stepCount (ag s)) b].
Proof.
  intros (Hcur & Hslot & Hbuf) Ht.
  unfold onChunk. rewrite Ht. simpl.
  unfold onBlockStop, slot, bind, ret, getAgent, emit, modifyAgent. rewrite Hcur.
  destruct (idx <? 0) eqn:E; [lia|]. rewrite Hslot. simpl.
  by eexists.
Qed.

End TextSlot.

(** Text is put together from its fragments: when a text block is started,
    fed by delta chunks and stopped, it ends up with the texts of the
    [text_delta] chunks put together in order, and the engine has emitted
    a start event, one chunk event for each fragment, in order, and an end
    event that carries the whole text. *)
Theorem text_assembled (json : string → option InputMap)
    (asm : Assembly) (s : St) (start : StreamChunk) (deltas : list StreamChunk)
    (stop : StreamChunk) :
  startsText start →
  Forall (λ c, Type_ c = "content_block_delta") deltas →
  Type_ stop = "content_block_stop" →
  let text := joined "" (deltaTexts deltas) in
  let step := stepCount (ag s) in
  ∃ asm' s',
    foldM (onChunk json) (start :: deltas ++ [stop]) asm s = Some (asm', s')
    ∧ assistantContent asm' !! Z.to_nat (Index start) = Some (TextBlock text)
    ∧ eventBus (ag s')
      = eventBus (ag s)
        ++ [ProgressTextChunkStartEvent step]
        ++ (ProgressTextChunkEvent step <$> deltaTexts deltas)
        ++ [ProgressTextChunkEndEvent step text].
Proof.
  intros Hstart Hdeltas Hstop text step.
  assert (Hidx : 0 ≤ Index start) by apply Hstart.
  destruct (text_start_step json (Index start) Hidx asm start s Hstart eq_refl)
    as (asm1 & s1 & H1 & Hinv1 & He1 & Hc1).
  destruct (text_deltas_steps json (Index start) Hidx deltas asm1 _ s1
              Hinv1 Hdeltas)
    as (asm2 & s2 & H2 & Hinv2 & He2 & Hc2).
  destruct (text_stop_step json (Index start) Hidx asm2 _ stop s2 Hinv2 Hstop)
    as (s3 & H3 & He3).
  exists asm2, s3.
  change (start :: deltas ++ [stop]) with ([start] ++ (deltas ++ [stop])).
  rewrite foldM_app. simpl. unfold bind at 1. rewrite H1. unfold ret at 1.
  rewrite foldM_app, H2. simpl. unfold bind. rewrite H3.
  split; [done|]. split; [apply Hinv2|].
  rewrite He3, He2, He1, Hc2, Hc1, <- !app_assoc. done.
Qed.

Lemma text_assembled_witness :
  ∃ asm' s',
    foldM (onChunk examples.flatObject)
      [examples.startText 0; examples.textDelta 0 "hel";
       examples.textDelta 0 "lo"; examples.stopBlock 0]
      emptyAssembly examples.atRest
    = Some (asm', s')
    ∧ assistantContent asm' !! 0%nat = Some (TextBlock "hello").
Proof.
  destruct (text_assembled examples.flatObject emptyAssembly examples.atRest
              (examples.startText 0)
              [examples.textDelta 0 "hel"; examples.textDelta 0 "lo"]
              (examples.stopBlock 0))
    as (asm' & s' & H1 & H2 & _).
  - split; [reflexivity|]. split; [simpl; lia|].
    eexists. split; reflexivity.
  - repeat constructor.
  - reflexivity.
  - exists asm', s'. split; [exact H1|exact H2].
Defined.

End AssemblyFacts.

(** ** The command screen, the local sandbox and [bash_run] *)

Module ScreenFacts.
Import types regexp sandbox tools builtin.

Lemma MatchString_prefix r pre s :
  MatchString r s = true → MatchString r (pre +:+ s) = true.
Proof.
  intros H. induction pre as [|c pre IH]; [done|].
  change (String c pre +:+ s) with (String c (pre +:+ s)).
  simpl. rewrite IH. apply orb_true_r.
Qed.

Lemma noEnd_mkCat r1 r2 : noEnd r1 = true → noEnd r2 = true → noEnd (mkCat r1 r2) = true.
Proof. destruct r1, r2; simpl; intros H1 H2; try done; by rewrite ?H1, ?H2. Qed.

Lemma noEnd_mkAlt r1 r2 : noEnd r1 = true → noEnd r2 = true → noEnd (mkAlt r1 r2) = true.
Proof. destruct r1, r2; simpl; intros H1 H2; try done; by rewrite ?H1, ?H2. Qed.

Lemma noEnd_deriv c r : noEnd r = true → noEnd (deriv c r) = true.
Proof.
  induction r as [| | c' | k | r1 IH1 r2 IH2 | r1 IH1 r2 IH2 | r1 IH1 |]; simpl;
    try done.
  - by destruct (Ascii.eqb c c').
  - by destruct (classMem k c).
  - intros [H1 H2]%andb_true_iff. apply noEnd_mkAlt.
    + apply noEnd_mkCat; auto.
    + destruct (nullable false r1); auto.
  - intros [H1 H2]%andb_true_iff. apply noEnd_mkAlt; auto.
  - intros H1. apply noEnd_mkCat; auto.
Qed.

Lemma noEnd_nullable r b b' : noEnd r = true → nullable b r = nullable b' r.
Proof.
  induction r as [| | c' | k | r1 IH1 r2 IH2 | r1 IH1 r2 IH2 | r1 IH1 |]; simpl;
    try done.
  - intros [H1 H2]%andb_true_iff. by rewrite IH1, IH2.
  - intros [H1 H2]%andb_true_iff. by rewrite IH1, IH2.
Qed.

Lemma matchPrefix_suffix s : ∀ r post,
  noEnd r = true → matchPrefix r s = true → matchPrefix r (s +:+ post) = true.
Proof.
  induction s as [|c s IH]; intros r post Hr H; simpl in *.
  - destruct post as [|c post]; simpl; [done|].
    by rewrite (noEnd_nullable r false true Hr), H.
  - change (String c s +:+ post) with (String c (s +:+ post)). simpl.
    apply orb_true_iff in H as [H|H]; [by rewrite H|].
    rewrite (IH _ _ (noEnd_deriv c r Hr) H). apply orb_true_r.
Qed.

Lemma MatchString_suffix s : ∀ r post,
  noEnd r = true → MatchString r s = true → MatchString r (s +:+ post) = true.
Proof.
  induction s as [|c s IH]; intros r post Hr H.
  - simpl in H. rewrite orb_false_r in H.
    pose proof (matchPrefix_suffix "" r post Hr H) as H'.
    destruct post; simpl in *; by rewrite H'.
  - change (String c s +:+ post) with (String c (s +:+ post)).
    cbn [MatchString] in *.
    apply orb_true_iff in H as [H|H].
    + pose proof (matchPrefix_suffix (String c s) r post Hr H) as H'.
      change (String c s +:+ post) with (String c (s +:+ post)) in H'.
      by rewrite H'.
    + rewrite (IH _ _ Hr H). apply orb_true_r.
Qed.

(** The screen cannot be passed by putting a dangerous command in
    context: a command that is blocked stays blocked when anything is put
    in front of it, and, unless it is blocked by the first pattern only
    (the one with an end-of-text alternative), also when anything is put
    behind it. *)
Theorem dangerous_in_context (cmd pre post : string) :
  (isDangerous cmd = true → isDangerous (pre +:+ cmd) = true)
  ∧ (existsb (λ pattern, MatchString pattern cmd) (tl dangerousPatterns) = true →
     isDangerous (pre +:+ cmd +:+ post) = true).
Proof.
  unfold isDangerous. split.
  - rewrite !existsb_exists. intros (r & Hin & Hm).
    exists r. split; [done|]. by apply MatchString_prefix.
  - rewrite !existsb_exists. intros (r & Hin & Hm).
    exists r. split; [by right|].
    apply MatchString_prefix, MatchString_suffix; [|done].
    assert (Hall : forallb noEnd (tl dangerousPatterns) = true)
      by (vm_compute; reflexivity).
    rewrite forallb_forall in Hall. by apply Hall.
Qed.


(** With a string for [cmd], [bash_run] answers with a response, never
    with an error. *)
Lemma bash_run_ok (input : InputMap) (cmd : string) (tc : ToolContext)
    (ps : Spawned) :
  input !! "cmd" = Some (VString cmd) →
  ∃ resp,
    (BashRunTool_Execute input tc ps).1.1 = VMap resp
    ∧ (BashRunTool_Execute input tc ps).1.2 = None
    ∧ match (Exec (Sandbox tc) cmd None ps).1 with
      | inl result => field "ok" resp = Some (VBool (Code result =? 0))
      | inr _ => field "ok" resp = Some (VBool false)
      end.
Proof.
  intros Hcmd. unfold BashRunTool_Execute. rewrite Hcmd.
  destruct (Exec (Sandbox tc) cmd None ps) as [[result|e] ps']; simpl;
    [|by eexists].
  destruct (Code result =? 0); by eexists.
Qed.

(** The contract of [bash_run]: it fails, without touching the sandbox,
    exactly when [cmd] is not a string; otherwise it never fails, whatever
    the command does: it answers with a response in which [ok] says
    whether the exit code was 0, [code] is the exit code, [output] is
    never empty, and [error] is present exactly when [ok] is false. *)
Theorem bash_run_contract (input : InputMap) (tc : ToolContext) (ps : Spawned) :
  let '(out, err, ps') := BashRunTool_Execute input tc ps in
  match input !! "cmd" with
  | Some (VString cmd) =>
      err = None
      ∧ ps' = (Exec (Sandbox tc) cmd None ps).2
      ∧ match (Exec (Sandbox tc) cmd None ps).1 with
        | inl result =>
            ∃ resp output,
              out = VMap resp
              ∧ field "ok" resp = Some (VBool (Code result =? 0))
              ∧ field "code" resp = Some (VInt (Code result))
              ∧ field "output" resp = Some (VString output) ∧ output ≠ ""
              ∧ (is_Some (field "error" resp) ↔ Code result ≠ 0)
        | inr e =>
            ∃ resp, out = VMap resp
                    ∧ field "ok" resp = Some (VBool false)
                    ∧ field "error" resp
                      = Some (VString ("failed to execute command: " +:+ e))
        end
  | _ => out = VNil ∧ err = Some "cmd must be a string" ∧ ps' = ps
  end.
Proof.
  unfold BashRunTool_Execute.
  destruct (input !! "cmd") as [[| | |cmd| |]|]; try done.
  destruct (Exec (Sandbox tc) cmd None ps) as [[result|e] ps']; simpl.
  2:{ split; [done|]. split; [done|]. by eexists. }
  split; [done|]. split; [done|].
  set (output0 := if String.eqb (Stderr result) "" then Stdout result
                  else Stdout result +:+ String "010" "" +:+ Stderr result).
  set (output := if String.eqb output0 "" then "(no output)" else output0).
  assert (Hne : output ≠ "").
  { subst output. by destruct (String.eqb_spec output0 ""). }
  destruct (Z.eqb_spec (Code result) 0) as [Hz|Hnz].
  - exists [("ok", VBool true); ("code", VInt (Code result));
            ("output", VString output)], output.
    repeat split; simpl; try done.
    all: try (intros [v Hv]; discriminate).
  - eexists _, output. split; [reflexivity|]. simpl.
    repeat split; try done.
    all: try (intros; by eexists).
Qed.

(** A command that fails is still a completed call: through the engine, a
    [bash_run] call whose [cmd] is a string and whose context is live ends
    in COMPLETED with a result that is not flagged as an error, whatever
    the exit code; only the [ok] field of the response tells. *)
Theorem failed_command_completes (tuID cmd : string) (input : InputMap)
    (s : agent.St) :
  agent.toolMap (agent.ag s) !! "bash_run" = Some BashRunTool →
  input !! "cmd" = Some (VString cmd) →
  hd false (agent.ctxDone (agent.env s)) = false →
  ∃ res s' resp,
    agent.executeSingleTool tuID "bash_run" input s = Some (res, s')
    ∧ agent.trailOf s' tuID
      = Some [ToolCallStatePending; ToolCallStateExecuting; ToolCallStateCompleted]
    ∧ res = ToolResultBlock tuID (VMap resp) false
    ∧ match (Exec (agent.sandbox (agent.ag s)) cmd None
               (agent.spawned (agent.env s))).1 with
      | inl result => field "ok" resp = Some (VBool (Code result =? 0))
      | inr _ => field "ok" resp = Some (VBool false)
      end.
Proof.
  intros Hbound Hcmd Hlive.
  destruct (EngineFacts.executeSingleTool_cases tuID "bash_run" input s)
    as (res & s' & record & Hrun & Hrec & _ & _ & _ & Hcase).
  rewrite Hbound, Hlive in Hcase. destruct Hcase as [_ Hout]. simpl in Hout.
  pose proof (bash_run_ok input cmd
                {| AgentID := agent.id (agent.ag s);
                   Sandbox := agent.sandbox (agent.ag s) |}
                (agent.spawned (agent.env s)) Hcmd) as Hc.
  destruct (BashRunTool_Execute input _ _) as [[out err] ps']. simpl in Hc.
  destruct Hc as (resp & -> & -> & Hok). simpl in *.
  destruct Hout as [Htrail ->].
  exists (ToolResultBlock tuID (VMap resp) false), s', resp.
  split; [done|].
  split; [unfold agent.trailOf; rewrite Hrec; simpl; by rewrite Htrail|done].
Qed.

Lemma failed_command_completes_witness :
  ∃ res s' resp,
    agent.executeSingleTool "call-1" "bash_run" (examples.cmdInput "cat nothing")
      examples.onGrumpyHost
    = Some (res, s')
    ∧ agent.trailOf s' "call-1"
      = Some [ToolCallStatePending; ToolCallStateExecuting; ToolCallStateCompleted]
    ∧ res = ToolResultBlock "call-1" (VMap resp) false
    ∧ field "ok" resp = Some (VBool false).
Proof.
  destruct (failed_command_completes "call-1" "cat nothing"
              (examples.cmdInput "cat nothing") examples.onGrumpyHost)
    as (res & s' & resp & H1 & H2 & H3 & H4).
  - apply (lookup_singleton_eq (M:=gmap string)).
  - apply (lookup_singleton_eq (M:=gmap string)).
  - reflexivity.
  - exists res, s', resp. split; [exact H1|]. split; [exact H2|].
    split; [exact H3|]. exact H4.
Defined.

End ScreenFacts.

(** ** Construction of an agent *)

Module CreateFacts.
Import types sandbox tools provider events store agent.

Lemma buildToolMap_registered deps names : ∀ (acc : gmap string Tool) name tool,
  fold_left (λ m name,
               match ToolRegistry_Create deps name with
               | inl tool => <[name := tool]> m
               | inr _ => m
               end) names acc !! name = Some tool →
  acc !! name = Some tool
  ∨ (name ∈ names ∧ ToolRegistry_Create deps name = inl tool).
Proof.
  induction names as [|n names IH]; intros acc name tool H; simpl in H; [by left|].
  apply IH in H as [H|[Hin Hr]]; [|right; split; [by right|done]].
  destruct (ToolRegistry_Create deps n) as [t|e] eqn:Hn; [|by left].
  destruct (decide (n = name)) as [->|Hne].
  - rewrite lookup_insert_eq in H. injection H as <-. right. split; [left|done].
  - rewrite lookup_insert_ne in H by done. by left.
Qed.

(** What [initialize] does to an agent and to the store. *)
Lemma initialize_run tplID a e :
  ∃ err a' e',
    initialize tplID {| ag := a; env := e |} = Some (err, {| ag := a'; env := e' |})
    ∧ id a' = id a ∧ state a' = state a ∧ breakpoint a' = breakpoint a
    ∧ stepCount a' = stepCount a ∧ eventBus a' = eventBus a
    ∧ toolMap a' = toolMap a ∧ sandbox a' = sandbox a
    ∧ messages a' = match hd ReplyOk (storeScript e) with
                    | ReplyMessages (m :: ms) => m :: ms
                    | _ => messages a
                    end
    ∧ storeLog e'
      = storeLog e ++ [LoadMessagesCall (id a); LoadToolCallRecordsCall (id a);
                       SaveInfoCall (id a) tplID (createdAt a)
                         (Z.of_nat (length (messages a')))].
Proof.
  unfold initialize, bind, getAgent, storeCall, modifyAgent, ret. simpl.
  destruct (hd ReplyOk (storeScript e)) as [|msg|[|m ms]|rs]; simpl;
    destruct (hd ReplyOk (tl (storeScript e))) as [|msg'|ms'|rs']; simpl;
    do 3 eexists; (split; [reflexivity|]); simpl; rewrite <- ?app_assoc;
    repeat split.
Qed.

(** What [agent.Create] hands out: an agent that carries the id of the
    configuration as the call leaves it, which is never empty, is ready,
    at step 0, with no event emitted, bound only to tools the registry
    created under the names asked for, holding the messages the store
    had for it, and registered with the store by one [SaveInfo]. *)
Theorem Create_fresh_agent (h : Host) (deps : Dependencies) (uuid : string)
    (cfg cfg' : config.AgentConfig) (a : Agent) (e e' : Env) :
  agent.Create h deps uuid cfg e = (cfg', inl a, e') →
  id a = config.AgentID cfg' ∧ id a ≠ ""
  ∧ state a = AgentStateReady ∧ breakpoint a = BreakpointReady
  ∧ stepCount a = 0 ∧ eventBus a = []
  ∧ (∀ name tool, toolMap a !! name = Some tool →
                  ToolRegistry_Create deps name = inl tool)
  ∧ messages a = match hd ReplyOk (storeScript e) with
                 | ReplyMessages (m :: ms) => m :: ms
                 | _ => []
                 end
  ∧ ∃ tplID,
      storeLog e'
      = storeLog e ++ [LoadMessagesCall (id a); LoadToolCallRecordsCall (id a);
                       SaveInfoCall (id a) tplID (clock e)
                         (Z.of_nat (length (messages a)))].
Proof.
  unfold agent.Create.
  set (cfg1 := if String.eqb (config.AgentID cfg) "" then _ else cfg).
  assert (Hid : config.AgentID cfg1 ≠ "").
  { subst cfg1. destruct (String.eqb_spec (config.AgentID cfg) ""); [|done].
    simpl. unfold generateAgentID. discriminate. }
  destruct (TemplateRegistry_Get deps _) as [template|?]; [|done].
  assert (Hmc : ∀ (o : option config.ModelConfig) (P : Prop),
            (∀ mc, o = Some mc → P) → (o = None → P) → P)
    by (intros [mc|] P H1 H2; eauto).
  match goal with
  | |- context [match ?o with Some mc => match ProviderFactory_Create _ _ with _ => _ end | None => _ end] =>
      apply (Hmc o); [intros mc ->|by intros ->]
  end.
  clear Hmc.
  destruct (ProviderFactory_Create deps mc); [|done].
  destruct (Factory_Create h _) as [sb|?]; [|done].
  match goal with
  | |- context [initialize ?t {| ag := ?a0; env := ?e0 |}] =>
      destruct (initialize_run t a0 e0)
        as (err & a' & e1 & -> & H1 & H2 & H3 & H4 & H5 & H6 & H7 & H8 & H9)
  end.
  destruct err as [err|]; [done|]. simpl in *.
  intros H. injection H as <- <- <-.
  split; [done|]. split; [congruence|].
  split; [done|]. split; [done|]. split; [done|]. split; [done|].
  split.
  { intros name tool Hl. rewrite H6 in Hl. unfold buildToolMap in Hl.
    apply buildToolMap_registered in Hl as [Hl|[_ Hl]]; [|done].
    by rewrite lookup_empty in Hl. }
  split; [done|]. eexists. rewrite H9, H1. done.
Qed.

Lemma Create_fresh_agent_witness :
  ∃ cfg' a e',
    agent.Create examples.quietHost examples.testDeps "u1"
      (examples.testConfig "" config.SandboxKindMock) examples.calmEnv
    = (cfg', inl a, e')
    ∧ id a = config.AgentID cfg' ∧ id a ≠ "" ∧ state a = AgentStateReady.
Proof.
  destruct (PoolMoreFacts.inl_of_true
              (agent.Create examples.quietHost examples.testDeps "u1"
                 (examples.testConfig "" config.SandboxKindMock)
                 examples.calmEnv).1.2) as [a Ha]; [vm_compute; reflexivity|].
  destruct (agent.Create examples.quietHost examples.testDeps "u1"
              (examples.testConfig "" config.SandboxKindMock) examples.calmEnv)
    as [[cfg' r] e'] eqn:E.
  simpl in Ha. subst r. exists cfg', a, e'. split; [reflexivity|].
  destruct (Create_fresh_agent _ _ _ _ _ _ _ _ E) as (H1 & H2 & H3 & _).
  split; [exact H1|]. split; [exact H2|exact H3].
Defined.

End CreateFacts.

(** ** The record of a call, and the sandbox factory *)

Module RecordFacts.
Import types sandbox tools events agent.
Import EngineFacts.

(** The record the engine keeps of a call is consistent: it is stored
    under the id of the call and carries its id, name and input; its state
    is the last state of its audit trail and is terminal; it is flagged as
    an error only when it failed; the result block answers the call and is
    flagged as an error exactly when the record failed; and a completed
    record holds the result. *)
Theorem record_consistent (tuID tuName : string) (tuInput : InputMap) (s : St) :
  ∃ res s' record,
    executeSingleTool tuID tuName tuInput s = Some (res, s')
    ∧ toolRecords (ag s') !! tuID = Some record
    ∧ tcr_ID record = tuID ∧ tcr_Name record = tuName
    ∧ tcr_Input record = tuInput
    ∧ last (trailStates record) = Some (tcr_State record)
    ∧ isTerminal (tcr_State record) = true
    ∧ (tcr_IsError record = true → tcr_State record = ToolCallStateFailed)
    ∧ (∃ content,
         res = ToolResultBlock tuID content
                 (bool_decide (tcr_State record = ToolCallStateFailed)))
    ∧ (tcr_State record = ToolCallStateCompleted → is_Some (tcr_Result record)).
Proof.
  run_engine.
  destruct (toolMap (ag s) !! tuName) as [tool|] eqn:Htool.
  - run_engine. look.
    destruct (hd false (ctxDone (env s))); simpl.
    + look. do 3 eexists. split; [reflexivity|]. simpl. look.
      split; [reflexivity|]. simpl. repeat split; try done; by eexists.
    + destruct (Execute tool tuInput _ _) as [[out [e|]] ps] eqn:HE; simpl.
      * look. do 3 eexists. split; [reflexivity|]. simpl. look.
        split; [reflexivity|]. simpl. repeat split; try done; by eexists.
      * look. do 3 eexists. split; [reflexivity|]. simpl. look.
        split; [reflexivity|]. simpl. repeat split; try done; by eexists.
  - run_engine. look. do 3 eexists. split; [reflexivity|]. simpl. look.
    split; [reflexivity|]. simpl. repeat split; try done; by eexists.
Qed.


(** What the factory makes: a sandbox of the kind asked for, and only for
    the kinds local, mock and remote (the last with extra configuration);
    the other kinds are always refused; a local sandbox is refused only
    when its work directory cannot be resolved; and no configuration
    means a local sandbox in the current directory. *)
Theorem Factory_Create_kinds (h : Host) (cfg : config.SandboxConfig) :
  match Factory_Create h (Some cfg) with
  | inl sb =>
      Kind sb = config.SandboxKind_string (config.sc_Kind cfg)
      ∧ (config.sc_Kind cfg = config.SandboxKindLocal
         ∨ config.sc_Kind cfg = config.SandboxKindMock
         ∨ (config.sc_Kind cfg = config.SandboxKindRemote
            ∧ is_Some (config.sc_Extra cfg)))
  | inr _ =>
      config.sc_Kind cfg ≠ config.SandboxKindMock
      ∧ (config.sc_Kind cfg = config.SandboxKindRemote → config.sc_Extra cfg = None)
      ∧ (config.sc_Kind cfg = config.SandboxKindLocal →
         ∃ err,
           (if String.eqb (config.sc_WorkDir cfg) "" then Getwd h
            else inl (config.sc_WorkDir cfg)) = inr err
           ∨ ∃ wd, (if String.eqb (config.sc_WorkDir cfg) "" then Getwd h
                    else inl (config.sc_WorkDir cfg)) = inl wd
                   ∧ filepath_Abs h wd = inr err)
  end
  ∧ Factory_Create h None
    = Factory_Create h
        (Some {| config.sc_Kind := config.SandboxKindLocal;
                 config.sc_WorkDir := "."; config.sc_EnforceBoundary := false;
                 config.sc_AllowPaths := []; config.sc_WatchFiles := false;
                 config.sc_Extra := None |}).
Proof.
  split; [|done].
  unfold Factory_Create, NewLocalSandbox.
  destruct (config.sc_Kind cfg) eqn:Hk; simpl; try by (repeat split; try done; auto).
  - destruct (if String.eqb (config.sc_WorkDir cfg) "" then Getwd h
              else inl (config.sc_WorkDir cfg)) as [wd|err] eqn:Hwd.
    + destruct (filepath_Abs h wd) as [wd'|err] eqn:Habs.
      * split; [done|]. by left.
      * split; [done|]. split; [done|]. intros _. exists err. right. by exists wd.
    + split; [done|]. split; [done|]. intros _. exists err. by left.
  - destruct (config.sc_Extra cfg) as [x|] eqn:Hx.
    + split; [done|]. right; right. split; [done|]. by eexists.
    + repeat split; try done.
Qed.

End RecordFacts.
